(** * terraform-simple-registry: module versions, archives and the v1 handler

    A shallow embedding of the Go package [module] (the version catalogue
    [AllVersions], [LatestVersion], [HasVersion], the tree id of a version,
    and the tar serialisation [WriteVersionTar] of a tagged git tree) and of
    [makeHandler], the router of [cmd/terraform-modules-v1-server], together
    with the properties the specification states about them.

    The source tree holds two revisions of [makeHandler].  The one embedded
    as [makeHandler] takes the hostname and the module map, as [realMain]
    calls it, and has the six routes of the protocol.  The one in handler.go
    takes the module map only; it is embedded as [Legacy.makeHandler].

    The program leans on libraries that are not part of the repository:
    git2go (the object store), hashicorp/go-version (parsing and ordering of
    versions), gorilla/mux and the Go standard library (sort, archive/tar,
    net/http, encoding/json).  The store is modelled as a record of the
    calls the program makes; the version library and [sort.Slice] are
    interfaces (type classes) whose contracts are separate law classes, so
    that a general theorem holds for every implementation that honours the
    contract.  What the router answers to a request that none of the routes
    takes is an interface as well. *)

From Stdlib Require Import ZArith NArith List String Ascii Bool Lia.
From Stdlib Require Import Sorted Permutation OrdersEx DecimalString.
From stdpp Require Import base option list gmap strings.

Local Open Scope string_scope.
Local Open Scope list_scope.
Local Open Scope Z_scope.

(** ** Go values *)

(** [git.GitError]: the error value of git2go, with libgit2's error code. *)
Record GitError := { Code : Z; Message : string }.

(** A Go [error]: either a pointer to a [git.GitError] or any other error value. *)
Inductive error :=
| git_error (e : GitError)
| other_error (msg : string).

(** [git.ErrIterOver], libgit2's GIT_ITEROVER. *)
Definition ErrIterOver : Z := -31.

(** The pair [(value, err)] returned by a fallible Go call. *)
Inductive Result (A : Type) :=
| Ok (a : A)
| Err (e : error).
Arguments Ok {A} a.
Arguments Err {A} e.

(** The test: [err] is a [git.GitError] and [err.Code == git.ErrIterOver]. *)
Definition isIterOver (err : error) : bool :=
  match err with
  | git_error e => Code e =? ErrIterOver
  | other_error _ => false
  end.

(** [strings.HasPrefix] and [strings.HasSuffix]. *)
Definition HasPrefix (s p : string) : bool := String.prefix p s.

Definition HasSuffix (s p : string) : bool :=
  (String.length p <=? String.length s)%nat &&
  String.eqb (String.substring (String.length s - String.length p) (String.length p) s) p.

(** The slice expression [s[n:]]. *)
Fixpoint string_from (n : nat) (s : string) : string :=
  match n, s with
  | O, _ => s
  | S n', String _ s' => string_from n' s'
  | S _, EmptyString => EmptyString
  end.

(** [strings.Split] on a one-byte separator; [cur] is the piece being read. *)
Fixpoint Split_from (cur s : string) (sep : ascii) : list string :=
  match s with
  | EmptyString => [cur]
  | String c s' =>
      if Ascii.eqb c sep then cur :: Split_from "" s' sep
      else Split_from (cur +:+ String c "") s' sep
  end.

Definition Split (s : string) (sep : ascii) : list string := Split_from "" s sep.

(** The slice expression [s[:n]]. *)
Definition string_upto (n : nat) (s : string) : string := String.substring 0 n s.

(** ** The version library (hashicorp/go-version) as an interface *)

Class VersionLib := {
  Version : Type;
  (** [version.NewVersion]: parse a version string. *)
  NewVersion : string -> Result Version;
  (** The method [Compare]: negative, zero or positive. *)
  Compare : Version -> Version -> Z;
  (** The method [String]: the canonical rendering. *)
  Version_String : Version -> string
}.

(** [LessThan] and [Equal] are defined by the library from [Compare]. *)
Definition LessThan `{VersionLib} (v o : Version) : bool := Compare v o <? 0.
Definition Equal `{VersionLib} (v o : Version) : bool := Compare v o =? 0.

(** The contract of [Compare]: a total preorder, read through its sign. *)
Class VersionLaws `{VersionLib} : Prop := {
  Compare_antisym : forall a b, Compare b a = - Compare a b;
  Compare_trans : forall a b c, Compare a b <= 0 -> Compare b c <= 0 -> Compare a c <= 0
}.

(** ** [sort.Slice] as an interface *)

Class SortLib := {
  sort_Slice : forall {A : Type}, (A -> A -> bool) -> list A -> list A
}.

(** A strict weak ordering, the requirement [sort] puts on [less]. *)
Record StrictWeak {A : Type} (less : A -> A -> bool) : Prop := {
  sw_irrefl : forall a, less a a = false;
  sw_trans : forall a b c, less a b = true -> less b c = true -> less a c = true;
  sw_incomp : forall a b c, less a b = false -> less b c = false -> less a c = false
}.

(** The contract of [sort.Slice]: the slice is permuted, and for a strict
    weak ordering no element is [less] than one placed before it.  Nothing
    is promised about the relative order of equivalent elements. *)
Class SortLaws `{SortLib} : Prop := {
  sort_Slice_perm : forall (A : Type) (less : A -> A -> bool) (l : list A),
    Permutation l (sort_Slice less l);
  sort_Slice_sorted : forall (A : Type) (less : A -> A -> bool) (l : list A),
    StrictWeak less ->
    StronglySorted (fun a b => less b a = false) (sort_Slice less l)
}.

(** ** The object store (git2go) *)

Definition Oid := string.
Definition Time := Z.

Inductive ObjectType :=
| ObjectAny | ObjectBad | ObjectCommit | ObjectTree | ObjectBlob | ObjectTag.

Record Blob := { Contents : list Byte.byte }.

Definition Blob_Size (b : Blob) : Z := Z.of_nat (List.length (Contents b)).

(** Trees.  Objects are addressed by the hash of their content, so the objects
    below a tree form a finite tree themselves.  An entry therefore records,
    next to the four fields git2go exposes, what the store answers when the
    entry's id is looked up as a tree and as a blob (either lookup may
    fail). *)
Inductive Tree :=
| mkTree (entries : list TreeEntry)
with TreeEntry :=
| mkTreeEntry (Name : string) (Id : Oid) (Type_ : ObjectType) (Filemode : Z)
              (as_tree : Result Tree) (as_blob : Result Blob).

Definition entries (t : Tree) : list TreeEntry := let (es) := t in es.
Definition Name (e : TreeEntry) : string := let (n, _, _, _, _, _) := e in n.
Definition Id (e : TreeEntry) : Oid := let (_, i, _, _, _, _) := e in i.
Definition Type_ (e : TreeEntry) : ObjectType := let (_, _, t, _, _, _) := e in t.
Definition Filemode (e : TreeEntry) : Z := let (_, _, _, f, _, _) := e in f.
Definition as_tree (e : TreeEntry) : Result Tree := let (_, _, _, _, t, _) := e in t.
Definition as_blob (e : TreeEntry) : Result Blob := let (_, _, _, _, _, b) := e in b.

Record Signature := { sig_Name : string; sig_Email : string; When : Time }.

Record Commit := {
  TreeId : Oid;
  Committer : Signature;
  (** [commit.Tree()] reads the root tree and may fail. *)
  commit_Tree : Result Tree
}.

(** A [git.Object] obtained by peeling; [AsCommit] may fail. *)
Record Object := { AsCommit : Result Commit }.

Record Reference := { Peel : ObjectType -> Result Object }.

(** A [git.Repository], as far as the program uses it.  A reference-name
    iterator is the sequence of outcomes of its successive [Next] calls;
    once that sequence is exhausted [Next] reports [ErrIterOver]. *)
Record Repository := {
  NewReferenceNameIterator : Result (list (Result string));
  References_Lookup : string -> Result Reference
}.

(** [repo.LookupTree(entry.Id)] and [repo.LookupBlob(entry.Id)]. *)
Definition LookupTree (r : Repository) (entry : TreeEntry) : Result Tree := as_tree entry.
Definition LookupBlob (r : Repository) (entry : TreeEntry) : Result Blob := as_blob entry.

(** ** Package module *)

Record Module := { repo : Repository }.

Section ModuleVersions.
Context `{VL : VersionLib} `{SL : SortLib}.

(** The [for] loop of [AllVersions], over the outcomes of [it.Next()]. *)
Fixpoint AllVersions_loop (it : list (Result string)) (ret : list Version)
  : Result (list Version) :=
  match it with
  | [] => Ok ret
  | Err err :: it' =>
      if isIterOver err then Ok ret else Err err
  | Ok name :: it' =>
      if HasPrefix name "refs/tags/v" then
        let versionStr := string_from 11 name in
        match NewVersion versionStr with
        | Err _ => AllVersions_loop it' ret
        | Ok v => AllVersions_loop it' (ret ++ [v])
        end
      else AllVersions_loop it' ret
  end.

Definition AllVersions (m : Module) : Result (list Version) :=
  match NewReferenceNameIterator (repo m) with
  | Err err => Err err
  | Ok it =>
      match AllVersions_loop it [] with
      | Err err => Err err
      | Ok ret =>
          (* j and i are inverted because we want reverse order *)
          Ok (sort_Slice (fun vi vj => LessThan vj vi) ret)
      end
  end.

Definition LatestVersion (m : Module) : Result (option Version) :=
  match AllVersions m with
  | Err err => Err err
  | Ok versions =>
      if (List.length versions =? 0)%nat then Ok None
      else Ok (nth_error versions 0)
  end.

(** The [for] loop of [HasVersion]. *)
Fixpoint HasVersion_loop (it : list (Result string)) (v : Version) : Result bool :=
  match it with
  | [] => Ok false
  | Err err :: it' =>
      if isIterOver err then Ok false else Err err
  | Ok name :: it' =>
      if HasPrefix name "refs/tags/v" then
        let versionStr := string_from 11 name in
        match NewVersion versionStr with
        | Err _ => HasVersion_loop it' v
        | Ok gotV => if Equal gotV v then Ok true else HasVersion_loop it' v
        end
      else HasVersion_loop it' v
  end.

Definition HasVersion (m : Module) (v : Version) : Result bool :=
  match NewReferenceNameIterator (repo m) with
  | Err err => Err err
  | Ok it => HasVersion_loop it v
  end.

Definition getVersionCommit (m : Module) (v : Version) : Result Commit :=
  let refName := "refs/tags/v" +:+ Version_String v in
  match References_Lookup (repo m) refName with
  | Err err => Err err
  | Ok ref =>
      match Peel ref ObjectCommit with
      | Err err => Err err
      | Ok commitObj => AsCommit commitObj
      end
  end.

Definition GetVersionTreeId (m : Module) (v : Version) : Result string :=
  match getVersionCommit m v with
  | Err err => Err err
  | Ok commit => Ok (TreeId commit)
  end.

End ModuleVersions.

(** ** Package archive/tar, as far as the program uses it *)

(** [tar.Header]; the fields the program leaves out keep Go's zero value. *)
Record Header := {
  hdr_Name : string;
  hdr_Mode : Z;
  hdr_Typeflag : ascii;
  hdr_Size : Z;
  hdr_ChangeTime : Time;
  hdr_AccessTime : Time;
  hdr_ModTime : Time
}.

Definition TypeReg : ascii := "0"%char.
Definition TypeDir : ascii := "5"%char.

(** What reaches the underlying [io.Writer]: headers, file bodies and the
    end-of-archive trailer written by [Close]. *)
Inductive TarItem :=
| TarHeader (h : Header)
| TarData (b : list Byte.byte)
| TarTrailer.

(** A [tar.Writer] on top of an [io.Writer].  [room] is how many more items
    the underlying writer accepts before it starts failing ([None]: it never
    fails); a failure is sticky, as in archive/tar. *)
Record TarWriter := { out : list TarItem; room : option nat }.

Definition NewWriter (room : option nat) : TarWriter := {| out := []; room := room |}.

Definition ErrWrite : error := other_error "write failed".

Definition tar_put (tw : TarWriter) (item : TarItem) : TarWriter * option error :=
  match room tw with
  | None => ({| out := out tw ++ [item]; room := None |}, None)
  | Some O => (tw, Some ErrWrite)
  | Some (S n) => ({| out := out tw ++ [item]; room := Some n |}, None)
  end.

Definition tar_WriteHeader (tw : TarWriter) (hdr : Header) : TarWriter * option error :=
  tar_put tw (TarHeader hdr).

Definition tar_Write (tw : TarWriter) (b : list Byte.byte) : TarWriter * option error :=
  tar_put tw (TarData b).

Definition tar_Close (tw : TarWriter) : TarWriter := fst (tar_put tw TarTrailer).

(** ** Package module: the archive of a version *)

Section ModuleArchive.
Context `{VL : VersionLib}.

(** [writeGitTreeTar]: the loop over the entries of [tree] with the
    recursive call for sub-trees.  The result is the writer afterwards and
    the returned error ([None] for [nil]). *)
Fixpoint writeGitTreeTar (m : Module) (tree : Tree) (prefix : string)
    (modTime : Time) (tw : TarWriter) {struct tree} : TarWriter * option error :=
  match tree with
  | mkTree es =>
      (fix loop (es : list TreeEntry) (tw : TarWriter) {struct es}
         : TarWriter * option error :=
         match es with
         | [] => (tw, None)
         | entry :: rest =>
             match entry with
             | mkTreeEntry name id ty filemode sub blb =>
                 match ty with
                 | ObjectTree =>
                     let newPrefix := prefix +:+ name +:+ "/" in
                     let tw := fst (tar_WriteHeader tw
                       {| hdr_Name := newPrefix;
                          hdr_Mode := 493 (* 0755 *);
                          hdr_Typeflag := TypeDir;
                          hdr_Size := 0;
                          hdr_ChangeTime := modTime;
                          hdr_AccessTime := modTime;
                          hdr_ModTime := modTime |}) in
                     match sub with
                     | Err _ => loop rest tw (* continue *)
                     | Ok newTree =>
                         match writeGitTreeTar m newTree newPrefix modTime tw with
                         | (tw, Some err) => (tw, Some err)
                         | (tw, None) => loop rest tw
                         end
                     end
                 | ObjectBlob =>
                     match blb with
                     | Err err => (tw, Some err)
                     | Ok blob =>
                         let tw := fst (tar_WriteHeader tw
                           {| hdr_Name := prefix +:+ name;
                              hdr_Mode := filemode;
                              hdr_Typeflag := TypeReg;
                              hdr_Size := Blob_Size blob;
                              hdr_ChangeTime := modTime;
                              hdr_AccessTime := modTime;
                              hdr_ModTime := modTime |}) in
                         match tar_Write tw (Contents blob) with
                         | (tw, Some err) => (tw, Some err)
                         | (tw, None) => loop rest tw
                         end
                     end
                 | _ => loop rest tw
                 end
             end
         end) es tw
  end.

(** [WriteVersionTar]; the deferred [tw.Close()] runs on every return. *)
Definition WriteVersionTar (m : Module) (v : Version) (w : option nat)
  : TarWriter * option error :=
  let tw := NewWriter w in
  match getVersionCommit m v with
  | Err err => (tar_Close tw, Some err)
  | Ok commit =>
      let committer := Committer commit in
      let commitTime := When committer in
      match commit_Tree commit with
      | Err err => (tar_Close tw, Some err)
      | Ok rootTree =>
          let (tw, err) := writeGitTreeTar m rootTree "" commitTime tw in
          (tar_Close tw, err)
      end
  end.

End ModuleArchive.

(** ** Package config *)

(** [config.Module]: where one module lives.  [DeclRange] is the source range
    of its declaration, used in log messages only. *)
Record ModuleConfig := { GitDir : string; DeclRange : string }.

(** [config.Modules]: namespace, then name, then provider.  A missing key
    reads as Go's [nil]. *)
Abbreviation Modules := (gmap string (gmap string (gmap string ModuleConfig))).

(** ** Package net/http, encoding/json, gorilla/mux: what the handler uses *)

#[local] Unset Elimination Schemes.
Inductive json :=
| JString (s : string)
| JArray (items : list json)
| JObject (fields : list (string * json)).
#[local] Set Elimination Schemes.

(** One [Write] to the response: an encoded JSON document, or the items of a
    tar stream, raw or through [gzip.Writer]. *)
Inductive Chunk :=
| ChunkJSON (doc : json)
| ChunkTar (items : list TarItem)
| ChunkGzipTar (items : list TarItem).

Inductive LogEntry :=
| LogOpenFailed (gitDir declRange : string)
| LogLatestFailed (declRange : string) (err : error)
| LogAllVersionsFailed (declRange : string) (err : error)
| LogCheckFailed (v declRange : string) (err : error)
| LogTreeIdFailed (v declRange : string) (err : error)
| LogWrongTreeId (v declRange : string)
| LogJSONFailed (err : error).

(** An [http.ResponseWriter] during a request.  [sent] is the status line and
    the header map frozen by the first [WriteHeader] (or the first [Write]);
    [header] is the live map of [wr.Header()]. *)
Record ResponseWriter := {
  header : gmap string string;
  sent : option (Z * gmap string string);
  body : list Chunk;
  logged : list LogEntry
}.

Definition newResponseWriter : ResponseWriter :=
  {| header := ∅; sent := None; body := []; logged := [] |}.

Definition Header_Set (wr : ResponseWriter) (k v : string) : ResponseWriter :=
  {| header := <[k := v]> (header wr); sent := sent wr;
     body := body wr; logged := logged wr |}.

Definition WriteHeader (wr : ResponseWriter) (code : Z) : ResponseWriter :=
  match sent wr with
  | Some _ => wr
  | None => {| header := header wr; sent := Some (code, header wr);
               body := body wr; logged := logged wr |}
  end.

Definition Write (wr : ResponseWriter) (c : Chunk) : ResponseWriter :=
  let wr := WriteHeader wr 200 in
  {| header := header wr; sent := sent wr;
     body := body wr ++ [c]; logged := logged wr |}.

Definition log_Printf (wr : ResponseWriter) (e : LogEntry) : ResponseWriter :=
  {| header := header wr; sent := sent wr;
     body := body wr; logged := logged wr ++ [e] |}.

(** What the client receives once the handler has returned: a handler that
    never called [WriteHeader] or [Write] answers 200 with the live header. *)
Record Response := {
  Status : Z;
  RespHeader : gmap string string;
  RespBody : list Chunk
}.

Definition finish (wr : ResponseWriter) : Response :=
  match sent wr with
  | Some (code, h) => {| Status := code; RespHeader := h; RespBody := body wr |}
  | None => {| Status := 200; RespHeader := header wr; RespBody := body wr |}
  end.

(** [json.MarshalIndent] of the handler's response structs; these hold only
    strings and slices, for which encoding does not fail. *)
Definition json_MarshalIndent (doc : json) : Result json := Ok doc.

Record apiModule := {
  api_ID : string;
  api_Namespace : string;
  api_Name : string;
  api_Provider : string;
  api_Version : string
}.

Definition json_of_apiModule (a : apiModule) : json :=
  JObject [ ("id", JString (api_ID a));
            ("namespace", JString (api_Namespace a));
            ("name", JString (api_Name a));
            ("provider", JString (api_Provider a));
            ("version", JString (api_Version a)) ].

(** [apiModuleListResponse]; [Meta] is never set and omitted when empty. *)
Definition json_of_apiModuleListResponse (ms : list apiModule) : json :=
  JObject [ ("modules", JArray (map json_of_apiModule ms)) ].

(** The path of a request, cut at every slash, as far as a route can take
    it: [None] unless it starts with a slash and is in the clean form the
    router insists on before it tries a route (no [.] and no [..] segment,
    no doubled slash).  A mux variable [{x}] matches one non-empty segment,
    so a path with a trailing slash matches no route either. *)
Definition path_segments (path : string) : option (list string) :=
  match path with
  | String c rest =>
      if Ascii.eqb c "/"%char then
        let segs := Split rest "/"%char in
        if forallb (fun s => negb (String.eqb s "") && negb (String.eqb s ".")
                             && negb (String.eqb s "..")) segs
        then Some segs else None
      else None
  | EmptyString => None
  end.

(** ** The handler of terraform-modules-v1-server *)

(** A request as the router sees it: the URL path, and how many tar items
    the client connection still accepts should an archive be streamed.  No
    route looks at the method. *)
Record Request := { URL_Path : string; client_room : option nat }.

(** gorilla/mux, for the requests that none of the routes takes.  The
    handler is the router itself, with no not-found handler set: a path that
    is not in clean form is redirected by the router, a path that no route
    matches goes to the router's default.  Both answers are the library's,
    not the program's; [mux_unrouted] stands for them. *)
Class MuxLib := {
  mux_unrouted : Request -> ResponseWriter
}.

Section Handler.
Context `{VL : VersionLib} `{SL : SortLib} `{MX : MuxLib}.

(** [git.OpenRepository], the file system the server runs on. *)
Variable OpenRepository : string -> Result Repository.

(** [module.Load]: [nil] when the directory cannot be opened. *)
Definition Load (gitDir : string) : option Module :=
  match OpenRepository gitDir with
  | Err _ => None
  | Ok r => Some {| repo := r |}
  end.

(** The registry's friendly hostname, as [hostname.ForDisplay()] renders it. *)
Variable hostname : string.
Variable modules : Modules.

Definition summary (namespace name provider : string) (v : Version) : apiModule :=
  {| api_ID := namespace +:+ "/" +:+ name +:+ "/" +:+ provider +:+ "/" +:+ Version_String v;
     api_Namespace := namespace;
     api_Name := name;
     api_Provider := provider;
     api_Version := Version_String v |}.

Definition writeJSON (wr : ResponseWriter) (doc : json) : ResponseWriter :=
  match json_MarshalIndent doc with
  | Err err => log_Printf (WriteHeader wr 500) (LogJSONFailed err)
  | Ok buf => Write wr (ChunkJSON buf)
  end.

(** The body of the loop [for provider, cfg := range byName]. *)
Definition listProviders_step (namespace name : string)
    (acc : ResponseWriter * list apiModule) (kv : string * ModuleConfig)
  : ResponseWriter * list apiModule :=
  let '(wr, mods) := acc in
  let '(provider, cfg) := kv in
  match Load (GitDir cfg) with
  | None => (log_Printf wr (LogOpenFailed (GitDir cfg) (DeclRange cfg)), mods)
  | Some mdl =>
      match LatestVersion mdl with
      | Err err => (log_Printf wr (LogLatestFailed (DeclRange cfg) err), mods)
      | Ok None => (wr, mods)
      | Ok (Some latest) => (wr, mods ++ [summary namespace name provider latest])
      end
  end.

(** Route [/{namespace}/{name}].  Go ranges over the map in an order of its
    own choosing; [map_to_list] fixes one. *)
Definition handleListProviders (wr : ResponseWriter) (namespace name : string)
  : ResponseWriter :=
  match modules !! namespace with
  | None => WriteHeader wr 404
  | Some byNamespace =>
  match byNamespace !! name with
  | None => WriteHeader wr 404
  | Some byName =>
      let '(wr, mods) :=
        fold_left (listProviders_step namespace name) (map_to_list byName) (wr, []) in
      writeJSON wr (json_of_apiModuleListResponse mods)
  end end.

(** Route [/{namespace}/{name}/{provider}]. *)
Definition handleLatest (wr : ResponseWriter) (namespace name provider : string)
  : ResponseWriter :=
  match modules !! namespace with
  | None => WriteHeader wr 404
  | Some byNamespace =>
  match byNamespace !! name with
  | None => WriteHeader wr 404
  | Some byName =>
  match byName !! provider with
  | None => WriteHeader wr 404
  | Some cfg =>
  match Load (GitDir cfg) with
  | None => WriteHeader (log_Printf wr (LogOpenFailed (GitDir cfg) (DeclRange cfg))) 500
  | Some mdl =>
  match LatestVersion mdl with
  | Err err => WriteHeader (log_Printf wr (LogLatestFailed (DeclRange cfg) err)) 500
  | Ok None => WriteHeader wr 404
  | Ok (Some latest) =>
      writeJSON wr (json_of_apiModule (summary namespace name provider latest))
  end end end end end.

(** Route [/{namespace}/{name}/{provider}/versions]. *)
Definition handleVersions (wr : ResponseWriter) (namespace name provider : string)
  : ResponseWriter :=
  match modules !! namespace with
  | None => WriteHeader wr 404
  | Some byNamespace =>
  match byNamespace !! name with
  | None => WriteHeader wr 404
  | Some byName =>
  match byName !! provider with
  | None => WriteHeader wr 404
  | Some cfg =>
  match Load (GitDir cfg) with
  | None => WriteHeader (log_Printf wr (LogOpenFailed (GitDir cfg) (DeclRange cfg))) 500
  | Some mdl =>
  match AllVersions mdl with
  | Err err => WriteHeader (log_Printf wr (LogAllVersionsFailed (DeclRange cfg) err)) 500
  | Ok versions =>
      writeJSON wr
        (JObject [ ("modules", JArray [ JObject
           [ ("source", JString (hostname +:+ "/" +:+ namespace +:+ "/" +:+ name
                                   +:+ "/" +:+ provider));
             ("versions", JArray (map (fun v =>
                JObject [ ("version", JString (Version_String v)) ]) versions)) ] ]) ])
  end end end end end.

(** Route [/{namespace}/{name}/{provider}/{version}/download]. *)
Definition handleDownload (wr : ResponseWriter)
    (namespace name provider versionStr : string) : ResponseWriter :=
  match modules !! namespace with
  | None => WriteHeader wr 404
  | Some byNamespace =>
  match byNamespace !! name with
  | None => WriteHeader wr 404
  | Some byName =>
  match byName !! provider with
  | None => WriteHeader wr 404
  | Some cfg =>
  match NewVersion versionStr with
  | Err _ => WriteHeader wr 404
  | Ok v =>
  match Load (GitDir cfg) with
  | None => WriteHeader (log_Printf wr (LogOpenFailed (GitDir cfg) (DeclRange cfg))) 500
  | Some mdl =>
  match HasVersion mdl v with
  | Err err =>
      WriteHeader (log_Printf wr (LogCheckFailed (Version_String v) (DeclRange cfg) err)) 500
  | Ok exists_ =>
  if negb exists_ then WriteHeader wr 404 else
  match GetVersionTreeId mdl v with
  | Err err =>
      WriteHeader (log_Printf wr (LogTreeIdFailed (Version_String v) (DeclRange cfg) err)) 404
  | Ok treeId =>
      let wr := Header_Set wr "Content-Type" "text/plain" in
      Header_Set wr "X-Terraform-Get" ("./download/" +:+ treeId +:+ ".tgz")
  end end end end end end end.

(** Route [/{namespace}/{name}/{provider}/{version}/download/{treeId}]. *)
Definition handleDownloadArchive (wr : ResponseWriter) (room : option nat)
    (namespace name provider versionStr givenTreeId : string) : ResponseWriter :=
  match modules !! namespace with
  | None => WriteHeader wr 404
  | Some byNamespace =>
  match byNamespace !! name with
  | None => WriteHeader wr 404
  | Some byName =>
  match byName !! provider with
  | None => WriteHeader wr 404
  | Some cfg =>
  match NewVersion versionStr with
  | Err _ => WriteHeader wr 404
  | Ok v =>
  match Load (GitDir cfg) with
  | None => WriteHeader (log_Printf wr (LogOpenFailed (GitDir cfg) (DeclRange cfg))) 500
  | Some mdl =>
  match HasVersion mdl v with
  | Err err =>
      WriteHeader (log_Printf wr (LogCheckFailed (Version_String v) (DeclRange cfg) err)) 500
  | Ok exists_ =>
  if negb exists_ then WriteHeader wr 404 else
  match GetVersionTreeId mdl v with
  | Err err =>
      WriteHeader (log_Printf wr (LogTreeIdFailed (Version_String v) (DeclRange cfg) err)) 404
  | Ok treeId =>
      let givenTreeId :=
        if HasSuffix givenTreeId ".tgz"
        then string_upto (String.length givenTreeId - 4) givenTreeId
             (* ignore the suffix; just there to placate go-getter *)
        else givenTreeId in
      if negb (String.eqb givenTreeId treeId) then
        WriteHeader (log_Printf wr (LogWrongTreeId (Version_String v) (DeclRange cfg))) 404
      else
        let wr := Header_Set wr "Content-Type" "application/x-gzip" in
        let wr := Header_Set wr "Content-Disposition"
          ("attachment; filename=" +:+ namespace +:+ "_" +:+ name +:+ "_" +:+ provider
             +:+ "_" +:+ Version_String v +:+ ".tgz") in
        let wr := WriteHeader wr 200 in
        let '(zw, _) := WriteVersionTar mdl v room in
        Write wr (ChunkGzipTar (out zw))
  end end end end end end end.

(** Route [/{namespace}/{name}/{provider}/{version}]. *)
Definition handleExactVersion (wr : ResponseWriter)
    (namespace name provider versionStr : string) : ResponseWriter :=
  match modules !! namespace with
  | None => WriteHeader wr 404
  | Some byNamespace =>
  match byNamespace !! name with
  | None => WriteHeader wr 404
  | Some byName =>
  match byName !! provider with
  | None => WriteHeader wr 404
  | Some cfg =>
  match NewVersion versionStr with
  | Err _ => WriteHeader wr 404
  | Ok v =>
  match Load (GitDir cfg) with
  | None => WriteHeader (log_Printf wr (LogOpenFailed (GitDir cfg) (DeclRange cfg))) 500
  | Some mdl =>
  match HasVersion mdl v with
  | Err err =>
      WriteHeader (log_Printf wr (LogCheckFailed (Version_String v) (DeclRange cfg) err)) 500
  | Ok exists_ =>
  if negb exists_ then WriteHeader wr 404 else
  writeJSON wr (json_of_apiModule (summary namespace name provider v))
  end end end end end end.

(** [makeHandler]: the router, trying the routes in the order in which they
    are registered; a request that no route takes is the router's own to
    answer. *)
Definition makeHandler (req : Request) : ResponseWriter :=
  let wr := newResponseWriter in
  match path_segments (URL_Path req) with
  | Some [namespace; name] => handleListProviders wr namespace name
  | Some [namespace; name; provider] => handleLatest wr namespace name provider
  | Some [namespace; name; provider; version] =>
      if String.eqb version "versions" then handleVersions wr namespace name provider
      else handleExactVersion wr namespace name provider version
  | Some [namespace; name; provider; version; download] =>
      if String.eqb download "download"
      then handleDownload wr namespace name provider version
      else mux_unrouted req
  | Some [namespace; name; provider; version; download; treeId] =>
      if String.eqb download "download"
      then handleDownloadArchive wr (client_room req) namespace name provider version treeId
      else mux_unrouted req
  | _ => mux_unrouted req
  end.

Definition ServeHTTP (req : Request) : Response := finish (makeHandler req).

End Handler.

(** ** The one-argument handler of handler.go

    The tree also keeps an earlier [makeHandler], which takes the module map
    only ([realMain] calls the two-argument one above).  It has no [versions]
    route and no [download/{treeId}] route, and its [download] route streams
    the tar itself.  Its other three routes are the same code as above. *)
Module Legacy.
Section Handler.
Context `{VL : VersionLib} `{SL : SortLib} `{MX : MuxLib}.
Variable OpenRepository : string -> Result Repository.
Variable modules : Modules.

(** Route [/{namespace}/{name}/{provider}/{version}/download]. *)
Definition handleDownload (wr : ResponseWriter) (room : option nat)
    (namespace name provider versionStr : string) : ResponseWriter :=
  match modules !! namespace with
  | None => WriteHeader wr 404
  | Some byNamespace =>
  match byNamespace !! name with
  | None => WriteHeader wr 404
  | Some byName =>
  match byName !! provider with
  | None => WriteHeader wr 404
  | Some cfg =>
  match NewVersion versionStr with
  | Err _ => WriteHeader wr 404
  | Ok v =>
  match Load OpenRepository (GitDir cfg) with
  | None => WriteHeader (log_Printf wr (LogOpenFailed (GitDir cfg) (DeclRange cfg))) 500
  | Some mdl =>
  match HasVersion mdl v with
  | Err err =>
      WriteHeader (log_Printf wr (LogCheckFailed (Version_String v) (DeclRange cfg) err)) 500
  | Ok exists_ =>
  if negb exists_ then WriteHeader wr 404 else
    let wr := Header_Set wr "Content-Type" "application/x-tar" in
    let wr := WriteHeader wr 200 in
    let '(tw, _) := WriteVersionTar mdl v room in
    Write wr (ChunkTar (out tw))
  end end end end end end.

Definition makeHandler (req : Request) : ResponseWriter :=
  let wr := newResponseWriter in
  match path_segments (URL_Path req) with
  | Some [namespace; name] => handleListProviders OpenRepository modules wr namespace name
  | Some [namespace; name; provider] =>
      handleLatest OpenRepository modules wr namespace name provider
  | Some [namespace; name; provider; version] =>
      handleExactVersion OpenRepository modules wr namespace name provider version
  | Some [namespace; name; provider; version; download] =>
      if String.eqb download "download"
      then handleDownload wr (client_room req) namespace name provider version
      else mux_unrouted req
  | _ => mux_unrouted req
  end.

Definition ServeHTTP (req : Request) : Response := finish (makeHandler req).

End Handler.
End Legacy.

(** ** An implementation of the version interface *)

Module GoVersion.

(** Modelled from the spec: the version library (hashicorp/go-version) is
    an outside dependency of the repository.  This implementation follows
    the spec's data model: a version is written as numeric dot-separated
    components with an optional prerelease suffix (after a dash) and
    optional build metadata (after a plus); fewer than three components are
    padded with zeros; precedence compares the components numerically,
    missing ones counting as zero, then the prerelease identifiers by the
    Semantic Versioning rules; metadata takes no part in precedence. *)
Record t := { segments : list N; pre : string; metadata : string }.

Definition digit_val (c : ascii) : option N :=
  let n := N_of_ascii c in
  if ((48 <=? n) && (n <=? 57))%N then Some (n - 48)%N else None.

Definition is_ident_char (c : ascii) : bool :=
  let n := N_of_ascii c in
  (((48 <=? n) && (n <=? 57)) || ((65 <=? n) && (n <=? 90))
   || ((97 <=? n) && (n <=? 122)) || (n =? 45))%N.

Fixpoint parse_digits (s : string) (acc : N) : option N :=
  match s with
  | EmptyString => Some acc
  | String c s' =>
      match digit_val c with
      | Some d => parse_digits s' (acc * 10 + d)%N
      | None => None
      end
  end.

(** A non-empty run of decimal digits. *)
Definition parse_uint (s : string) : option N :=
  match s with
  | EmptyString => None
  | _ => parse_digits s 0%N
  end.

Definition MaxInt64 : N := 9223372036854775807%N.

Fixpoint all_chars (p : ascii -> bool) (s : string) : bool :=
  match s with
  | EmptyString => true
  | String c s' => p c && all_chars p s'
  end.

Definition valid_ident (s : string) : bool :=
  negb (String.eqb s "") && all_chars is_ident_char s.

Definition valid_dotted (s : string) : bool := forallb valid_ident (Split s "."%char).

(** Cut [s] at the first [sep]: what comes before, and what comes after if
    [sep] occurs. *)
Fixpoint cut_from (cur s : string) (sep : ascii) : string * option string :=
  match s with
  | EmptyString => (cur, None)
  | String c s' =>
      if Ascii.eqb c sep then (cur, Some s')
      else cut_from (cur +:+ String c "") s' sep
  end.

Definition cut (s : string) (sep : ascii) : string * option string := cut_from "" s sep.

Fixpoint parse_segments (parts : list string) : option (list N) :=
  match parts with
  | [] => Some []
  | p :: parts' =>
      match parse_uint p with
      | Some n =>
          if (n <=? MaxInt64)%N then
            match parse_segments parts' with
            | Some ns => Some (n :: ns)
            | None => None
            end
          else None
      | None => None
      end
  end.

Definition pad3 (segs : list N) : list N :=
  segs ++ repeat 0%N (3 - List.length segs).

Definition malformed (v : string) : error := other_error ("Malformed version: " +:+ v).

(** Modelled from the spec: [version.NewVersion] of the version library,
    which is not in the repository.  An optional leading [v], the numeric
    components, then the optional prerelease and metadata; anything else is
    malformed. *)
Definition NewVersion (v : string) : Result t :=
  let body := match v with
              | String c rest => if Ascii.eqb c "v"%char then rest else v
              | EmptyString => v
              end in
  let '(main, meta) := cut body "+"%char in
  let '(core, prerel) := cut main "-"%char in
  let meta_ok := match meta with Some m => valid_dotted m | None => true end in
  let pre_ok := match prerel with Some p => valid_dotted p | None => true end in
  if meta_ok && pre_ok then
    match parse_segments (Split core "."%char) with
    | Some segs =>
        Ok {| segments := pad3 segs;
              pre := default "" prerel;
              metadata := default "" meta |}
    | None => Err (malformed v)
    end
  else Err (malformed v).

Definition FormatInt (n : N) : string := NilZero.string_of_uint (N.to_uint n).

Fixpoint Join (parts : list string) (sep : string) : string :=
  match parts with
  | [] => ""
  | [p] => p
  | p :: parts' => p +:+ sep +:+ Join parts' sep
  end.

(** Modelled from the spec: the method [String] of the version library: the
    canonical rendering, with the padded components. *)
Definition String_ (v : t) : string :=
  Join (map FormatInt (segments v)) "."
  +:+ (if String.eqb (pre v) "" then "" else "-" +:+ pre v)
  +:+ (if String.eqb (metadata v) "" then "" else "+" +:+ metadata v).

Definition allZero (l : list N) : bool := forallb (N.eqb 0) l.

(** Components, a missing one counting as zero. *)
Fixpoint cmpSegs (a b : list N) {struct a} : comparison :=
  match a, b with
  | [], _ => if allZero b then Eq else Lt
  | _, [] => if allZero a then Eq else Gt
  | x :: a', y :: b' =>
      match (x ?= y)%N with
      | Eq => cmpSegs a' b'
      | c => c
      end
  end.

(** Components without their trailing zeros. *)
Fixpoint trimZeros (l : list N) : list N :=
  match l with
  | [] => []
  | x :: l' =>
      match trimZeros l' with
      | [] => if (x =? 0)%N then [] else [x]
      | t => x :: t
      end
  end.

(** A prerelease identifier: numeric, or alphanumeric. *)
Inductive ident :=
| INum (n : N)
| IAlpha (s : string).

Definition ident_of (s : string) : ident :=
  match parse_uint s with
  | Some n => INum n
  | None => IAlpha s
  end.

Definition cmpIdent (a b : ident) : comparison :=
  match a, b with
  | INum x, INum y => (x ?= y)%N
  | INum _, IAlpha _ => Lt
  | IAlpha _, INum _ => Gt
  | IAlpha x, IAlpha y => String_as_OT.compare x y
  end.

(** Lexicographic order; a proper prefix comes first. *)
Fixpoint lexList {A : Type} (cmp : A -> A -> comparison) (a b : list A) : comparison :=
  match a, b with
  | [], [] => Eq
  | [], _ :: _ => Lt
  | _ :: _, [] => Gt
  | x :: a', y :: b' =>
      match cmp x y with
      | Eq => lexList cmp a' b'
      | c => c
      end
  end.

Definition idents (p : string) : list ident := map ident_of (Split p "."%char).

(** A version without prerelease comes after one with. *)
Definition cmpPre (p q : string) : comparison :=
  match String.eqb p "", String.eqb q "" with
  | true, true => Eq
  | true, false => Gt
  | false, true => Lt
  | false, false => lexList cmpIdent (idents p) (idents q)
  end.

Definition cmp (v o : t) : comparison :=
  match cmpSegs (segments v) (segments o) with
  | Eq => cmpPre (pre v) (pre o)
  | c => c
  end.

(** Modelled from the spec: the method [Compare] of the version library,
    Semantic Versioning precedence as -1, 0 or 1. *)
Definition Compare (v o : t) : Z :=
  match cmp v o with
  | Lt => -1
  | Eq => 0
  | Gt => 1
  end.

Definition lib : VersionLib := Build_VersionLib t NewVersion Compare String_.

End GoVersion.

(** ** An implementation of the sort interface: insertion sort *)

Fixpoint insert_by {A : Type} (less : A -> A -> bool) (x : A) (l : list A) : list A :=
  match l with
  | [] => [x]
  | y :: l' => if less y x then y :: insert_by less x l' else x :: y :: l'
  end.

Fixpoint isort {A : Type} (less : A -> A -> bool) (l : list A) : list A :=
  match l with
  | [] => []
  | x :: l' => insert_by less x (isort less l')
  end.

Definition insertionSort : SortLib := Build_SortLib (@isort).

(** ** Notions used to state the properties *)

Section Notions.
Context `{VL : VersionLib}.

(** The names an iterator yields when it is run to its end: an error
    other than [ErrIterOver] makes the enumeration fail. *)
Fixpoint enumerate (it : list (Result string)) : Result (list string) :=
  match it with
  | [] => Ok []
  | Err err :: _ => if isIterOver err then Ok [] else Err err
  | Ok name :: it' =>
      match enumerate it' with
      | Ok names => Ok (name :: names)
      | Err err => Err err
      end
  end.

(** The names an iterator yields before its first failing [Next]. *)
Fixpoint reached (it : list (Result string)) : list string :=
  match it with
  | Ok name :: it' => name :: reached it'
  | _ => []
  end.

(** The version a reference name stands for, if it is a version tag. *)
Definition tagVersion (name : string) : option Version :=
  if HasPrefix name "refs/tags/v" then
    match NewVersion (string_from 11 name) with
    | Ok v => Some v
    | Err _ => None
    end
  else None.

(** Some enumerated version tag is equal in precedence to [v]. *)
Definition tagged (m : Module) (v : Version) : Prop :=
  exists it name g,
    NewReferenceNameIterator (repo m) = Ok it /\ In name (reached it) /\
    tagVersion name = Some g /\ Equal g v = true.

(** Latest first: no entry precedes a later one in precedence. *)
Definition Descending (vs : list Version) : Prop :=
  StronglySorted (fun a b => LessThan a b = false) vs.

(** Latest first, and no two entries equal in precedence. *)
Definition StrictlyDescending (vs : list Version) : Prop :=
  StronglySorted (fun a b => LessThan b a = true) vs.

End Notions.

Arguments tagVersion : simpl never.
Arguments string_from : simpl never.
Arguments HasPrefix : simpl never.
Arguments HasSuffix : simpl never.

(** [ModuleCoordinateMap.Lookup]: the three map reads every route starts with. *)
Definition Lookup (modules : Modules) (namespace name provider : string)
  : option ModuleConfig :=
  match modules !! namespace with
  | None => None
  | Some byNamespace =>
      match byNamespace !! name with
      | None => None
      | Some byName => byName !! provider
      end
  end.

(** The headers among the items of a tar stream. *)
Fixpoint headers (items : list TarItem) : list Header :=
  match items with
  | [] => []
  | TarHeader h :: items' => h :: headers items'
  | _ :: items' => headers items'
  end.

(** A tree with every embedded-repository link taken out, at every depth. *)
Fixpoint prune (t : Tree) : Tree :=
  match t with
  | mkTree es =>
      mkTree ((fix go (es : list TreeEntry) : list TreeEntry :=
                 match es with
                 | [] => []
                 | entry :: rest =>
                     match entry with
                     | mkTreeEntry name id ty filemode sub blb =>
                         match ty with
                         | ObjectCommit => go rest
                         | _ =>
                             mkTreeEntry name id ty filemode
                               (match sub with
                                | Ok t' => Ok (prune t')
                                | Err err => Err err
                                end) blb :: go rest
                         end
                     end
                 end) es)
  end.

(** [givenTreeId] with one trailing [.tgz] taken off, as the archive route does. *)
Definition trimTgz (givenTreeId : string) : string :=
  if HasSuffix givenTreeId ".tgz"
  then string_upto (String.length givenTreeId - 4) givenTreeId
  else givenTreeId.

(** ** A small registry: module acme/widget/aws *)

Module Samples.

Definition notFound : error :=
  git_error {| Code := -3; Message := "object not found" |}.

Definition blobOf (s : string) : Blob := {| Contents := list_byte_of_string s |}.

Definition file (name : string) (mode : Z) (content : string) : TreeEntry :=
  mkTreeEntry name ("blob:" +:+ name) ObjectBlob mode
              (Err notFound) (Ok (blobOf content)).

Definition dir (name : string) (es : list TreeEntry) : TreeEntry :=
  mkTreeEntry name ("tree:" +:+ name) ObjectTree 16384
              (Ok (mkTree es)) (Err notFound).

(** A submodule link; the linked repository has files of its own. *)
Definition link (name : string) (es : list TreeEntry) : TreeEntry :=
  mkTreeEntry name ("commit:" +:+ name) ObjectCommit 57344
              (Ok (mkTree es)) (Err notFound).

(** A directory whose tree object cannot be read. *)
Definition lostDir (name : string) : TreeEntry :=
  mkTreeEntry name ("tree:" +:+ name) ObjectTree 16384
              (Err notFound) (Err notFound).

Definition tree100 : Tree :=
  mkTree [ dir "modules" [ file "net.tf" 33188 "resource" ];
           link "vendor" [ file "lib.tf" 33188 "vendored" ];
           file "main.tf" 33188 "module";
           file "run.sh" 33261 "#!/bin/sh" ].

Definition tree120 : Tree :=
  mkTree [ file "main.tf" 33188 "module v1.2" ].

Definition commitOf (treeId : Oid) (when : Time) (t : Tree) : Commit :=
  {| TreeId := treeId;
     Committer := {| sig_Name := "dev"; sig_Email := "dev@example.com"; When := when |};
     commit_Tree := Ok t |}.

Definition commit100 : Commit := commitOf "1f0e" 1509494400 tree100.
Definition commit120 : Commit := commitOf "9c4b" 1510099200 tree120.

Definition refTo (c : Commit) : Reference :=
  {| Peel := fun _ => Ok {| AsCommit := Ok c |} |}.

Fixpoint lookupIn (refs : list (string * Commit)) (name : string) : Result Reference :=
  match refs with
  | [] => Err notFound
  | (n, c) :: refs' => if String.eqb n name then Ok (refTo c) else lookupIn refs' name
  end.

Definition repoOf (names : list (Result string)) (refs : list (string * Commit))
  : Repository :=
  {| NewReferenceNameIterator := Ok names; References_Lookup := lookupIn refs |}.

(** Tags [v1.0.0] and [v1.2.0], as in the spec's scenario. *)
Definition widget : Repository :=
  repoOf [ Ok "refs/heads/master"; Ok "refs/tags/v1.0.0"; Ok "refs/tags/v1.2.0";
           Ok "refs/tags/vnext" ]
         [ ("refs/tags/v1.0.0", commit100); ("refs/tags/v1.2.0", commit120) ].

(** Two tags for one version, written differently. *)
Definition twice : Repository :=
  repoOf [ Ok "refs/heads/master"; Ok "refs/tags/v1.0"; Ok "refs/tags/v1.0.0" ]
         [ ("refs/tags/v1.0", commit100); ("refs/tags/v1.0.0", commit100) ].

(** Only the short spelling [v1.0] is tagged. *)
Definition short : Repository :=
  repoOf [ Ok "refs/tags/v1.0" ] [ ("refs/tags/v1.0", commit100) ].

(** No tags at all. *)
Definition bare : Repository := repoOf [ Ok "refs/heads/master" ] [].

(** The enumeration starts, and its second step fails. *)
Definition flaky : Repository :=
  repoOf [ Ok "refs/heads/master";
           Err (git_error {| Code := -1; Message := "failed to read packed-refs" |}) ]
         [].

(** A tag whose tree has a directory that cannot be read. *)
Definition treeLost : Tree :=
  mkTree [ lostDir "modules"; file "main.tf" 33188 "module" ].

Definition damaged : Repository :=
  repoOf [ Ok "refs/tags/v1.0.0" ]
         [ ("refs/tags/v1.0.0", commitOf "77aa" 1509494400 treeLost) ].

Definition fs (gitDir : string) : Result Repository :=
  if String.eqb gitDir "/srv/git/widget" then Ok widget
  else if String.eqb gitDir "/srv/git/short" then Ok short
  else Err notFound.

Definition cfgWidget : ModuleConfig :=
  {| GitDir := "/srv/git/widget"; DeclRange := "registry.conf:3,1-28" |}.

Definition cfgShort : ModuleConfig :=
  {| GitDir := "/srv/git/short"; DeclRange := "registry.conf:7,1-27" |}.

Definition modules : Modules :=
  {[ "acme" := {[ "widget" := {[ "aws" := cfgWidget ]};
                  "short" := {[ "aws" := cfgShort ]} ]} ]}.

(** A stand-in for the router's own answers. *)
Definition mux : MuxLib :=
  {| mux_unrouted := fun _ =>
       WriteHeader (Header_Set newResponseWriter "Content-Type" "text/plain; charset=utf-8")
                   404 |}.

Definition v (s : string) : @Version GoVersion.lib :=
  match GoVersion.NewVersion s with
  | Ok x => x
  | Err _ => {| GoVersion.segments := []; GoVersion.pre := ""; GoVersion.metadata := "" |}
  end.

(** Requests: the download location and the archive of version 1.0.0 of
    acme/widget/aws, and version 1.0 of acme/short/aws. *)
Definition getLocation : Request :=
  {| URL_Path := "/acme/widget/aws/1.0.0/download"; client_room := None |}.

Definition getArchive (treeId : string) : Request :=
  {| URL_Path := "/acme/widget/aws/1.0.0/download/" +:+ treeId; client_room := None |}.

Definition getExact : Request :=
  {| URL_Path := "/acme/short/aws/1.0"; client_room := None |}.

End Samples.

(** Whether a tree holds an embedded-repository link at some depth. *)
Fixpoint hasLink (t : Tree) : bool :=
  match t with
  | mkTree es =>
      (fix go (es : list TreeEntry) : bool :=
         match es with
         | [] => false
         | entry :: rest =>
             match entry with
             | mkTreeEntry _ _ ty _ sub _ =>
                 match ty with
                 | ObjectCommit => true
                 | _ => match sub with
                        | Ok t' => hasLink t' || go rest
                        | Err _ => go rest
                        end
                 end
             end
         end) es
  end.

(** Every header carries [t] as its three times. *)
Definition stamped (t : Time) (items : list TarItem) : Prop :=
  Forall (fun h => hdr_ModTime h = t /\ hdr_AccessTime h = t /\ hdr_ChangeTime h = t)
         (headers items).

(** The response carries a gzip-compressed archive. *)
Definition streamsArchive (resp : Response) : Prop :=
  exists items, In (ChunkGzipTar items) (RespBody resp).

(** Only JSON documents have been written to [wr]. *)
Definition jsonOnly (wr : ResponseWriter) : Prop :=
  Forall (fun c => exists doc, c = ChunkJSON doc) (body wr).

(** The bare 404 answer: no header, no body. *)
Definition NotFound : Response := {| Status := 404; RespHeader := ∅; RespBody := [] |}.

Section HandlerNotions.
Context `{VL : VersionLib}.
Variable OpenRepository : string -> Result Repository.
Variable modules : Modules.

(** A request for version [versionStr] of a configured module meets a store
    failure: the repository cannot be opened, or the tag enumeration fails
    before a matching tag is seen. *)
Definition storeFailure (namespace name provider versionStr : string) : Prop :=
  exists cfg v,
    Lookup modules namespace name provider = Some cfg /\
    NewVersion versionStr = Ok v /\
    (Load OpenRepository (GitDir cfg) = None \/
     exists m err, Load OpenRepository (GitDir cfg) = Some m /\ HasVersion m v = Err err).

(** The coordinate is configured, the version string parses, the repository
    opens and holds a tag equal in precedence to the parsed version. *)
Definition versionExists (namespace name provider versionStr : string) : Prop :=
  exists cfg v m,
    Lookup modules namespace name provider = Some cfg /\
    NewVersion versionStr = Ok v /\
    Load OpenRepository (GitDir cfg) = Some m /\
    tagged m v.

End HandlerNotions.

(** ** Reading an archive back *)

(** What unpacking an archive yields: directories and files, each with its
    path and mode, files with their content. *)
Inductive ArchiveEntry :=
| ADir (path : string) (mode : Z)
| AFile (path : string) (mode : Z) (content : list Byte.byte).

(** Unpack a tar stream: a directory header stands alone; a file header is
    followed by its content, as many bytes as the header announces.  [None]
    for anything else. *)
Fixpoint unpack (items : list TarItem) : option (list ArchiveEntry) :=
  match items with
  | [] => Some []
  | TarHeader h :: rest =>
      if Ascii.eqb (hdr_Typeflag h) TypeDir then
        option_map (cons (ADir (hdr_Name h) (hdr_Mode h))) (unpack rest)
      else
        match rest with
        | TarData b :: rest' =>
            if Ascii.eqb (hdr_Typeflag h) TypeReg
               && (hdr_Size h =? Z.of_nat (List.length b))
            then option_map (cons (AFile (hdr_Name h) (hdr_Mode h) b)) (unpack rest')
            else None
        | _ => None
        end
  | _ => None
  end.

(** The directories and files of a tree in the order of its entries, each
    directory before what it holds, with the paths below [prefix].  Links
    are left out; a directory or a file whose object cannot be read has no
    content to list. *)
Fixpoint snapshot (t : Tree) (prefix : string) : list ArchiveEntry :=
  match t with
  | mkTree es =>
      (fix go (es : list TreeEntry) : list ArchiveEntry :=
         match es with
         | [] => []
         | entry :: rest =>
             match entry with
             | mkTreeEntry name _ ty filemode sub blb =>
                 match ty with
                 | ObjectTree =>
                     ADir (prefix +:+ name +:+ "/") 493
                     :: match sub with
                        | Ok t' => snapshot t' (prefix +:+ name +:+ "/")
                        | Err _ => []
                        end ++ go rest
                 | ObjectBlob =>
                     match blb with
                     | Ok blob => AFile (prefix +:+ name) filemode (Contents blob) :: go rest
                     | Err _ => go rest
                     end
                 | _ => go rest
                 end
             end
         end) es
  end.

(** The lookup error of the first file of a tree, in the order of the walk,
    whose blob cannot be read. *)
Fixpoint firstLostBlob (t : Tree) : option error :=
  match t with
  | mkTree es =>
      (fix go (es : list TreeEntry) : option error :=
         match es with
         | [] => None
         | entry :: rest =>
             match entry with
             | mkTreeEntry _ _ ty _ sub blb =>
                 match ty with
                 | ObjectTree =>
                     match sub with
                     | Ok t' =>
                         match firstLostBlob t' with
                         | Some err => Some err
                         | None => go rest
                         end
                     | Err _ => go rest
                     end
                 | ObjectBlob =>
                     match blb with
                     | Ok _ => go rest
                     | Err err => Some err
                     end
                 | _ => go rest
                 end
             end
         end) es
  end.

(** The directories and files of a tree in the order of its entries up to,
    and not including, the first file whose blob cannot be read: nothing
    follows that file, neither in its own directory nor in the directories
    around it. *)
Fixpoint written (t : Tree) (prefix : string) : list ArchiveEntry :=
  match t with
  | mkTree es =>
      (fix go (es : list TreeEntry) : list ArchiveEntry :=
         match es with
         | [] => []
         | entry :: rest =>
             match entry with
             | mkTreeEntry name _ ty filemode sub blb =>
                 match ty with
                 | ObjectTree =>
                     ADir (prefix +:+ name +:+ "/") 493
                     :: match sub with
                        | Ok t' =>
                            written t' (prefix +:+ name +:+ "/")
                            ++ match firstLostBlob t' with
                               | Some _ => []
                               | None => go rest
                               end
                        | Err _ => go rest
                        end
                 | ObjectBlob =>
                     match blb with
                     | Ok blob => AFile (prefix +:+ name) filemode (Contents blob) :: go rest
                     | Err _ => []
                     end
                 | _ => go rest
                 end
             end
         end) es
  end.

(** A header as [writeGitTreeTar] writes them below [prefix]: the path
    starts with [prefix]; a directory has mode 0755, no size and a path
    that ends in a slash; anything else is a regular file. *)
Definition headerBelow (prefix : string) (h : Header) : Prop :=
  HasPrefix (hdr_Name h) prefix = true /\
  ((hdr_Typeflag h = TypeDir /\ hdr_Mode h = 493 /\ hdr_Size h = 0 /\
    HasSuffix (hdr_Name h) "/" = true) \/
   hdr_Typeflag h = TypeReg).

(** ** Notions for the other routes *)

(** The bare 500 answer: no header, no body. *)
Definition ServerError : Response := {| Status := 500; RespHeader := ∅; RespBody := [] |}.

(** Nothing has been sent, set or written on [wr] yet (it may have logged). *)
Definition untouched (wr : ResponseWriter) : Prop :=
  header wr = ∅ /\ sent wr = None /\ body wr = [].

(** One of the six routes takes the request. *)
Definition routed (req : Request) : Prop :=
  match path_segments (URL_Path req) with
  | Some [_; _] => True
  | Some [_; _; _] => True
  | Some [_; _; _; _] => True
  | Some [_; _; _; _; download] => download = "download"
  | Some [_; _; _; _; download; _] => download = "download"
  | _ => False
  end.

(** The coordinate a path names is not in the module map: the provider for
    a path of three segments or more, the module name for one of two. *)
Definition unconfigured (modules : Modules) (segs : list string) : Prop :=
  match segs with
  | namespace :: name :: provider :: _ => Lookup modules namespace name provider = None
  | [namespace; name] =>
      match modules !! namespace with
      | Some byNamespace => byNamespace !! name = None
      | None => True
      end
  | _ => True
  end.

(** The document of the [versions] route. *)
Definition versionsDoc `{VL : VersionLib}
    (hostname namespace name provider : string) (versions : list Version) : json :=
  JObject [ ("modules", JArray [ JObject
    [ ("source", JString (hostname +:+ "/" +:+ namespace +:+ "/" +:+ name
                            +:+ "/" +:+ provider));
      ("versions", JArray (map (fun v =>
         JObject [ ("version", JString (Version_String v)) ]) versions)) ] ]) ].

(** The summary a provider contributes to the list of a module's providers:
    none unless its repository opens and has a latest version. *)
Definition providerSummary `{VL : VersionLib} `{SL : SortLib}
    (OpenRepository : string -> Result Repository) (namespace name : string)
    (kv : string * ModuleConfig) : option apiModule :=
  match Load OpenRepository (GitDir (snd kv)) with
  | None => None
  | Some mdl =>
      match LatestVersion mdl with
      | Ok (Some latest) => Some (summary namespace name (fst kv) latest)
      | _ => None
      end
  end.

(** What the loop over the providers logs for a provider: nothing unless
    its repository cannot be opened or its latest version cannot be read. *)
Definition providerLog `{VL : VersionLib} `{SL : SortLib}
    (OpenRepository : string -> Result Repository)
    (kv : string * ModuleConfig) : option LogEntry :=
  match Load OpenRepository (GitDir (snd kv)) with
  | None => Some (LogOpenFailed (GitDir (snd kv)) (DeclRange (snd kv)))
  | Some mdl =>
      match LatestVersion mdl with
      | Err err => Some (LogLatestFailed (DeclRange (snd kv)) err)
      | Ok _ => None
      end
  end.

(** No slash occurs in [s]. *)
Fixpoint noSlash (s : string) : bool :=
  match s with
  | EmptyString => true
  | String c s' => negb (Ascii.eqb c "/"%char) && noSlash s'
  end.

(** ** Package config *)

(** [hcl.Diagnostic], as far as the program sets and reads it.  The details
    the program writes itself are kept apart rather than formatted; a
    diagnostic of the HCL library carries its text. *)
Inductive DiagnosticSeverity := DiagError | DiagWarning.

Inductive DiagDetail :=
| DetailText (text : string)
  (** "A module block for %q %q %q was already declared at %s." *)
| DetailAlreadyDeclared (namespace name provider : string) (existingRange : string)
  (** Cannot set both address and socket_number for the same listener. *)
| DetailBothSet
  (** A listener must have either address or socket_number set. *)
| DetailNeitherSet.

Record Diagnostic := {
  Severity : DiagnosticSeverity;
  Summary : string;
  Detail : DiagDetail;
  Subject : option string
}.

(** [hcl.Diagnostics.HasErrors]: some diagnostic has severity [DiagError]. *)
Definition HasErrors (diags : list Diagnostic) : bool :=
  existsb (fun d => match Severity d with DiagError => true | DiagWarning => false end) diags.

(** *** Listeners *)

(** The local types of [loadListenersConfig]; a pointer field that may be
    [nil] is an [option]. *)
Record tls := { tls_CertFile : string; tls_KeyFile : string }.

Record listener := {
  Address : option string;
  SocketNumber : option Z;
  TLS : option tls
}.

Inductive socketConfig :=
| tcpAddress (a : string)
| unixSocketPath (a : string)
| socketActivationIndex (i : Z).

Record listenerTLS := { CertFile : string; KeyFile : string }.

Record listenerConfig := { Socket : socketConfig; lc_TLS : option listenerTLS }.

Inductive Listener :=
| httpListener (conf : listenerConfig)
| fastCGIListener (conf : listenerConfig).

(** [config.Listeners], a Go map used as a set: here the keys in the order
    in which [loadListenersConfig] sets them.  (The map holds equal keys
    once; two keys with a TLS block are never equal, each holding a pointer
    of its own.) *)
Definition Listeners := list Listener.

(** The closure [listenerConf]; it appends to the [diags] of the enclosing
    function, which is threaded through here. *)
Definition listenerConf (lc : listener) (diags : list Diagnostic)
  : listenerConfig * list Diagnostic :=
  let diags :=
    match Address lc, SocketNumber lc with
    | Some _, Some _ =>
        diags ++ [ {| Severity := DiagError;
                      Summary := "Invalid listener configuration";
                      Detail := DetailBothSet;
                      Subject := None |} ]
    | _, _ => diags
    end in
  let '(socket, diags) :=
    match Address lc with
    | Some address =>
        if HasPrefix address "/" then (unixSocketPath address, diags)
        else (tcpAddress address, diags)
    | None =>
        match SocketNumber lc with
        | Some n => (socketActivationIndex n, diags)
        | None =>
            (tcpAddress "" (* placeholder value *),
             diags ++ [ {| Severity := DiagError;
                           Summary := "Invalid listener configuration";
                           Detail := DetailNeitherSet;
                           Subject := None |} ])
        end
    end in
  let tls :=
    match TLS lc with
    | Some t => Some {| CertFile := tls_CertFile t; KeyFile := tls_KeyFile t |}
    | None => None
    end in
  ({| Socket := socket; lc_TLS := tls |}, diags).

(** One of the two loops of [loadListenersConfig], [mk] being [httpListener]
    or [fastCGIListener]. *)
Fixpoint listeners_loop (mk : listenerConfig -> Listener) (lcs : list listener)
    (ret : Listeners) (diags : list Diagnostic) : Listeners * list Diagnostic :=
  match lcs with
  | [] => (ret, diags)
  | lc :: rest =>
      let '(conf, diags) := listenerConf lc diags in
      listeners_loop mk rest (ret ++ [mk conf]) diags
  end.

(** What a body holds, seen through the HCL library: a module block with
    its labels (the schema asks for three), the ranges the program reads and
    what [gohcl.DecodeBody] makes of its body ([git_dir] and diagnostics). *)
Record Block := {
  Labels : string * string * string;
  TypeRange : string;
  LabelRanges : string * string * string;
  Body_GitDir : string;
  Body_diags : list Diagnostic
}.

(** The body that remains after the listeners: the outcome of
    [body.Content(schema)] for the module schema. *)
Record RemainBody := {
  Content_Blocks : list Block;
  Content_diags : list Diagnostic
}.

(** [listenersConfig], the outcome of [gohcl.DecodeBody] on the body. *)
Record listenersConfig := {
  HTTP : list listener;
  FastCGI : list listener;
  Remain : RemainBody
}.

(** [hcl.Body], as far as [LoadModulesConfig] looks at it. *)
Record Body := {
  DecodeBody_raw : listenersConfig;
  DecodeBody_diags : list Diagnostic
}.

Definition loadListenersConfig (body : Body)
  : Listeners * RemainBody * list Diagnostic :=
  let raw := DecodeBody_raw body in
  let diags := DecodeBody_diags body in
  let ret : Listeners := [] in
  let '(ret, diags) := listeners_loop httpListener (HTTP raw) ret diags in
  let '(ret, diags) := listeners_loop fastCGIListener (FastCGI raw) ret diags in
  (ret, Remain raw, diags).

(** *** Listening on a socket the supervisor passed *)

(** A Go call that may panic. *)
Inductive Outcome (A : Type) :=
| Returned (r : Result A)
| Panicked.
Arguments Returned {A} r.
Arguments Panicked {A}.

Definition ErrInsufficientSockets (need got : Z) : error :=
  other_error "insufficent sockets passed by supervisor".

Definition ErrNotStreamBased (idx : Z) : error :=
  other_error "supervisor-passed socket is not stream-based".

Section SocketActivation.
(** [net.Listener]. *)
Variable NetListener : Type.

(** [socketActivationIndex.Listen]; [supervisor] is what
    [activation.Listeners(false)] returns, a [nil] entry being [None].
    Indexing a slice below zero panics. *)
Definition socketActivationIndex_Listen (i : Z)
    (supervisor : Result (list (option NetListener))) : Outcome NetListener :=
  match supervisor with
  | Err err => Returned (Err err)
  | Ok listeners =>
      let idx := i in
      if idx >=? Z.of_nat (List.length listeners) then
        Returned (Err (ErrInsufficientSockets (idx + 1) (Z.of_nat (List.length listeners))))
      else if idx <? 0 then Panicked
      else
        match nth_error listeners (Z.to_nat idx) with
        | None => Panicked
        | Some None => Returned (Err (ErrNotStreamBased idx))
        | Some (Some ret) => Returned (Ok ret)
        end
  end.

End SocketActivation.

(** *** Modules *)

Record ModulesConfig := { cfg_Listeners : Listeners; cfg_Modules : Modules }.

Section LoadModules.

(** [hcl.RangeBetween]. *)
Variable RangeBetween : string -> string -> string.

(** The body of the loop [for _, block := range content.Blocks]. *)
Definition loadModules_step (acc : Modules * list Diagnostic) (block : Block)
  : Modules * list Diagnostic :=
  let '(modules, diags) := acc in
  let '(namespace, name, provider) := Labels block in
  let declRange := RangeBetween (TypeRange block) (LabelRanges block).2 in
  let modules :=
    match modules !! namespace with
    | None => <[namespace := ∅]> modules
    | Some _ => modules
    end in
  let byNamespace := default ∅ (modules !! namespace) in
  let modules :=
    match byNamespace !! name with
    | None => <[namespace := <[name := ∅]> byNamespace]> modules
    | Some _ => modules
    end in
  let byNamespace := default ∅ (modules !! namespace) in
  let byName := default ∅ (byNamespace !! name) in
  match byName !! provider with
  | Some existing =>
      (modules,
       diags ++ [ {| Severity := DiagError;
                     Summary := "Duplicate module declaration";
                     Detail := DetailAlreadyDeclared namespace name provider
                                 (DeclRange existing);
                     Subject := Some declRange |} ])
  | None =>
      let raw := Body_GitDir block in
      let bodyDiags := Body_diags block in
      let diags := diags ++ bodyDiags in
      if HasErrors bodyDiags then (modules, diags)
      else
        (<[namespace := <[name := <[provider := {| GitDir := raw; DeclRange := declRange |}]>
                                    byName]> byNamespace]> modules,
         diags)
  end.

Definition LoadModulesConfig (body : Body) : ModulesConfig * list Diagnostic :=
  let diags : list Diagnostic := [] in
  let '(listeners, remain, listenersDiags) := loadListenersConfig body in
  let body := remain in
  let diags := diags ++ listenersDiags in
  let content := Content_Blocks body in
  let modulesDiags := Content_diags body in
  let diags := diags ++ modulesDiags in
  let '(modules, diags) := fold_left loadModules_step content (∅, diags) in
  ({| cfg_Listeners := listeners; cfg_Modules := modules |}, diags).

(** The module a block declares when its body decodes. *)
Definition declares (block : Block) : ModuleConfig :=
  {| GitDir := Body_GitDir block;
     DeclRange := RangeBetween (TypeRange block) (LabelRanges block).2 |}.

(** The first block for a coordinate whose body decodes without error. *)
Fixpoint firstDeclared (blocks : list Block) (namespace name provider : string)
  : option ModuleConfig :=
  match blocks with
  | [] => None
  | block :: rest =>
      if decide (Labels block = (namespace, name, provider)) then
        if HasErrors (Body_diags block) then firstDeclared rest namespace name provider
        else Some (declares block)
      else firstDeclared rest namespace name provider
  end.

End LoadModules.

(** A listener block sets exactly one of [address] and [socket_number]. *)
Definition oneSocket (lc : listener) : bool :=
  match Address lc, SocketNumber lc with
  | Some _, None | None, Some _ => true
  | _, _ => false
  end.

(** ** A writer that starts failing *)

(** Two runs of the same writes, [rU] on a writer that never fails, started
    with [oU] written, and [rL] on a writer that accepts [k] more items,
    started with [oL] written: the first run appends [items], the second
    the first [k] of them, and the two return the same error if the room
    was enough. *)
Definition tracks (k : nat) (oL oU : list TarItem)
    (rU rL : TarWriter * option error) (items : list TarItem) : Prop :=
  fst rU = {| out := oU ++ items; room := None |} /\
  out (fst rL) = oL ++ firstn k items /\
  room (fst rL) = Some (k - List.length items)%nat /\
  ((List.length items <= k)%nat -> snd rL = snd rU).

(** ** A small configuration *)

Module ConfigSamples.

(** A stand-in for [hcl.RangeBetween]. *)
Definition rangeBetween (a b : string) : string := a +:+ " to " +:+ b.

Definition widgetBlock : Block :=
  {| Labels := ("acme", "widget", "aws");
     TypeRange := "registry.conf:3,1-7";
     LabelRanges := ("registry.conf:3,8-14", "registry.conf:3,15-23", "registry.conf:3,24-29");
     Body_GitDir := "/srv/git/widget";
     Body_diags := [] |}.

Definition shortBlock : Block :=
  {| Labels := ("acme", "short", "aws");
     TypeRange := "registry.conf:7,1-7";
     LabelRanges := ("registry.conf:7,8-14", "registry.conf:7,15-22", "registry.conf:7,23-28");
     Body_GitDir := "/srv/git/short";
     Body_diags := [] |}.

(** One HTTP listener on a TCP address, two module blocks. *)
Definition registryConf : Body :=
  {| DecodeBody_raw :=
       {| HTTP := [ {| Address := Some "127.0.0.1:8080"; SocketNumber := None;
                       TLS := None |} ];
          FastCGI := [];
          Remain := {| Content_Blocks := [widgetBlock; shortBlock];
                       Content_diags := [] |} |};
     DecodeBody_diags := [] |}.

(** A listener on the socket the supervisor passes at index -1. *)
Definition minusOne : listener :=
  {| Address := None; SocketNumber := Some (-1); TLS := None |}.

End ConfigSamples.

(** * Properties *)

(** ** The sample implementations honour the contracts *)

(** What a three-way comparison has to satisfy to be a total preorder. *)
Record CmpLaws {A : Type} (cmp : A -> A -> comparison) : Prop := {
  cmp_opp : forall a b, cmp b a = CompOpp (cmp a b);
  cmp_eq_l : forall a b c, cmp a b = Eq -> cmp a c = cmp b c;
  cmp_lt_trans : forall a b c, cmp a b = Lt -> cmp b c = Lt -> cmp a c = Lt
}.

Section CmpFacts.
Context {A : Type} (cmp : A -> A -> comparison) (L : CmpLaws cmp).

Lemma cmp_refl a : cmp a a = Eq.
Proof.
  pose proof (cmp_opp cmp L a a) as H. destruct (cmp a a); simpl in H; congruence.
Qed.

Lemma cmp_eq_sym a b : cmp a b = Eq -> cmp b a = Eq.
Proof. intros H. rewrite (cmp_opp cmp L a b), H. reflexivity. Qed.

Lemma cmp_eq_r a b c : cmp b c = Eq -> cmp a b = cmp a c.
Proof.
  intros H. rewrite (cmp_opp cmp L b a), (cmp_opp cmp L c a). f_equal.
  apply cmp_eq_l; [exact L | exact H].
Qed.

Lemma cmp_gt_lt a b : cmp a b = Gt -> cmp b a = Lt.
Proof. intros H. rewrite (cmp_opp cmp L a b), H. reflexivity. Qed.

Lemma cmp_le_trans a b c : cmp a b <> Gt -> cmp b c <> Gt -> cmp a c <> Gt.
Proof.
  intros Hab Hbc. destruct (cmp a b) eqn:Eab; [| | congruence].
  - rewrite (cmp_eq_l cmp L a b c Eab). exact Hbc.
  - destruct (cmp b c) eqn:Ebc; [| | congruence].
    + rewrite <- (cmp_eq_r a b c Ebc), Eab. discriminate.
    + rewrite (cmp_lt_trans cmp L a b c Eab Ebc). discriminate.
Qed.
End CmpFacts.

(** A comparison read through a function keeps the laws. *)
Lemma CmpLaws_pull {A B : Type} (f : A -> B) (cmp : B -> B -> comparison) :
  CmpLaws cmp -> CmpLaws (fun a b => cmp (f a) (f b)).
Proof.
  intros L. split; intros.
  - apply (cmp_opp cmp L).
  - apply (cmp_eq_l cmp L); assumption.
  - eapply (cmp_lt_trans cmp L); eassumption.
Qed.

(** One comparison, then another to break ties. *)
Lemma CmpLaws_then {A : Type} (c1 c2 : A -> A -> comparison) :
  CmpLaws c1 -> CmpLaws c2 ->
  CmpLaws (fun a b => match c1 a b with Eq => c2 a b | c => c end).
Proof.
  intros L1 L2. split.
  - intros a b. rewrite (cmp_opp c1 L1 a b), (cmp_opp c2 L2 a b).
    destruct (c1 a b); reflexivity.
  - intros a b c. destruct (c1 a b) eqn:E1; try discriminate. intros E2.
    rewrite (cmp_eq_l c1 L1 a b c E1), (cmp_eq_l c2 L2 a b c E2). reflexivity.
  - intros a b c. destruct (c1 a b) eqn:Eab; try discriminate.
    + rewrite (cmp_eq_l c1 L1 a b c Eab). intros Hab.
      destruct (c1 b c) eqn:Ebc; try discriminate; [| reflexivity].
      apply (cmp_lt_trans c2 L2); assumption.
    + intros _. destruct (c1 b c) eqn:Ebc; try discriminate.
      * rewrite <- (cmp_eq_r c1 L1 a b c Ebc), Eab. reflexivity.
      * rewrite (cmp_lt_trans c1 L1 a b c Eab Ebc). reflexivity.
Qed.

Lemma N_compare_laws : CmpLaws N.compare.
Proof.
  split.
  - intros a b. apply N.compare_antisym.
  - intros a b c H. apply N.compare_eq in H. subst. reflexivity.
  - intros a b c H1 H2. rewrite N.compare_lt_iff in *. lia.
Qed.

Lemma String_compare_laws : CmpLaws String_as_OT.compare.
Proof.
  assert (Heq : forall a b, String_as_OT.compare a b = Eq -> a = b).
  { intros a b H. destruct (String_as_OT.compare_spec a b); congruence. }
  assert (Hrefl : forall a, String_as_OT.compare a a = Eq).
  { intros a. destruct (String_as_OT.compare_spec a a) as [_|H|H]; [reflexivity | |];
      exfalso; exact (StrictOrder_Irreflexive a H). }
  split.
  - intros a b.
    destruct (String_as_OT.compare_spec a b) as [->|H|H]; simpl.
    + apply Hrefl.
    + destruct (String_as_OT.compare_spec b a) as [->|H'|H']; [| | reflexivity];
        exfalso; [exact (StrictOrder_Irreflexive _ H)
                 | exact (StrictOrder_Irreflexive _ (StrictOrder_Transitive _ _ _ H H'))].
    + exact H.
  - intros a b c H. apply Heq in H. subst. reflexivity.
  - intros a b c H1 H2. exact (StrictOrder_Transitive _ _ _ H1 H2).
Qed.

Lemma lexList_laws {A : Type} (cmp : A -> A -> comparison) :
  CmpLaws cmp -> CmpLaws (GoVersion.lexList cmp).
Proof.
  intros L. split.
  - induction a as [|x a IH]; destruct b as [|y b]; simpl; try reflexivity.
    rewrite (cmp_opp cmp L x y), IH. destruct (cmp x y); reflexivity.
  - induction a as [|x a IH]; destruct b as [|y b]; simpl; try discriminate.
    + reflexivity.
    + intros [|z c]; [reflexivity |]. simpl.
      destruct (cmp x y) eqn:E; try discriminate. intros H.
      rewrite (cmp_eq_l cmp L x y z E), (IH b c H). reflexivity.
  - induction a as [|x a IH]; destruct b as [|y b]; destruct c as [|z c]; simpl;
      try discriminate; try reflexivity.
    destruct (cmp x y) eqn:Exy; try discriminate.
    + rewrite (cmp_eq_l cmp L x y z Exy).
      destruct (cmp y z); try discriminate; [apply IH | reflexivity].
    + intros _. destruct (cmp y z) eqn:Eyz; try discriminate.
      * rewrite <- (cmp_eq_r cmp L x y z Eyz), Exy. reflexivity.
      * rewrite (cmp_lt_trans cmp L x y z Exy Eyz). reflexivity.
Qed.

Module GoVersionFacts.
Import GoVersion.

Lemma cmpIdent_laws : CmpLaws cmpIdent.
Proof.
  pose proof N_compare_laws as LN. pose proof String_compare_laws as LS.
  split.
  - intros [x|x] [y|y]; simpl; try reflexivity;
      [apply (cmp_opp _ LN) | apply (cmp_opp _ LS)].
  - intros [x|x] [y|y] [z|z]; simpl; try discriminate; try reflexivity;
      [apply (cmp_eq_l _ LN) | apply (cmp_eq_l _ LS)].
  - intros [x|x] [y|y] [z|z]; simpl; try discriminate; try reflexivity;
      [apply (cmp_lt_trans _ LN) | apply (cmp_lt_trans _ LS)].
Qed.

Lemma allZero_trimZeros l : allZero l = true <-> trimZeros l = [].
Proof.
  induction l as [|x l IH]; simpl; [tauto |].
  destruct (trimZeros l) eqn:E.
  - destruct x as [|p]; simpl.
    + rewrite IH. tauto.
    + split; intros; discriminate.
  - split; [| intros; discriminate]. intros H.
    apply andb_true_iff in H as [_ H]. apply IH in H. discriminate.
Qed.

Lemma cmpSegs_nil_l b :
  cmpSegs [] b = lexList N.compare [] (trimZeros b).
Proof.
  simpl. pose proof (allZero_trimZeros b) as H.
  destruct (allZero b), (trimZeros b); try reflexivity.
  - destruct H as [H _]. discriminate H. reflexivity.
  - destruct H as [_ H]. discriminate H. reflexivity.
Qed.

Lemma cmpSegs_nil_r a :
  cmpSegs a [] = lexList N.compare (trimZeros a) [].
Proof.
  pose proof (allZero_trimZeros a) as H.
  destruct a as [|x a]; [reflexivity |].
  change (cmpSegs (x :: a) []) with (if allZero (x :: a) then Eq else Gt).
  destruct (allZero (x :: a)), (trimZeros (x :: a)); try reflexivity.
  - destruct H as [H _]. discriminate H. reflexivity.
  - destruct H as [_ H]. discriminate H. reflexivity.
Qed.

(** Comparing components with missing ones read as zero is the
    lexicographic comparison of the components without trailing zeros. *)
Lemma cmpSegs_trimZeros a b :
  cmpSegs a b = lexList N.compare (trimZeros a) (trimZeros b).
Proof.
  revert b. induction a as [|x a IH]; intros b; [apply cmpSegs_nil_l |].
  destruct b as [|y b]; [apply cmpSegs_nil_r |].
  change (cmpSegs (x :: a) (y :: b))
    with (match (x ?= y)%N with Eq => cmpSegs a b | c => c end).
  rewrite IH. simpl trimZeros.
  destruct (trimZeros a) as [|a0 ta], (trimZeros b) as [|b0 tb];
    destruct x as [|px], y as [|py]; simpl; try reflexivity;
    destruct (px ?= py)%positive; reflexivity.
Qed.

Lemma cmpSegs_laws : CmpLaws cmpSegs.
Proof.
  pose proof (CmpLaws_pull trimZeros _ (lexList_laws _ N_compare_laws)) as L.
  split; intros; rewrite ?cmpSegs_trimZeros in *.
  - apply (cmp_opp _ L).
  - apply (cmp_eq_l _ L); assumption.
  - eapply (cmp_lt_trans _ L); eassumption.
Qed.

Lemma cmpPre_laws : CmpLaws cmpPre.
Proof.
  pose proof (CmpLaws_pull idents _ (lexList_laws _ cmpIdent_laws)) as L.
  unfold cmpPre. split.
  - intros a b. destruct (String.eqb a ""), (String.eqb b ""); try reflexivity.
    apply (cmp_opp _ L).
  - intros a b c.
    destruct (String.eqb a ""), (String.eqb b ""), (String.eqb c "");
      try discriminate; try reflexivity.
    apply (cmp_eq_l _ L).
  - intros a b c.
    destruct (String.eqb a ""), (String.eqb b ""), (String.eqb c "");
      try discriminate; try reflexivity.
    apply (cmp_lt_trans _ L).
Qed.

Lemma cmp_laws : CmpLaws cmp.
Proof.
  exact (CmpLaws_then _ _ (CmpLaws_pull segments _ cmpSegs_laws)
                          (CmpLaws_pull pre _ cmpPre_laws)).
Qed.

(** The sample version library honours the contract of [Compare]. *)
Lemma laws : @VersionLaws lib.
Proof.
  pose proof cmp_laws as L. split; simpl; unfold Compare.
  - intros a b. rewrite (cmp_opp _ L a b). destruct (cmp a b); reflexivity.
  - intros a b c Hab Hbc.
    assert (Hac : cmp a c <> Gt).
    { apply (cmp_le_trans _ L a b c).
      - destruct (cmp a b); [discriminate | discriminate | lia].
      - destruct (cmp b c); [discriminate | discriminate | lia]. }
    destruct (cmp a c); [lia | lia | congruence].
Qed.

End GoVersionFacts.

Section InsertionSortFacts.
Context {A : Type} (less : A -> A -> bool).

Lemma insert_by_perm x l : Permutation (x :: l) (insert_by less x l).
Proof.
  induction l as [|y l IH]; simpl; [reflexivity |].
  destruct (less y x); [| reflexivity].
  rewrite perm_swap. apply perm_skip. exact IH.
Qed.

Lemma isort_perm l : Permutation l (isort less l).
Proof.
  induction l as [|x l IH]; simpl; [reflexivity |].
  rewrite <- insert_by_perm. apply perm_skip. exact IH.
Qed.

Hypothesis SW : StrictWeak less.

Lemma less_asym a b : less a b = true -> less b a = false.
Proof.
  intros Hab. destruct (less b a) eqn:Hba; [| reflexivity].
  rewrite <- (sw_irrefl less SW a). symmetry. exact (sw_trans less SW a b a Hab Hba).
Qed.

Lemma insert_by_sorted x l :
  StronglySorted (fun a b => less b a = false) l ->
  StronglySorted (fun a b => less b a = false) (insert_by less x l).
Proof.
  induction l as [|y l IH]; intros Hs; simpl.
  - repeat constructor.
  - apply StronglySorted_inv in Hs as [Hs Hy].
    destruct (less y x) eqn:Hyx.
    + constructor; [apply IH; exact Hs |].
      rewrite <- insert_by_perm. constructor; [apply less_asym; exact Hyx | exact Hy].
    + constructor; [constructor; assumption |].
      constructor; [exact Hyx |].
      rewrite List.Forall_forall in *. intros z Hz.
      exact (sw_incomp less SW z y x (Hy z Hz) Hyx).
Qed.

Lemma isort_sorted l : StronglySorted (fun a b => less b a = false) (isort less l).
Proof.
  induction l as [|x l IH]; simpl; [constructor | apply insert_by_sorted; exact IH].
Qed.
End InsertionSortFacts.

(** Insertion sort honours the contract of [sort.Slice]. *)
Lemma insertionSort_laws : @SortLaws insertionSort.
Proof.
  split; intros; simpl; [apply isort_perm | apply isort_sorted; assumption].
Qed.

(** ** The version catalogue *)

Section VersionCatalog.
Context `{VL : VersionLib} `{SL : SortLib}.

Lemma enumerate_reached it names : enumerate it = Ok names -> reached it = names.
Proof.
  revert names. induction it as [|[name|err] it IH]; intros names; simpl.
  - congruence.
  - destruct (enumerate it) as [ns|e]; [| discriminate].
    intros [= <-]. f_equal. apply IH. reflexivity.
  - destruct (isIterOver err); congruence.
Qed.

(** The loop of [AllVersions] appends, in enumeration order, the versions of
    the names that are version tags; it fails when the enumeration does. *)
Lemma AllVersions_loop_spec it ret :
  AllVersions_loop it ret =
  match enumerate it with
  | Ok names => Ok (ret ++ omap tagVersion names)
  | Err err => Err err
  end.
Proof.
  revert ret. induction it as [|[name|err] it IH]; intros ret;
    cbn [AllVersions_loop enumerate].
  - rewrite app_nil_r. reflexivity.
  - assert (Ht : tagVersion name =
                 if HasPrefix name "refs/tags/v" then
                   match NewVersion (string_from 11 name) with
                   | Ok v => Some v
                   | Err _ => None
                   end
                 else None) by reflexivity.
    destruct (HasPrefix name "refs/tags/v");
      [destruct (NewVersion (string_from 11 name)) |]; rewrite IH;
      destruct (enumerate it); try reflexivity;
      cbn [omap list_omap]; rewrite Ht, <- ?app_assoc; reflexivity.
  - destruct (isIterOver err); [rewrite app_nil_r |]; reflexivity.
Qed.

Lemma AllVersions_spec m :
  AllVersions m =
  match NewReferenceNameIterator (repo m) with
  | Err err => Err err
  | Ok it =>
      match enumerate it with
      | Err err => Err err
      | Ok names =>
          Ok (sort_Slice (fun vi vj => LessThan vj vi) (omap tagVersion names))
      end
  end.
Proof.
  unfold AllVersions. destruct (NewReferenceNameIterator (repo m)); [| reflexivity].
  rewrite AllVersions_loop_spec. destruct (enumerate a); reflexivity.
Qed.

(** The loop of [HasVersion] answers [true] exactly when a name reached
    before the first failing step is a tag equal in precedence to [v]. *)
Lemma HasVersion_loop_true it v :
  HasVersion_loop it v = Ok true <->
  exists name g, In name (reached it) /\ tagVersion name = Some g /\ Equal g v = true.
Proof.
  induction it as [|[name|err] it IH]; simpl.
  - split; [discriminate | intros (? & ? & [] & _)].
  - assert (Hskip : tagVersion name = None \/
                    (exists g, tagVersion name = Some g /\ Equal g v = false) ->
                    (HasVersion_loop it v = Ok true <->
                     exists n g, (name = n \/ In n (reached it)) /\
                                 tagVersion n = Some g /\ Equal g v = true)).
    { intros Hn. rewrite IH. split.
      - intros (n & g & Hin & Ht & He). exists n, g. auto.
      - intros (n & g & [<-|Hin] & Ht & He).
        + destruct Hn as [Hn | (g' & Hn & He')]; congruence.
        + exists n, g. auto. }
    unfold tagVersion in Hskip at 1 2. unfold tagVersion at 1.
    destruct (HasPrefix name "refs/tags/v") eqn:Hp; [| apply Hskip; auto].
    destruct (NewVersion (string_from 11 name)) as [gotV|e] eqn:Hv; [| apply Hskip; auto].
    destruct (Equal gotV v) eqn:He; [| apply Hskip; eauto].
    split; [intros _ | reflexivity].
    exists name, gotV. unfold tagVersion. rewrite Hp, Hv. auto.
  - destruct (isIterOver err); (split; [discriminate | intros (? & ? & [] & _)]).
Qed.

(** [HasVersion] answers [true] exactly for the tagged versions. *)
Lemma HasVersion_true_iff m v : HasVersion m v = Ok true <-> tagged m v.
Proof.
  unfold HasVersion, tagged.
  destruct (NewReferenceNameIterator (repo m)) as [it|e].
  - rewrite HasVersion_loop_true. split.
    + intros (name & g & H). exists it, name, g. auto.
    + intros (it' & name & g & [= <-] & H). exists name, g. exact H.
  - split; [discriminate | intros (? & ? & ? & [=] & _)].
Qed.

(** When the enumeration does not fail, neither does the loop of [HasVersion]. *)
Lemma HasVersion_loop_total it v names :
  enumerate it = Ok names -> exists b, HasVersion_loop it v = Ok b.
Proof.
  revert names. induction it as [|[name|err] it IH]; intros names; simpl.
  - eauto.
  - destruct (enumerate it) as [ns|e]; [| discriminate]. intros _.
    destruct (IH ns eq_refl) as [b Hb].
    destruct (HasPrefix name "refs/tags/v"); [| eauto].
    destruct (NewVersion (string_from 11 name)); [| eauto].
    destruct (Equal a v); eauto.
  - destruct (isIterOver err); [eauto | discriminate].
Qed.

(** C6: for every store state and version [v], [HasVersion] returns [true]
    exactly when some enumerated reference name with the version-tag prefix
    parses to a version equal to [v] under [Equal], the library's
    precedence equality (the strings are never compared); and in a store
    whose enumeration runs to its end it returns [false] exactly when there
    is no such name. *)
Theorem HasVersion_iff_precedence_equal_tag (m : Module) (v : Version) :
  (HasVersion m v = Ok true <->
   exists it name g,
     NewReferenceNameIterator (repo m) = Ok it /\ In name (reached it) /\
     HasPrefix name "refs/tags/v" = true /\
     NewVersion (string_from 11 name) = Ok g /\ Equal g v = true) /\
  (forall it names,
     NewReferenceNameIterator (repo m) = Ok it -> enumerate it = Ok names ->
     (HasVersion m v = Ok false <-> ~ tagged m v)).
Proof.
  split.
  - rewrite HasVersion_true_iff. unfold tagged, tagVersion. split.
    + intros (it & name & g & Hit & Hin & Ht & He). exists it, name, g.
      destruct (HasPrefix name "refs/tags/v"); [| discriminate].
      destruct (NewVersion (string_from 11 name)); [| discriminate].
      injection Ht as ->. auto.
    + intros (it & name & g & Hit & Hin & Hp & Hv & He). exists it, name, g.
      rewrite Hp, Hv. auto.
  - intros it names Hit Hen. rewrite <- HasVersion_true_iff.
    unfold HasVersion. rewrite Hit.
    destruct (HasVersion_loop_total it v names Hen) as [[|] ->]; split; congruence.
Qed.

(** C5: [LatestVersion] returns the first element of what [AllVersions]
    returns, is absent ([nil] without error) exactly when that sequence is
    empty, and fails exactly as [AllVersions] fails. *)
Theorem LatestVersion_is_first_of_AllVersions (m : Module) :
  match AllVersions m with
  | Ok versions =>
      LatestVersion m = Ok (head versions) /\
      (LatestVersion m = Ok None <-> versions = [])
  | Err err => LatestVersion m = Err err
  end.
Proof.
  unfold LatestVersion. destruct (AllVersions m) as [[|v vs]|e]; simpl.
  - split; [reflexivity | tauto].
  - split; [reflexivity |]. split; discriminate.
  - reflexivity.
Qed.

End VersionCatalog.

Section VersionOrder.
Context `{VL : VersionLib} `{SL : SortLib}.
Context {VLaws : VersionLaws} {SLaws : SortLaws}.

(** The [less] function handed to [sort.Slice] is a strict weak ordering. *)
Lemma reverse_LessThan_StrictWeak : StrictWeak (fun vi vj : Version => LessThan vj vi).
Proof.
  unfold LessThan. split.
  - intros a. pose proof (Compare_antisym a a) as Eaa. apply Z.ltb_ge.
    clear - Eaa. lia.
  - intros a b c Hab Hbc. apply Z.ltb_lt in Hab, Hbc. apply Z.ltb_lt.
    pose proof (Compare_antisym a b) as Eab. pose proof (Compare_antisym a c) as Eac.
    assert (Hca : Compare c a <= 0)
      by (apply (Compare_trans c b a); [clear - Hbc | clear - Hab]; lia).
    destruct (Z.eq_dec (Compare c a) 0) as [Hz|Hz]; [| clear - Hca Hz; lia].
    assert (Compare a b <= 0)
      by (apply (Compare_trans a c b); [clear - Hz Eac | clear - Hbc]; lia).
    clear - Hab Eab H. lia.
  - intros a b c Hab Hbc. apply Z.ltb_ge in Hab, Hbc. apply Z.ltb_ge.
    pose proof (Compare_antisym a b) as Eab. pose proof (Compare_antisym a c) as Eac.
    pose proof (Compare_antisym b c) as Ebc.
    assert (Compare a c <= 0)
      by (apply (Compare_trans a b c); [clear - Hab Eab | clear - Hbc Ebc]; lia).
    clear - H Eac. lia.
Qed.

(** C1, as the code has it: whenever [AllVersions] succeeds, its result holds
    every version tag that parses, once per tag (a rearrangement of the parsed
    tags in enumeration order), latest first: no entry is lower in precedence
    than an entry after it.  Entries equal in precedence are all kept. *)
Theorem AllVersions_descending_permutation (m : Module) (versions : list Version) :
  AllVersions m = Ok versions ->
  exists it names,
    NewReferenceNameIterator (repo m) = Ok it /\ enumerate it = Ok names /\
    Permutation (omap tagVersion names) versions /\
    Descending versions.
Proof.
  rewrite AllVersions_spec.
  destruct (NewReferenceNameIterator (repo m)) as [it|e]; [| discriminate].
  destruct (enumerate it) as [names|e] eqn:Hen; [| discriminate].
  intros [= <-]. exists it, names.
  split; [reflexivity |]. split; [exact Hen |]. split.
  - apply sort_Slice_perm.
  - unfold Descending.
    exact (sort_Slice_sorted Version _ (omap tagVersion names) reverse_LessThan_StrictWeak).
Qed.

(** Two members of a strongly sorted list are related one way or the other. *)
Lemma StronglySorted_two {A : Type} (R : A -> A -> Prop) (l : list A) :
  StronglySorted R l ->
  forall a b rest, Permutation l (a :: b :: rest) -> R a b \/ R b a.
Proof.
  induction 1 as [|x l Hs IH Hx]; intros a b rest Hp.
  - apply Permutation_nil in Hp. discriminate.
  - symmetry in Hp. apply Permutation_cons_inv_r in Hp as (k1 & k2 & Hk & Hp).
    rewrite List.Forall_forall in Hx.
    destruct k1 as [|a' [|b' k1]]; simplify_eq/=.
    + left. apply Hx. apply list_elem_of_In. rewrite Hp. left.
    + right. apply Hx. apply list_elem_of_In. rewrite Hp. left.
    + exact (IH _ _ _ Hp).
Qed.

(** Whenever two enumerated tags parse to versions equal in precedence, the
    result of [AllVersions] is not strictly descending. *)
Lemma AllVersions_equal_tags_not_strict (m : Module) (versions : list Version)
    it before name1 between name2 after g1 g2 :
  NewReferenceNameIterator (repo m) = Ok it ->
  enumerate it = Ok (before ++ name1 :: between ++ name2 :: after) ->
  tagVersion name1 = Some g1 -> tagVersion name2 = Some g2 ->
  Equal g1 g2 = true ->
  AllVersions m = Ok versions ->
  ~ StrictlyDescending versions.
Proof.
  intros Hit Hen H1 H2 He Hall Hs.
  rewrite AllVersions_spec, Hit, Hen in Hall. injection Hall as <-.
  pose proof (sort_Slice_perm Version (fun vi vj => LessThan vj vi)
                (omap tagVersion (before ++ name1 :: between ++ name2 :: after))) as Hp.
  symmetry in Hp. set (versions := sort_Slice _ _) in *.
  rewrite omap_app in Hp. cbn [omap list_omap] in Hp. rewrite H1 in Hp.
  rewrite omap_app in Hp. cbn [omap list_omap] in Hp. rewrite H2 in Hp.
  assert (Hq : Permutation
                 (omap tagVersion before ++
                  g1 :: omap tagVersion between ++ g2 :: omap tagVersion after)
                 (g1 :: g2 :: omap tagVersion before ++
                  omap tagVersion between ++ omap tagVersion after)).
  { etransitivity; [symmetry; apply Permutation_middle |]. apply perm_skip.
    rewrite app_assoc. etransitivity; [symmetry; apply Permutation_middle |].
    rewrite <- app_assoc. reflexivity. }
  rewrite Hq in Hp.
  unfold Equal in He. apply Z.eqb_eq in He.
  pose proof (Compare_antisym g1 g2) as Ha.
  destruct (StronglySorted_two _ _ Hs _ _ _ Hp) as [H | H];
    unfold LessThan in H; apply Z.ltb_lt in H; clear - H He Ha; lia.
Qed.

End VersionOrder.

Section VersionFailures.
Context `{VL : VersionLib} `{SL : SortLib}.
Context {SLaws : SortLaws}.

(** An enumeration fails exactly at a step that reports an error other than
    [ErrIterOver] after steps that all yielded a name. *)
Lemma enumerate_Err_iff it err :
  enumerate it = Err err <->
  exists names rest, it = map Ok names ++ Err err :: rest /\ isIterOver err = false.
Proof.
  induction it as [|[name|e] it IH]; simpl.
  - split; [discriminate |]. intros ([|??] & ? & [=] & _).
  - split.
    + destruct (enumerate it) as [ns|e'] eqn:Hen; [discriminate |].
      intros [= ->]. destruct IH as [IH _].
      destruct (IH eq_refl) as (names & rest & -> & Hio).
      exists (name :: names), rest. auto.
    + intros ([|n names] & rest & [=] & Hio). subst.
      destruct IH as [_ IH]. rewrite IH; [reflexivity |]. eauto.
  - split.
    + destruct (isIterOver e) eqn:Hio; [discriminate |]. intros [= ->].
      exists [], it. auto.
    + intros ([|n names] & rest & [=] & Hio). subst. rewrite Hio. reflexivity.
Qed.

(** C9, as the code has it: [AllVersions] returns the empty sequence without
    error when the enumeration runs to its end and no name is a version tag
    that parses; it fails when the iterator cannot be created, and also when
    a later step of the enumeration reports an error other than
    [ErrIterOver], and in no other case. *)
Theorem AllVersions_failure_modes (m : Module) :
  (forall it names,
     NewReferenceNameIterator (repo m) = Ok it -> enumerate it = Ok names ->
     omap tagVersion names = [] -> AllVersions m = Ok []) /\
  (forall err,
     AllVersions m = Err err <->
     NewReferenceNameIterator (repo m) = Err err \/
     exists names rest,
       NewReferenceNameIterator (repo m) = Ok (map Ok names ++ Err err :: rest) /\
       isIterOver err = false).
Proof.
  rewrite AllVersions_spec. split.
  - intros it names -> -> ->. f_equal.
    apply Permutation_nil. apply sort_Slice_perm.
  - intros err. destruct (NewReferenceNameIterator (repo m)) as [it|e].
    + destruct (enumerate it) as [names|e] eqn:Hen.
      * split; [discriminate |]. intros [[=] | (ns & rest & [= ->] & Hio)].
        assert (H : enumerate (map Ok ns ++ Err err :: rest) = Err err)
          by (apply enumerate_Err_iff; eauto).
        congruence.
      * apply enumerate_Err_iff in Hen as (ns & rest & -> & Hio). split.
        -- intros [= ->]. right. eauto.
        -- intros [[=] | (ns' & rest' & [= Heq] & Hio')].
           assert (H : enumerate (map Ok ns' ++ Err err :: rest') = Err err)
             by (apply enumerate_Err_iff; eauto).
           assert (H' : enumerate (map Ok ns ++ Err e :: rest) = Err e)
             by (apply enumerate_Err_iff; eauto).
           congruence.
    + split; [intros [= ->]; auto |]. intros [[= ->] | (? & ? & [=] & _)]. reflexivity.
Qed.

End VersionFailures.

(** ** The archive of a version *)

(** Induction on trees: a property holds of a tree when it holds of every
    sub-tree that looking up an entry yields. *)
Lemma Tree_nested_ind (P : Tree -> Prop) :
  (forall es, Forall (fun e => forall t, as_tree e = Ok t -> P t) es -> P (mkTree es)) ->
  forall t, P t.
Proof.
  intros H. fix IH 1. intros [es]. apply H.
  induction es as [|e es IHes]; constructor; [| exact IHes].
  destruct e as [n i ty fm [t|err] b]; simpl; intros t' Ht; [| discriminate].
  injection Ht as <-. apply IH.
Qed.

Lemma headers_app items items' : headers (items ++ items') = headers items ++ headers items'.
Proof.
  induction items as [|[h|b|] items IH]; simpl; rewrite ?IH; reflexivity.
Qed.

Lemma tar_put_out tw item :
  out (fst (tar_put tw item)) = out tw \/ out (fst (tar_put tw item)) = out tw ++ [item].
Proof.
  unfold tar_put. destruct (room tw) as [[|n]|]; simpl; auto.
Qed.

Lemma tar_put_stamped t tw item :
  stamped t (out tw) -> stamped t [item] -> stamped t (out (fst (tar_put tw item))).
Proof.
  intros Htw Hitem. destruct (tar_put_out tw item) as [-> | ->]; [exact Htw |].
  unfold stamped in *. rewrite headers_app. apply Forall_app. auto.
Qed.

Lemma stamped_data t b : stamped t [TarData b].
Proof. constructor. Qed.

Lemma stamped_header t h :
  hdr_ModTime h = t -> hdr_AccessTime h = t -> hdr_ChangeTime h = t ->
  stamped t [TarHeader h].
Proof. intros. repeat constructor; assumption. Qed.

(** [writeGitTreeTar] stamps every header it writes with [modTime]. *)
Lemma writeGitTreeTar_stamped m tree :
  forall prefix modTime tw,
    stamped modTime (out tw) ->
    stamped modTime (out (fst (writeGitTreeTar m tree prefix modTime tw))).
Proof.
  induction tree as [es IH] using Tree_nested_ind. intros prefix modTime.
  cbn [writeGitTreeTar]. induction es as [|e es IHes]; intros tw Htw; [exact Htw |].
  apply Forall_cons in IH as [IHe IH]. specialize (IHes IH).
  destruct e as [name id ty fm sub blb]. destruct ty; try (apply IHes; exact Htw).
  - (* a directory *)
    match goal with |- context [tar_WriteHeader tw ?h] =>
      assert (Hd : stamped modTime (out (fst (tar_WriteHeader tw h))))
        by (apply tar_put_stamped; [exact Htw | apply stamped_header; reflexivity]);
      set (tw1 := fst (tar_WriteHeader tw h)) in *
    end.
    destruct sub as [newTree|err]; [| apply IHes; exact Hd].
    pose proof (IHe newTree eq_refl (prefix +:+ name +:+ "/") modTime tw1 Hd) as Hsub.
    destruct (writeGitTreeTar m newTree (prefix +:+ name +:+ "/") modTime tw1)
      as [tw2 [err|]]; [exact Hsub | apply IHes; exact Hsub].
  - (* a file *)
    destruct blb as [blob|err]; [| exact Htw].
    match goal with |- context [tar_WriteHeader tw ?h] =>
      assert (Hd : stamped modTime (out (fst (tar_WriteHeader tw h))))
        by (apply tar_put_stamped; [exact Htw | apply stamped_header; reflexivity]);
      set (tw1 := fst (tar_WriteHeader tw h)) in *
    end.
    pose proof (tar_put_stamped modTime tw1 (TarData (Contents blob)) Hd
                  (stamped_data _ _)) as Hw.
    unfold tar_Write. destruct (tar_put tw1 (TarData (Contents blob))) as [tw2 [err|]];
      [exact Hw | apply IHes; exact Hw].
Qed.

(** C7: when the version resolves to a commit, every header that
    [WriteVersionTar] emits, for a directory or for a file, carries the
    commit's committer time as its modification, access and change time. *)
Theorem WriteVersionTar_uniform_timestamp `{VL : VersionLib}
    (m : Module) (v : Version) (w : option nat) (commit : Commit) :
  getVersionCommit m v = Ok commit ->
  Forall (fun h => hdr_ModTime h = When (Committer commit) /\
                   hdr_AccessTime h = When (Committer commit) /\
                   hdr_ChangeTime h = When (Committer commit))
         (headers (out (fst (WriteVersionTar m v w)))).
Proof.
  intros Hc. unfold WriteVersionTar. rewrite Hc.
  assert (H0 : stamped (When (Committer commit)) (out (NewWriter w))) by constructor.
  destruct (commit_Tree commit) as [rootTree|err].
  - pose proof (writeGitTreeTar_stamped m rootTree "" _ _ H0) as H.
    destruct (writeGitTreeTar m rootTree "" (When (Committer commit)) (NewWriter w))
      as [tw err]. simpl. apply tar_put_stamped; [exact H | constructor].
  - simpl. apply tar_put_stamped; [exact H0 | constructor].
Qed.

(** Pruning leaves no link behind. *)
Lemma prune_hasLink tree : hasLink (prune tree) = false.
Proof.
  induction tree as [es IH] using Tree_nested_ind. cbn [prune hasLink].
  induction es as [|e es IHes]; [reflexivity |].
  apply Forall_cons in IH as [IHe IH]. specialize (IHes IH).
  destruct e as [name id ty fm [t|err] blb]; destruct ty; try exact IHes;
    cbn [hasLink] in *; rewrite ?(IHe t eq_refl); exact IHes.
Qed.

(** Pruning changes nothing in a tree without links. *)
Lemma prune_without_links tree : hasLink tree = false -> prune tree = tree.
Proof.
  induction tree as [es IH] using Tree_nested_ind. cbn [prune hasLink]. intros H. f_equal.
  induction es as [|e es IHes]; [reflexivity |].
  apply Forall_cons in IH as [IHe IH]. specialize (IHes IH).
  destruct e as [name id ty fm [t|err] blb]; destruct ty; try discriminate;
    try (apply orb_false_iff in H as [Ht H]; rewrite (IHe t eq_refl Ht));
    rewrite (IHes H); reflexivity.
Qed.

(** Pruning a tree made of links only leaves the empty tree. *)
Lemma prune_links_only tree :
  Forall (fun e => Type_ e = ObjectCommit) (entries tree) -> prune tree = mkTree [].
Proof.
  destruct tree as [es]. cbn [prune entries]. intros Hall. f_equal.
  induction Hall as [|e es He Hall IH]; [reflexivity |].
  destruct e as [name id ty fm sub blb]. simpl in He. subst ty. exact IH.
Qed.

(** C8: embedded-repository links (entries of type commit) produce no
    output.  With every such entry taken out of the tree, at every depth
    ([prune], which removes all links and nothing else), [writeGitTreeTar]
    writes the same stream and returns the same result; in particular a tree
    made of links only writes nothing.  So neither a header for a link nor
    anything below it is in the archive. *)
Theorem writeGitTreeTar_ignores_links (m : Module) (tree : Tree) :
  hasLink (prune tree) = false /\
  (hasLink tree = false -> prune tree = tree) /\
  (forall prefix modTime tw,
     writeGitTreeTar m tree prefix modTime tw =
     writeGitTreeTar m (prune tree) prefix modTime tw) /\
  (Forall (fun e => Type_ e = ObjectCommit) (entries tree) ->
   forall prefix modTime tw, writeGitTreeTar m tree prefix modTime tw = (tw, None)).
Proof.
  split; [apply prune_hasLink |]. split; [apply prune_without_links |].
  assert (Heq : forall prefix modTime tw,
             writeGitTreeTar m tree prefix modTime tw =
             writeGitTreeTar m (prune tree) prefix modTime tw).
  { induction tree as [es IH] using Tree_nested_ind. intros prefix modTime.
    cbn [writeGitTreeTar prune]. induction es as [|e es IHes]; intros tw; [reflexivity |].
    apply Forall_cons in IH as [IHe IH]. specialize (IHes IH).
    destruct e as [name id ty fm sub blb]. destruct ty; try apply IHes.
    - destruct sub as [newTree|err]; [| apply IHes].
      rewrite <- (IHe newTree eq_refl).
      match goal with |- context [writeGitTreeTar m newTree ?p ?t ?w] =>
        destruct (writeGitTreeTar m newTree p t w) as [tw2 [err|]]
      end; [reflexivity | apply IHes].
    - destruct blb as [blob|err]; [| reflexivity].
      match goal with |- context [tar_Write ?w ?b] =>
        destruct (tar_Write w b) as [tw2 [err|]]
      end; [reflexivity | apply IHes]. }
  split; [exact Heq |].
  intros Hall prefix modTime tw. rewrite Heq.
  rewrite (prune_links_only tree Hall). reflexivity.
Qed.

(** ** The handler *)

Section HandlerFacts.
Context `{VL : VersionLib} `{SL : SortLib} `{MX : MuxLib}.
Variable OpenRepository : string -> Result Repository.
Variable hostname : string.
Variable modules : Modules.

Lemma finish_WriteHeader code :
  finish (WriteHeader newResponseWriter code) =
  {| Status := code; RespHeader := ∅; RespBody := [] |}.
Proof. reflexivity. Qed.

Lemma finish_log_WriteHeader e code :
  finish (WriteHeader (log_Printf newResponseWriter e) code) =
  {| Status := code; RespHeader := ∅; RespBody := [] |}.
Proof. reflexivity. Qed.

Lemma finish_writeJSON doc :
  finish (writeJSON newResponseWriter doc) =
  {| Status := 200; RespHeader := ∅; RespBody := [ChunkJSON doc] |}.
Proof. reflexivity. Qed.

(** The steps the four version routes share, read through [Lookup]. *)
Lemma handleExactVersion_unfold wr namespace name provider versionStr :
  handleExactVersion OpenRepository modules wr namespace name provider versionStr =
  match Lookup modules namespace name provider with
  | None => WriteHeader wr 404
  | Some cfg =>
      match NewVersion versionStr with
      | Err _ => WriteHeader wr 404
      | Ok v =>
          match Load OpenRepository (GitDir cfg) with
          | None =>
              WriteHeader (log_Printf wr (LogOpenFailed (GitDir cfg) (DeclRange cfg))) 500
          | Some mdl =>
              match HasVersion mdl v with
              | Err err =>
                  WriteHeader (log_Printf wr
                    (LogCheckFailed (Version_String v) (DeclRange cfg) err)) 500
              | Ok true =>
                  writeJSON wr (json_of_apiModule (summary namespace name provider v))
              | Ok false => WriteHeader wr 404
              end
          end
      end
  end.
Proof.
  unfold handleExactVersion, Lookup.
  destruct (modules !! namespace) as [byNamespace|]; [| reflexivity].
  destruct (byNamespace !! name) as [byName|]; [| reflexivity].
  destruct (byName !! provider) as [cfg|]; [| reflexivity].
  destruct (NewVersion versionStr) as [v|]; [| reflexivity].
  destruct (Load OpenRepository (GitDir cfg)) as [mdl|]; [| reflexivity].
  destruct (HasVersion mdl v) as [[|]|]; reflexivity.
Qed.

(** The three outcomes of the exact-version route's function. *)
Lemma handleExactVersion_outcome (namespace name provider versionStr : string) :
  let resp := finish (handleExactVersion OpenRepository modules newResponseWriter
                        namespace name provider versionStr) in
  (forall cfg v m,
     Lookup modules namespace name provider = Some cfg ->
     NewVersion versionStr = Ok v ->
     Load OpenRepository (GitDir cfg) = Some m ->
     tagged m v ->
     resp = {| Status := 200; RespHeader := ∅;
               RespBody := [ChunkJSON (JObject
                 [ ("id", JString (namespace +:+ "/" +:+ name +:+ "/" +:+ provider
                                     +:+ "/" +:+ Version_String v));
                   ("namespace", JString namespace);
                   ("name", JString name);
                   ("provider", JString provider);
                   ("version", JString (Version_String v)) ])] |}) /\
  (Status resp = 500 <-> storeFailure OpenRepository modules namespace name provider versionStr) /\
  (~ storeFailure OpenRepository modules namespace name provider versionStr ->
   ~ versionExists OpenRepository modules namespace name provider versionStr ->
   resp = NotFound).
Proof.
  cbv zeta. rewrite handleExactVersion_unfold. unfold storeFailure, versionExists.
  destruct (Lookup modules namespace name provider) as [cfg|].
  2:{ rewrite finish_WriteHeader. split; [discriminate |]. split; [| reflexivity].
      split; [discriminate | intros (? & ? & [=] & _)]. }
  destruct (NewVersion versionStr) as [v|e].
  2:{ rewrite finish_WriteHeader. split; [discriminate |]. split; [| reflexivity].
      split; [discriminate | intros (? & ? & _ & [=] & _)]. }
  destruct (Load OpenRepository (GitDir cfg)) as [m|] eqn:Hload.
  2:{ rewrite finish_log_WriteHeader.
      split; [intros cfg' v' m' [= <-] [= <-] Hl; congruence |]. split.
      - split; [intros _ | reflexivity]. exists cfg, v. auto.
      - intros Hnf. exfalso. apply Hnf. exists cfg, v. auto. }
  destruct (HasVersion m v) as [[|]|err] eqn:Hhas.
  - rewrite finish_writeJSON. split.
    + intros cfg' v' m' [= <-] [= <-] Hl _. reflexivity.
    + split.
      * split; [discriminate |].
        intros (cfg' & v' & [= <-] & [= <-] & [Hl | (m' & err & Hl & He)]);
          rewrite Hload in Hl; [discriminate |]. injection Hl as <-. congruence.
      * intros _ Hne. exfalso. apply Hne. exists cfg, v, m.
        split; [reflexivity |]. split; [reflexivity |].
        split; [exact Hload | apply HasVersion_true_iff; exact Hhas].
  - rewrite finish_WriteHeader. split.
    + intros cfg' v' m' [= <-] [= <-] Hl Ht.
      rewrite Hload in Hl. injection Hl as <-.
      apply HasVersion_true_iff in Ht. congruence.
    + split; [| reflexivity]. split; [discriminate |].
      intros (cfg' & v' & [= <-] & [= <-] & [Hl | (m' & err & Hl & He)]);
        rewrite Hload in Hl; [discriminate |]. injection Hl as <-. congruence.
  - rewrite finish_log_WriteHeader. split.
    + intros cfg' v' m' [= <-] [= <-] Hl Ht.
      rewrite Hload in Hl. injection Hl as <-.
      apply HasVersion_true_iff in Ht. congruence.
    + split.
      * split; [intros _ | reflexivity]. exists cfg, v.
        split; [reflexivity |]. split; [reflexivity |]. right. exists m, err. auto.
      * intros Hnf. exfalso. apply Hnf. exists cfg, v.
        split; [reflexivity |]. split; [reflexivity |]. right. exists m, err. auto.
Qed.

(** The router sends a four-segment path to the exact-version route unless
    its last segment is [versions]. *)
Lemma makeHandler_exact req namespace name provider versionStr :
  path_segments (URL_Path req) = Some [namespace; name; provider; versionStr] ->
  versionStr <> "versions" ->
  makeHandler OpenRepository hostname modules req =
  handleExactVersion OpenRepository modules newResponseWriter
                     namespace name provider versionStr.
Proof.
  intros Hp Hv. unfold makeHandler. rewrite Hp.
  destruct (String.eqb_spec versionStr "versions"); [contradiction | reflexivity].
Qed.

(** C10: on a path [/{namespace}/{name}/{provider}/{version}] (whose last
    segment is not the word [versions], which has a route of its own), when
    the three coordinates are configured, the version string parses and a
    tag equal in precedence exists, the router answers with the module
    summary whose version (and the last part of whose id) is the canonical
    rendering of the parsed version, not the path segment; it answers 500
    exactly on a store failure; and in every other case it answers the bare
    404. *)
Theorem exact_version_route (req : Request) (namespace name provider versionStr : string) :
  path_segments (URL_Path req) = Some [namespace; name; provider; versionStr] ->
  versionStr <> "versions" ->
  let resp := ServeHTTP OpenRepository hostname modules req in
  (forall cfg v m,
     Lookup modules namespace name provider = Some cfg ->
     NewVersion versionStr = Ok v ->
     Load OpenRepository (GitDir cfg) = Some m ->
     tagged m v ->
     resp = {| Status := 200; RespHeader := ∅;
               RespBody := [ChunkJSON (JObject
                 [ ("id", JString (namespace +:+ "/" +:+ name +:+ "/" +:+ provider
                                     +:+ "/" +:+ Version_String v));
                   ("namespace", JString namespace);
                   ("name", JString name);
                   ("provider", JString provider);
                   ("version", JString (Version_String v)) ])] |}) /\
  (Status resp = 500 <-> storeFailure OpenRepository modules namespace name provider versionStr) /\
  (~ storeFailure OpenRepository modules namespace name provider versionStr ->
   ~ versionExists OpenRepository modules namespace name provider versionStr ->
   resp = NotFound).
Proof.
  intros Hp Hv. unfold ServeHTTP. rewrite (makeHandler_exact _ _ _ _ _ Hp Hv).
  apply handleExactVersion_outcome.
Qed.

Lemma HasVersion_of_tagged m v : tagged m v -> HasVersion m v = Ok true.
Proof. apply HasVersion_true_iff. Qed.

Lemma Lookup_Some namespace name provider cfg :
  Lookup modules namespace name provider = Some cfg ->
  exists byNamespace byName,
    modules !! namespace = Some byNamespace /\ byNamespace !! name = Some byName /\
    byName !! provider = Some cfg.
Proof.
  unfold Lookup.
  destruct (modules !! namespace) as [byNamespace|] eqn:E1; [| discriminate].
  destruct (byNamespace !! name) as [byName|] eqn:E2; [| discriminate].
  intros H. exists byNamespace, byName. auto.
Qed.

(** C3, as the code has it: on [/{namespace}/{name}/{provider}/{version}/download],
    for a configured coordinate and a version for which a tag equal in
    precedence exists, the router answers 200 without a body, with content
    type [text/plain] and the header [X-Terraform-Get] set to
    [./download/<treeId>.tgz] (the handler appends the suffix itself), where
    [treeId] is the tree of the commit that the tag named by the canonical
    rendering of the version resolves to; when that tag does not resolve it
    answers the bare 404.  No archive is written on this route. *)
Theorem download_location_route (req : Request)
    (namespace name provider versionStr : string)
    (cfg : ModuleConfig) (v : Version) (m : Module) :
  path_segments (URL_Path req) = Some [namespace; name; provider; versionStr; "download"] ->
  Lookup modules namespace name provider = Some cfg ->
  NewVersion versionStr = Ok v ->
  Load OpenRepository (GitDir cfg) = Some m ->
  tagged m v ->
  match GetVersionTreeId m v with
  | Ok treeId =>
      ServeHTTP OpenRepository hostname modules req =
      {| Status := 200;
         RespHeader := <["X-Terraform-Get" := "./download/" +:+ treeId +:+ ".tgz"]>
                         (<["Content-Type" := "text/plain"]> ∅);
         RespBody := [] |}
  | Err _ => ServeHTTP OpenRepository hostname modules req = NotFound
  end.
Proof.
  intros Hp Hl Hv Hload Ht. apply HasVersion_of_tagged in Ht.
  apply Lookup_Some in Hl as (byNamespace & byName & H1 & H2 & H3).
  unfold ServeHTTP, makeHandler. rewrite Hp. cbn [String.eqb Ascii.eqb Bool.eqb].
  unfold handleDownload. rewrite H1, H2, H3, Hv, Hload, Ht. cbn [negb].
  destruct (GetVersionTreeId m v) as [treeId|err]; reflexivity.
Qed.

Lemma RespBody_finish wr : RespBody (finish wr) = body wr.
Proof. unfold finish. destruct (sent wr) as [[code h]|]; reflexivity. Qed.

Lemma jsonOnly_no_archive wr : jsonOnly wr -> ~ streamsArchive (finish wr).
Proof.
  unfold jsonOnly, streamsArchive. rewrite RespBody_finish, List.Forall_forall.
  intros H (items & Hin). destruct (H _ Hin) as [doc Hd]. discriminate.
Qed.

Lemma jsonOnly_new : jsonOnly newResponseWriter.
Proof. constructor. Qed.

Lemma jsonOnly_WriteHeader wr code : jsonOnly wr -> jsonOnly (WriteHeader wr code).
Proof. unfold jsonOnly, WriteHeader. destruct (sent wr); exact id. Qed.

Lemma jsonOnly_log wr e : jsonOnly wr -> jsonOnly (log_Printf wr e).
Proof. exact id. Qed.

Lemma jsonOnly_Header_Set wr k x : jsonOnly wr -> jsonOnly (Header_Set wr k x).
Proof. exact id. Qed.

Lemma jsonOnly_writeJSON wr doc : jsonOnly wr -> jsonOnly (writeJSON wr doc).
Proof.
  unfold jsonOnly, writeJSON, json_MarshalIndent, Write, WriteHeader. intros H.
  destruct (sent wr); simpl; apply Forall_app; split; try exact H;
    repeat constructor; eauto.
Qed.

Lemma jsonOnly_listProviders_fold namespace name kvs wr mods :
  jsonOnly wr ->
  jsonOnly (fst (fold_left (listProviders_step OpenRepository namespace name) kvs (wr, mods))).
Proof.
  revert wr mods. induction kvs as [|[provider cfg] kvs IH]; intros wr mods H; [exact H |].
  simpl. destruct (Load OpenRepository (GitDir cfg)) as [mdl|];
    [destruct (LatestVersion mdl) as [[latest|]|err] |]; apply IH;
    try exact H; apply jsonOnly_log; exact H.
Qed.

Local Hint Resolve jsonOnly_new jsonOnly_WriteHeader jsonOnly_log jsonOnly_Header_Set
  jsonOnly_writeJSON : core.

Lemma jsonOnly_handleListProviders namespace name :
  jsonOnly (handleListProviders OpenRepository modules newResponseWriter namespace name).
Proof.
  unfold handleListProviders.
  destruct (modules !! namespace) as [byNamespace|]; [| auto].
  destruct (byNamespace !! name) as [byName|]; [| auto].
  pose proof (jsonOnly_listProviders_fold namespace name (map_to_list byName)
                newResponseWriter [] jsonOnly_new) as H.
  destruct (fold_left _ _ _) as [wr mods]. auto.
Qed.

Lemma jsonOnly_handleLatest namespace name provider :
  jsonOnly (handleLatest OpenRepository modules newResponseWriter namespace name provider).
Proof.
  unfold handleLatest.
  destruct (modules !! namespace) as [byNamespace|]; [| auto].
  destruct (byNamespace !! name) as [byName|]; [| auto].
  destruct (byName !! provider) as [cfg|]; [| auto].
  destruct (Load OpenRepository (GitDir cfg)) as [mdl|]; [| auto].
  destruct (LatestVersion mdl) as [[latest|]|err]; auto.
Qed.

Lemma jsonOnly_handleVersions namespace name provider :
  jsonOnly (handleVersions OpenRepository hostname modules newResponseWriter
              namespace name provider).
Proof.
  unfold handleVersions.
  destruct (modules !! namespace) as [byNamespace|]; [| auto].
  destruct (byNamespace !! name) as [byName|]; [| auto].
  destruct (byName !! provider) as [cfg|]; [| auto].
  destruct (Load OpenRepository (GitDir cfg)) as [mdl|]; [| auto].
  destruct (AllVersions mdl) as [versions|err]; auto.
Qed.

Lemma jsonOnly_handleDownload namespace name provider versionStr :
  jsonOnly (handleDownload OpenRepository modules newResponseWriter
              namespace name provider versionStr).
Proof.
  unfold handleDownload.
  destruct (modules !! namespace) as [byNamespace|]; [| auto].
  destruct (byNamespace !! name) as [byName|]; [| auto].
  destruct (byName !! provider) as [cfg|]; [| auto].
  destruct (NewVersion versionStr) as [v|]; [| auto].
  destruct (Load OpenRepository (GitDir cfg)) as [mdl|]; [| auto].
  destruct (HasVersion mdl v) as [[|]|err]; cbn [negb]; auto.
  destruct (GetVersionTreeId mdl v); auto.
Qed.

Lemma jsonOnly_handleExactVersion namespace name provider versionStr :
  jsonOnly (handleExactVersion OpenRepository modules newResponseWriter
              namespace name provider versionStr).
Proof.
  rewrite handleExactVersion_unfold.
  destruct (Lookup modules namespace name provider) as [cfg|]; [| auto].
  destruct (NewVersion versionStr) as [v|]; [| auto].
  destruct (Load OpenRepository (GitDir cfg)) as [mdl|]; [| auto].
  destruct (HasVersion mdl v) as [[|]|err]; auto.
Qed.

(** A response made of JSON writes only carries no archive. *)
Ltac no_archive :=
  let H := fresh "H" in
  intros H; apply jsonOnly_no_archive in H; [destruct H | solve [auto]].

(** What the archive route does once the tree id of the version is known. *)
Lemma handleDownloadArchive_resolved room namespace name provider versionStr givenTreeId
    cfg v m treeId :
  Lookup modules namespace name provider = Some cfg ->
  NewVersion versionStr = Ok v ->
  Load OpenRepository (GitDir cfg) = Some m ->
  HasVersion m v = Ok true ->
  GetVersionTreeId m v = Ok treeId ->
  finish (handleDownloadArchive OpenRepository modules newResponseWriter room
            namespace name provider versionStr givenTreeId) =
  if String.eqb (trimTgz givenTreeId) treeId then
    {| Status := 200;
       RespHeader :=
         <["Content-Disposition" :=
             "attachment; filename=" +:+ namespace +:+ "_" +:+ name +:+ "_" +:+ provider
               +:+ "_" +:+ Version_String v +:+ ".tgz"]>
           (<["Content-Type" := "application/x-gzip"]> ∅);
       RespBody := [ChunkGzipTar (out (fst (WriteVersionTar m v room)))] |}
  else NotFound.
Proof.
  intros Hl Hv Hload Hhas Hid.
  apply Lookup_Some in Hl as (byNamespace & byName & H1 & H2 & H3).
  unfold handleDownloadArchive. rewrite H1, H2, H3, Hv, Hload, Hhas, Hid. cbn [negb].
  fold (trimTgz givenTreeId).
  destruct (String.eqb (trimTgz givenTreeId) treeId); cbn [negb]; [| reflexivity].
  destruct (WriteVersionTar m v room) as [zw err]. reflexivity.
Qed.

(** The archive route writes an archive only after all its checks passed. *)
Lemma handleDownloadArchive_streams room namespace name provider versionStr givenTreeId :
  streamsArchive (finish (handleDownloadArchive OpenRepository modules newResponseWriter
                            room namespace name provider versionStr givenTreeId)) ->
  exists cfg v m,
    Lookup modules namespace name provider = Some cfg /\
    NewVersion versionStr = Ok v /\
    Load OpenRepository (GitDir cfg) = Some m /\
    tagged m v /\
    GetVersionTreeId m v = Ok (trimTgz givenTreeId).
Proof.
  unfold handleDownloadArchive, Lookup.
  destruct (modules !! namespace) as [byNamespace|];
    [| no_archive].
  destruct (byNamespace !! name) as [byName|];
    [| no_archive].
  destruct (byName !! provider) as [cfg|];
    [| no_archive].
  destruct (NewVersion versionStr) as [v|];
    [| no_archive].
  destruct (Load OpenRepository (GitDir cfg)) as [m|] eqn:Hload;
    [| no_archive].
  destruct (HasVersion m v) as [[|]|err] eqn:Hhas; cbn [negb];
    try (no_archive).
  destruct (GetVersionTreeId m v) as [treeId|err] eqn:Hid;
    [| no_archive].
  fold (trimTgz givenTreeId).
  destruct (String.eqb_spec (trimTgz givenTreeId) treeId) as [->|Hne]; cbn [negb];
    [| no_archive].
  intros _. exists cfg, v, m. split; [reflexivity |]. split; [reflexivity |].
  split; [exact Hload |]. split; [apply HasVersion_true_iff; exact Hhas | exact Hid].
Qed.

(** C4: on [/{namespace}/{name}/{provider}/{version}/download/{treeId}], for
    a configured coordinate and an existing version whose tree id resolves,
    the route compares the supplied tree id, with the archive suffix [.tgz]
    taken off if it is there, to the tree id computed afresh for that
    version: when they differ it answers the bare 404 (whatever else the
    supplied id may name), and when they are equal it answers 200 with the
    gzip-compressed archive of the version.  No route answers with an
    archive otherwise. *)
Theorem download_archive_route (req : Request) :
  (forall namespace name provider versionStr givenTreeId cfg v m treeId,
     path_segments (URL_Path req) =
       Some [namespace; name; provider; versionStr; "download"; givenTreeId] ->
     Lookup modules namespace name provider = Some cfg ->
     NewVersion versionStr = Ok v ->
     Load OpenRepository (GitDir cfg) = Some m ->
     tagged m v ->
     GetVersionTreeId m v = Ok treeId ->
     (trimTgz givenTreeId <> treeId ->
      ServeHTTP OpenRepository hostname modules req = NotFound) /\
     (trimTgz givenTreeId = treeId ->
      ServeHTTP OpenRepository hostname modules req =
      {| Status := 200;
         RespHeader :=
           <["Content-Disposition" :=
               "attachment; filename=" +:+ namespace +:+ "_" +:+ name +:+ "_" +:+ provider
                 +:+ "_" +:+ Version_String v +:+ ".tgz"]>
             (<["Content-Type" := "application/x-gzip"]> ∅);
         RespBody := [ChunkGzipTar (out (fst (WriteVersionTar m v (client_room req))))] |})) /\
  (routed req ->
   streamsArchive (ServeHTTP OpenRepository hostname modules req) ->
   exists namespace name provider versionStr givenTreeId cfg v m,
     path_segments (URL_Path req) =
       Some [namespace; name; provider; versionStr; "download"; givenTreeId] /\
     Lookup modules namespace name provider = Some cfg /\
     NewVersion versionStr = Ok v /\
     Load OpenRepository (GitDir cfg) = Some m /\
     tagged m v /\
     GetVersionTreeId m v = Ok (trimTgz givenTreeId)).
Proof.
  split.
  - intros namespace name provider versionStr givenTreeId cfg v m treeId
           Hp Hl Hv Hload Ht Hid.
    apply HasVersion_of_tagged in Ht.
    unfold ServeHTTP, makeHandler. rewrite Hp. cbn [String.eqb Ascii.eqb Bool.eqb].
    rewrite (handleDownloadArchive_resolved _ _ _ _ _ _ _ _ _ _ Hl Hv Hload Ht Hid).
    destruct (String.eqb_spec (trimTgz givenTreeId) treeId); split; intros;
      congruence.
  - unfold routed, ServeHTTP, makeHandler.
    destruct (path_segments (URL_Path req)) as [segs|] eqn:Hp;
      [| intros []].
    destruct segs as [|namespace [|name [|provider [|version [|download [|treeId [|]]]]]]];
      intros Hr; try (destruct Hr; fail).
    + intros H. apply jsonOnly_no_archive in H; [destruct H |].
      apply jsonOnly_handleListProviders.
    + intros H. apply jsonOnly_no_archive in H; [destruct H |].
      apply jsonOnly_handleLatest.
    + intros H. apply jsonOnly_no_archive in H; [destruct H |].
      destruct (String.eqb version "versions");
        [apply jsonOnly_handleVersions | apply jsonOnly_handleExactVersion].
    + subst download. cbn [String.eqb Ascii.eqb Bool.eqb].
      intros H. apply jsonOnly_no_archive in H; [destruct H |].
      apply jsonOnly_handleDownload.
    + subst download. cbn [String.eqb Ascii.eqb Bool.eqb].
      intros H. apply handleDownloadArchive_streams in H
        as (cfg & v & m & Hl & Hv & Hload & Ht & Hid).
      exists namespace, name, provider, version, treeId, cfg, v, m. auto 10.
Qed.

End HandlerFacts.

(** ** The one-argument handler *)

Section LegacyFacts.
Context `{VL : VersionLib} `{SL : SortLib} `{MX : MuxLib}.
Variable OpenRepository : string -> Result Repository.
Variable modules : Modules.

(** The one-argument handler sends every four-segment path to the same
    exact-version route. *)
Lemma Legacy_makeHandler_exact req namespace name provider versionStr :
  path_segments (URL_Path req) = Some [namespace; name; provider; versionStr] ->
  Legacy.makeHandler OpenRepository modules req =
  handleExactVersion OpenRepository modules newResponseWriter
                     namespace name provider versionStr.
Proof. intros Hp. unfold Legacy.makeHandler. rewrite Hp. reflexivity. Qed.

(** It has no archive route: a six-segment path is left to the router. *)
Lemma Legacy_makeHandler_no_archive_route req s1 s2 s3 s4 s5 s6 :
  path_segments (URL_Path req) = Some [s1; s2; s3; s4; s5; s6] ->
  Legacy.makeHandler OpenRepository modules req = mux_unrouted req.
Proof. intros Hp. unfold Legacy.makeHandler. rewrite Hp. reflexivity. Qed.

End LegacyFacts.

(** * Further properties *)

(** ** The catalogue's operations agree *)

Lemma existsb_Permutation {A : Type} (f : A -> bool) (l l' : list A) :
  Permutation l l' -> existsb f l = existsb f l'.
Proof.
  induction 1 as [|x l l' Hp IH|x y l|l l' l'' _ IH1 _ IH2]; simpl.
  - reflexivity.
  - rewrite IH. reflexivity.
  - destruct (f x), (f y); reflexivity.
  - congruence.
Qed.

Section CatalogueAgreement.
Context `{VL : VersionLib} `{SL : SortLib}.

(** Run to its end, the loop of [HasVersion] answers whether some parsed tag
    is equal in precedence to [v]. *)
Lemma HasVersion_loop_enumerated it v names :
  enumerate it = Ok names ->
  HasVersion_loop it v = Ok (existsb (fun g => Equal g v) (omap tagVersion names)).
Proof.
  revert names. induction it as [|[name|err] it IH]; intros names;
    cbn [HasVersion_loop enumerate].
  - intros [= <-]. reflexivity.
  - destruct (enumerate it) as [ns|e]; [| discriminate]. intros [= <-].
    specialize (IH ns eq_refl). cbn [omap list_omap].
    assert (Ht : tagVersion name =
                 if HasPrefix name "refs/tags/v" then
                   match NewVersion (string_from 11 name) with
                   | Ok g => Some g
                   | Err _ => None
                   end
                 else None) by reflexivity.
    rewrite Ht. destruct (HasPrefix name "refs/tags/v"); [| exact IH].
    destruct (NewVersion (string_from 11 name)) as [gotV|e]; [| exact IH].
    cbn [existsb]. destruct (Equal gotV v); [reflexivity | exact IH].
  - destruct (isIterOver err); [| discriminate]. intros [= <-]. reflexivity.
Qed.

Context {SLaws : SortLaws}.

(** X1: whenever [AllVersions] succeeds, [HasVersion] succeeds as well and
    answers whether the sequence [AllVersions] returns holds an entry equal
    in precedence to the version asked for. *)
Theorem HasVersion_agrees_with_AllVersions (m : Module) (v : Version)
    (versions : list Version) :
  AllVersions m = Ok versions ->
  HasVersion m v = Ok (existsb (fun g => Equal g v) versions).
Proof.
  rewrite AllVersions_spec. unfold HasVersion.
  destruct (NewReferenceNameIterator (repo m)) as [it|e]; [| discriminate].
  destruct (enumerate it) as [names|e] eqn:Hen; [| discriminate].
  intros [= <-]. rewrite (HasVersion_loop_enumerated it v names Hen). f_equal.
  apply existsb_Permutation. apply sort_Slice_perm.
Qed.

Context {VLaws : VersionLaws}.

Lemma Equal_refl (a : Version) : Equal a a = true.
Proof.
  unfold Equal. pose proof (Compare_antisym a a) as H. apply Z.eqb_eq.
  clear - H. lia.
Qed.

(** X2: the version [LatestVersion] returns is one of the parsed tags of the
    store ([HasVersion] confirms it) and no parsed tag is higher in
    precedence. *)
Theorem LatestVersion_is_greatest_tag (m : Module) (latest : Version) :
  LatestVersion m = Ok (Some latest) ->
  HasVersion m latest = Ok true /\
  exists it names,
    NewReferenceNameIterator (repo m) = Ok it /\ enumerate it = Ok names /\
    In latest (omap tagVersion names) /\
    forall g, In g (omap tagVersion names) -> LessThan latest g = false.
Proof.
  unfold LatestVersion. destruct (AllVersions m) as [versions|e] eqn:Hall; [| discriminate].
  destruct versions as [|v0 vs]; [discriminate |]. simpl. intros [= ->].
  rewrite AllVersions_spec in Hall. unfold HasVersion.
  destruct (NewReferenceNameIterator (repo m)) as [it|e]; [| discriminate].
  destruct (enumerate it) as [names|e] eqn:Hen; [| discriminate].
  injection Hall as Hall.
  pose proof (sort_Slice_perm Version (fun vi vj => LessThan vj vi)
                (omap tagVersion names)) as Hp.
  pose proof (sort_Slice_sorted Version _ (omap tagVersion names)
                reverse_LessThan_StrictWeak) as Hs.
  rewrite Hall in Hp, Hs. split.
  - rewrite (HasVersion_loop_enumerated it latest names Hen). f_equal.
    rewrite (existsb_Permutation _ _ _ Hp). simpl. rewrite Equal_refl. reflexivity.
  - exists it, names. split; [reflexivity |]. split; [exact Hen |].
    apply StronglySorted_inv in Hs as [_ Hs]. rewrite List.Forall_forall in Hs. split.
    + apply (Permutation_in _ (Permutation_sym Hp)). left. reflexivity.
    + intros g Hg. apply (Permutation_in _ Hp) in Hg as [<- | Hg].
      * pose proof (Equal_refl latest) as He. unfold Equal in He. apply Z.eqb_eq in He.
        unfold LessThan. apply Z.ltb_ge. clear - He. lia.
      * apply Hs. exact Hg.
Qed.

End CatalogueAgreement.

(** ** Strings *)

(** Unfold [+:+] on a string that starts with a known character. *)
Ltac sapp :=
  repeat match goal with
    | |- context [String ?c ?a +:+ ?b] =>
        change (String c a +:+ b) with (String c (a +:+ b))
    | |- context [EmptyString +:+ ?b] => change (EmptyString +:+ b) with b
    end.

Lemma String_prefix_app (p s : string) : String.prefix p (p +:+ s) = true.
Proof.
  induction p as [|c p IH]; sapp; simpl; [destruct s; reflexivity |].
  destruct (ascii_dec c c); [exact IH | contradiction].
Qed.

Lemma String_prefix_app_l (p q s : string) :
  String.prefix (p +:+ q) s = true -> String.prefix p s = true.
Proof.
  revert s. induction p as [|c p IH]; intros s; sapp; intros H;
    [destruct s; reflexivity |].
  destruct s as [|d s]; [discriminate H |]. simpl in *.
  destruct (ascii_dec c d); [apply IH; exact H | discriminate H].
Qed.

Lemma string_app_assoc (a b c : string) : (a +:+ b) +:+ c = a +:+ (b +:+ c).
Proof. induction a as [|x a IH]; sapp; [reflexivity | f_equal; exact IH]. Qed.

Lemma string_app_nil_r (a : string) : a +:+ "" = a.
Proof. induction a as [|x a IH]; sapp; [reflexivity | f_equal; exact IH]. Qed.

Lemma string_length_app (a b : string) :
  String.length (a +:+ b) = (String.length a + String.length b)%nat.
Proof. induction a as [|x a IH]; sapp; simpl; [reflexivity | f_equal; exact IH]. Qed.

Lemma substring_all (s : string) : String.substring 0 (String.length s) s = s.
Proof. induction s as [|c s IH]; simpl; [reflexivity | f_equal; exact IH]. Qed.

Lemma substring_app_r (s p : string) :
  String.substring (String.length s) (String.length p) (s +:+ p) = p.
Proof. induction s as [|c s IH]; sapp; simpl; [apply substring_all | exact IH]. Qed.

Lemma substring_app_l (s p : string) :
  String.substring 0 (String.length s) (s +:+ p) = s.
Proof.
  induction s as [|c s IH]; sapp; simpl; [destruct p; reflexivity | f_equal; exact IH].
Qed.

Lemma HasSuffix_app (s p : string) : HasSuffix (s +:+ p) p = true.
Proof.
  unfold HasSuffix. rewrite string_length_app.
  replace (String.length s + String.length p - String.length p)%nat
    with (String.length s) by lia.
  rewrite substring_app_r, String.eqb_refl, andb_true_r.
  apply Nat.leb_le. lia.
Qed.

(** Taking the suffix [.tgz] off a name that was given it returns the name. *)
Lemma trimTgz_app (s : string) : trimTgz (s +:+ ".tgz") = s.
Proof.
  unfold trimTgz. rewrite HasSuffix_app. unfold string_upto.
  rewrite string_length_app. simpl String.length.
  replace (String.length s + 4 - 4)%nat with (String.length s) by lia.
  apply substring_app_l.
Qed.

(** ** The archive, read back *)

Lemma unpack_app (a b : list TarItem) (x : list ArchiveEntry) :
  unpack a = Some x -> unpack (a ++ b) = option_map (app x) (unpack b).
Proof.
  remember (List.length a) as n eqn:Hn. revert a x Hn.
  induction n as [n IH] using lt_wf_ind. intros a x Hn.
  destruct a as [|[h|d|] a]; try discriminate.
  - intros [= <-]. cbn [app]. clear IH. destruct (unpack b); reflexivity.
  - cbn [unpack app]. destruct (Ascii.eqb (hdr_Typeflag h) TypeDir).
    + destruct (unpack a) as [y|] eqn:Hy; [| discriminate]. intros [= <-].
      rewrite (IH (List.length a) ltac:(subst n; simpl; lia) a y eq_refl Hy).
      destruct (unpack b); reflexivity.
    + destruct a as [|[h'|d|] a]; try discriminate. cbn [app].
      destruct (Ascii.eqb (hdr_Typeflag h) TypeReg && (hdr_Size h =? Z.of_nat (List.length d)));
        [| discriminate].
      destruct (unpack a) as [y|] eqn:Hy; [| discriminate]. intros [= <-].
      rewrite (IH (List.length a) ltac:(subst n; simpl; lia) a y eq_refl Hy).
      destruct (unpack b); reflexivity.
Qed.

Lemma tar_put_unlimited tw item :
  room tw = None ->
  tar_put tw item = ({| out := out tw ++ [item]; room := None |}, None).
Proof. intros H. unfold tar_put. rewrite H. reflexivity. Qed.

Lemma tar_WriteHeader_unlimited tw hdr :
  room tw = None ->
  tar_WriteHeader tw hdr = ({| out := out tw ++ [TarHeader hdr]; room := None |}, None).
Proof. apply tar_put_unlimited. Qed.

Lemma tar_Write_unlimited tw b :
  room tw = None ->
  tar_Write tw b = ({| out := out tw ++ [TarData b]; room := None |}, None).
Proof. apply tar_put_unlimited. Qed.

(** With a writer that never fails, what [writeGitTreeTar] appends and
    returns is read off the tree alone. *)
Lemma writeGitTreeTar_unlimited m tree :
  forall prefix modTime tw,
    room tw = None ->
    exists items es,
      writeGitTreeTar m tree prefix modTime tw =
        ({| out := out tw ++ items; room := None |}, firstLostBlob tree) /\
      unpack items = Some es /\
      es `prefix_of` snapshot tree prefix /\
      (firstLostBlob tree = None -> es = snapshot tree prefix).
Proof.
  induction tree as [es0 IH] using Tree_nested_ind. intros prefix modTime.
  cbn [writeGitTreeTar snapshot firstLostBlob].
  induction es0 as [|e es0 IHes]; intros tw Hroom.
  - exists [], []. rewrite app_nil_r. destruct tw as [o r]. simpl in Hroom. subst r.
    repeat split; reflexivity.
  - apply Forall_cons in IH as [IHe IH]. specialize (IHes IH).
    destruct e as [name id ty fm sub blb]. destruct ty; try (apply IHes; exact Hroom).
    + (* a directory *)
      rewrite (tar_WriteHeader_unlimited _ _ Hroom). cbn [fst].
      match goal with |- context [TarHeader ?h] => set (hdr := h) end.
      destruct sub as [newTree|err].
      * destruct (IHe newTree eq_refl (prefix +:+ name +:+ "/") modTime
                    {| out := out tw ++ [TarHeader hdr]; room := None |} eq_refl)
          as (items1 & es1 & Hw1 & Hu1 & Hp1 & Hs1).
        rewrite Hw1. cbn [out] in *. destruct (firstLostBlob newTree) as [err|].
        -- exists (TarHeader hdr :: items1), (ADir (prefix +:+ name +:+ "/") 493 :: es1).
           split; [rewrite <- app_assoc; reflexivity |].
           split; [cbn [unpack]; simpl; rewrite Hu1; reflexivity |].
           split; [| discriminate].
           apply prefix_cons. apply prefix_app_r. exact Hp1.
        -- rewrite (Hs1 eq_refl) in *.
           destruct (IHes {| out := (out tw ++ [TarHeader hdr]) ++ items1; room := None |}
                       eq_refl) as (items2 & es2 & Hw2 & Hu2 & Hp2 & Hs2).
           cbn [out] in Hw2. rewrite Hw2.
           exists (TarHeader hdr :: items1 ++ items2),
                  (ADir (prefix +:+ name +:+ "/") 493
                   :: snapshot newTree (prefix +:+ name +:+ "/") ++ es2).
           split; [rewrite <- !app_assoc; reflexivity |].
           split; [cbn [unpack]; simpl; rewrite (unpack_app _ _ _ Hu1), Hu2; reflexivity |].
           split; [apply prefix_cons, prefix_app; exact Hp2 |].
           intros Hn. rewrite (Hs2 Hn). reflexivity.
      * destruct (IHes {| out := out tw ++ [TarHeader hdr]; room := None |} eq_refl)
          as (items2 & es2 & Hw2 & Hu2 & Hp2 & Hs2).
        cbn [out] in Hw2. rewrite Hw2.
        exists (TarHeader hdr :: items2), (ADir (prefix +:+ name +:+ "/") 493 :: es2).
        split; [rewrite <- app_assoc; reflexivity |].
        split; [cbn [unpack]; simpl; rewrite Hu2; reflexivity |].
        split; [apply prefix_cons; exact Hp2 |].
        intros Hn. rewrite (Hs2 Hn). reflexivity.
    + (* a file *)
      destruct blb as [blob|err].
      * rewrite (tar_WriteHeader_unlimited _ _ Hroom). cbn [fst].
        rewrite (tar_Write_unlimited {| out := _; room := None |} _ eq_refl). cbn [out].
        match goal with |- context [TarHeader ?h] => set (hdr := h) end.
        destruct (IHes {| out := (out tw ++ [TarHeader hdr]) ++ [TarData (Contents blob)];
                          room := None |} eq_refl)
          as (items2 & es2 & Hw2 & Hu2 & Hp2 & Hs2).
        cbn [out] in Hw2. rewrite Hw2.
        exists (TarHeader hdr :: TarData (Contents blob) :: items2),
               (AFile (prefix +:+ name) fm (Contents blob) :: es2).
        split; [rewrite <- !app_assoc; reflexivity |].
        split.
        { cbn [unpack]. simpl. unfold Blob_Size. rewrite Z.eqb_refl, Hu2. reflexivity. }
        split; [apply prefix_cons; exact Hp2 |].
        intros Hn. rewrite (Hs2 Hn). reflexivity.
      * exists [], []. rewrite app_nil_r. destruct tw as [o r]. simpl in Hroom. subst r.
        split; [reflexivity |]. split; [reflexivity |].
        split; [apply prefix_nil | discriminate].
Qed.

(** What [writeGitTreeTar] writes is appended to what the writer holds, and
    every header among it lies below [prefix]. *)
Lemma writeGitTreeTar_appends m tree :
  forall prefix modTime tw,
  exists items,
    out (fst (writeGitTreeTar m tree prefix modTime tw)) = out tw ++ items /\
    Forall (headerBelow prefix) (headers items).
Proof.
  induction tree as [es0 IH] using Tree_nested_ind. intros prefix modTime.
  cbn [writeGitTreeTar].
  induction es0 as [|e es0 IHes]; intros tw.
  - exists []. rewrite app_nil_r. split; [reflexivity | constructor].
  - apply Forall_cons in IH as [IHe IH]. specialize (IHes IH).
    destruct e as [name id ty fm sub blb]. destruct ty; try apply IHes.
    + (* a directory *)
      match goal with |- context [tar_WriteHeader tw ?h] => set (hdr := h) end.
      assert (Hdir : headerBelow prefix hdr).
      { split; [apply String_prefix_app |]. left.
        split; [reflexivity |]. split; [reflexivity |]. split; [reflexivity |].
        simpl hdr_Name. rewrite <- string_app_assoc. apply HasSuffix_app. }
      assert (H1 : exists items1,
                 out (fst (tar_WriteHeader tw hdr)) = out tw ++ items1 /\
                 Forall (headerBelow prefix) (headers items1)).
      { destruct (tar_put_out tw (TarHeader hdr)) as [Ho | Ho].
        - exists []. rewrite app_nil_r. split; [exact Ho | constructor].
        - exists [TarHeader hdr]. split; [exact Ho |]. simpl. constructor; [exact Hdir | constructor]. }
      destruct H1 as (items1 & Ho1 & Hf1). set (tw1 := fst (tar_WriteHeader tw hdr)) in *.
      destruct sub as [newTree|err].
      * destruct (IHe newTree eq_refl (prefix +:+ name +:+ "/") modTime tw1)
          as (items2 & Ho2 & Hf2).
        assert (Hf2' : Forall (headerBelow prefix) (headers items2)).
        { eapply Forall_impl; [exact Hf2 |]. intros h [Hp Hk]. split; [| exact Hk].
          unfold HasPrefix in *. eapply String_prefix_app_l. exact Hp. }
        destruct (writeGitTreeTar m newTree (prefix +:+ name +:+ "/") modTime tw1)
          as [tw2 [err|]]; cbn [fst] in Ho2 |- *.
        -- exists (items1 ++ items2). rewrite Ho2, Ho1, <- app_assoc.
           split; [reflexivity |]. rewrite headers_app. apply Forall_app. auto.
        -- destruct (IHes tw2) as (items3 & Ho3 & Hf3).
           exists (items1 ++ items2 ++ items3). rewrite Ho3, Ho2, Ho1, <- !app_assoc.
           split; [reflexivity |]. rewrite !headers_app. rewrite !Forall_app. auto.
      * destruct (IHes tw1) as (items3 & Ho3 & Hf3).
        exists (items1 ++ items3). rewrite Ho3, Ho1, <- app_assoc.
        split; [reflexivity |]. rewrite headers_app. apply Forall_app. auto.
    + (* a file *)
      destruct blb as [blob|err].
      2:{ exists []. rewrite app_nil_r. split; [reflexivity | constructor]. }
      match goal with |- context [tar_WriteHeader tw ?h] => set (hdr := h) end.
      assert (Hfile : headerBelow prefix hdr).
      { split; [apply String_prefix_app | right; reflexivity]. }
      assert (H1 : exists items1,
                 out (fst (tar_WriteHeader tw hdr)) = out tw ++ items1 /\
                 Forall (headerBelow prefix) (headers items1)).
      { destruct (tar_put_out tw (TarHeader hdr)) as [Ho | Ho].
        - exists []. rewrite app_nil_r. split; [exact Ho | constructor].
        - exists [TarHeader hdr]. split; [exact Ho |]. simpl. constructor; [exact Hfile | constructor]. }
      destruct H1 as (items1 & Ho1 & Hf1). set (tw1 := fst (tar_WriteHeader tw hdr)) in *.
      assert (H2 : exists items2,
                 out (fst (tar_Write tw1 (Contents blob))) = out tw1 ++ items2 /\
                 Forall (headerBelow prefix) (headers items2)).
      { destruct (tar_put_out tw1 (TarData (Contents blob))) as [Ho | Ho].
        - exists []. rewrite app_nil_r. split; [exact Ho | constructor].
        - exists [TarData (Contents blob)]. split; [exact Ho | constructor]. }
      destruct H2 as (items2 & Ho2 & Hf2).
      destruct (tar_Write tw1 (Contents blob)) as [tw2 [err|]]; cbn [fst] in Ho2 |- *.
      * exists (items1 ++ items2). rewrite Ho2, Ho1, <- app_assoc.
        split; [reflexivity |]. rewrite headers_app. apply Forall_app. auto.
      * destruct (IHes tw2) as (items3 & Ho3 & Hf3).
        exists (items1 ++ items2 ++ items3). rewrite Ho3, Ho2, Ho1, <- !app_assoc.
        split; [reflexivity |]. rewrite !headers_app. rewrite !Forall_app. auto.
Qed.

(** X3: whatever the writer, [writeGitTreeTar] only appends to what has been
    written, and every header it writes has a path that starts with
    [prefix]; a directory header has mode 0755, size 0 and a path ending in
    a slash, and every other header is a regular file's. *)
Theorem writeGitTreeTar_appends_headers_below_prefix
    (m : Module) (tree : Tree) (prefix : string) (modTime : Time) (tw : TarWriter) :
  exists items,
    out (fst (writeGitTreeTar m tree prefix modTime tw)) = out tw ++ items /\
    Forall (fun h =>
              HasPrefix (hdr_Name h) prefix = true /\
              ((hdr_Typeflag h = TypeDir /\ hdr_Mode h = 493 /\ hdr_Size h = 0 /\
                HasSuffix (hdr_Name h) "/" = true) \/
               hdr_Typeflag h = TypeReg))
           (headers items).
Proof.
  destruct (writeGitTreeTar_appends m tree prefix modTime tw) as (items & Ho & Hf).
  exists items. split; [exact Ho |].
  eapply Forall_impl; [exact Hf |]. intros h Hh. exact Hh.
Qed.

Section ArchiveRoundTrip.
Context `{VL : VersionLib}.

(** X4: when [WriteVersionTar], on a writer that never fails, returns no
    error, the version resolves to a commit whose root tree can be read, and
    the archive is the trailer preceded by a stream that unpacks to exactly
    the directories and files of that tree: the same paths, modes and
    contents, each directory before what it holds, links left out (a
    directory whose tree cannot be read comes out empty). *)
Theorem WriteVersionTar_round_trip (m : Module) (v : Version) (tw : TarWriter) :
  WriteVersionTar m v None = (tw, None) ->
  exists commit rootTree items,
    getVersionCommit m v = Ok commit /\
    commit_Tree commit = Ok rootTree /\
    out tw = items ++ [TarTrailer] /\
    unpack items = Some (snapshot rootTree "").
Proof.
  unfold WriteVersionTar.
  destruct (getVersionCommit m v) as [commit|e]; [| discriminate].
  destruct (commit_Tree commit) as [rootTree|e] eqn:Ht; [| discriminate].
  destruct (writeGitTreeTar_unlimited m rootTree "" (When (Committer commit))
              (NewWriter None) eq_refl) as (items & es & Hw & Hu & _ & Hs).
  rewrite Hw. intros [= <- Hn]. exists commit, rootTree, items.
  split; [reflexivity |]. split; [exact Ht |]. split; [reflexivity |].
  rewrite Hu, (Hs Hn). reflexivity.
Qed.

(** With a writer that never fails, what [writeGitTreeTar] has appended
    when it returns unpacks to the entries before the first lost file. *)
Lemma writeGitTreeTar_written m tree :
  forall prefix modTime tw,
    room tw = None ->
    exists items,
      writeGitTreeTar m tree prefix modTime tw =
        ({| out := out tw ++ items; room := None |}, firstLostBlob tree) /\
      unpack items = Some (written tree prefix).
Proof.
  induction tree as [es0 IH] using Tree_nested_ind. intros prefix modTime.
  cbn [writeGitTreeTar written firstLostBlob].
  induction es0 as [|e es0 IHes]; intros tw Hroom.
  - exists []. rewrite app_nil_r. destruct tw as [o r]. simpl in Hroom. subst r.
    split; reflexivity.
  - apply Forall_cons in IH as [IHe IH]. specialize (IHes IH).
    destruct e as [name id ty fm sub blb]. destruct ty; try (apply IHes; exact Hroom).
    + (* a directory *)
      rewrite (tar_WriteHeader_unlimited _ _ Hroom). cbn [fst].
      match goal with |- context [TarHeader ?h] => set (hdr := h) end.
      destruct sub as [newTree|err].
      * destruct (IHe newTree eq_refl (prefix +:+ name +:+ "/") modTime
                    {| out := out tw ++ [TarHeader hdr]; room := None |} eq_refl)
          as (items1 & Hw1 & Hu1).
        rewrite Hw1. cbn [out] in *. destruct (firstLostBlob newTree) as [err|].
        -- exists (TarHeader hdr :: items1).
           split; [rewrite <- app_assoc; reflexivity |].
           cbn [unpack]. simpl. rewrite Hu1, app_nil_r. reflexivity.
        -- destruct (IHes {| out := (out tw ++ [TarHeader hdr]) ++ items1; room := None |}
                       eq_refl) as (items2 & Hw2 & Hu2).
           cbn [out] in Hw2. rewrite Hw2.
           exists (TarHeader hdr :: items1 ++ items2).
           split; [rewrite <- !app_assoc; reflexivity |].
           cbn [unpack]. simpl. rewrite (unpack_app _ _ _ Hu1), Hu2. reflexivity.
      * destruct (IHes {| out := out tw ++ [TarHeader hdr]; room := None |} eq_refl)
          as (items2 & Hw2 & Hu2).
        cbn [out] in Hw2. rewrite Hw2.
        exists (TarHeader hdr :: items2).
        split; [rewrite <- app_assoc; reflexivity |].
        cbn [unpack]. simpl. rewrite Hu2. reflexivity.
    + (* a file *)
      destruct blb as [blob|err].
      * rewrite (tar_WriteHeader_unlimited _ _ Hroom). cbn [fst].
        rewrite (tar_Write_unlimited {| out := _; room := None |} _ eq_refl). cbn [out].
        match goal with |- context [TarHeader ?h] => set (hdr := h) end.
        destruct (IHes {| out := (out tw ++ [TarHeader hdr]) ++ [TarData (Contents blob)];
                          room := None |} eq_refl)
          as (items2 & Hw2 & Hu2).
        cbn [out] in Hw2. rewrite Hw2.
        exists (TarHeader hdr :: TarData (Contents blob) :: items2).
        split; [rewrite <- !app_assoc; reflexivity |].
        cbn [unpack]. simpl. unfold Blob_Size. rewrite Z.eqb_refl, Hu2. reflexivity.
      * exists []. rewrite app_nil_r. destruct tw as [o r]. simpl in Hroom. subst r.
        split; reflexivity.
Qed.

(** The entries before the first lost file are among the directories and
    files of the tree, from the start, and all of them if no file is lost. *)
Lemma written_snapshot (m : Module) tree prefix :
  written tree prefix `prefix_of` snapshot tree prefix /\
  (firstLostBlob tree = None -> written tree prefix = snapshot tree prefix).
Proof.
  destruct (writeGitTreeTar_written m tree prefix 0 (NewWriter None) eq_refl)
    as (items & Hw & Hu).
  destruct (writeGitTreeTar_unlimited m tree prefix 0 (NewWriter None) eq_refl)
    as (items' & es & Hw' & Hu' & Hp & Hs).
  rewrite Hw in Hw'. injection Hw' as E. cbn [out NewWriter app] in E. subst items'.
  rewrite Hu in Hu'. injection Hu' as <-. split; assumption.
Qed.

(** X5: on a writer that never fails, the archive [WriteVersionTar] leaves
    behind always ends with the trailer.  When the version does not resolve
    or the root tree cannot be read, that error is returned and the archive
    holds nothing else; otherwise the error returned is the lookup error of
    the first file whose blob cannot be read (none if there is no such
    file), and what precedes the trailer unpacks to exactly the entries of
    the tree before that file: nothing of the tree is written after it, and
    nothing before it is missing. *)
Theorem WriteVersionTar_failure_profile (m : Module) (v : Version) :
  exists items,
    out (fst (WriteVersionTar m v None)) = items ++ [TarTrailer] /\
    match getVersionCommit m v with
    | Err err => snd (WriteVersionTar m v None) = Some err /\ items = []
    | Ok commit =>
        match commit_Tree commit with
        | Err err => snd (WriteVersionTar m v None) = Some err /\ items = []
        | Ok rootTree =>
            snd (WriteVersionTar m v None) = firstLostBlob rootTree /\
            unpack items = Some (written rootTree "") /\
            written rootTree "" `prefix_of` snapshot rootTree "" /\
            (firstLostBlob rootTree = None -> written rootTree "" = snapshot rootTree "")
        end
    end.
Proof.
  unfold WriteVersionTar.
  destruct (getVersionCommit m v) as [commit|e];
    [| exists []; repeat split; reflexivity].
  destruct (commit_Tree commit) as [rootTree|e];
    [| exists []; repeat split; reflexivity].
  destruct (writeGitTreeTar_written m rootTree "" (When (Committer commit))
              (NewWriter None) eq_refl) as (items & Hw & Hu).
  rewrite Hw. exists items. split; [reflexivity |]. split; [reflexivity |].
  split; [exact Hu |]. exact (written_snapshot m rootTree "").
Qed.

End ArchiveRoundTrip.

(** ** The other routes *)

Section RouteFacts.
Context `{VL : VersionLib} `{SL : SortLib} `{MX : MuxLib}.
Variable OpenRepository : string -> Result Repository.
Variable hostname : string.
Variable modules : Modules.

Lemma untouched_new : untouched newResponseWriter.
Proof. repeat split. Qed.

Lemma untouched_log wr e : untouched wr -> untouched (log_Printf wr e).
Proof. exact id. Qed.

Lemma finish_untouched_WriteHeader wr code :
  untouched wr ->
  finish (WriteHeader wr code) = {| Status := code; RespHeader := ∅; RespBody := [] |}.
Proof.
  intros (Hh & Hs & Hb). unfold finish, WriteHeader. rewrite Hs. simpl.
  rewrite Hh, Hb. reflexivity.
Qed.

Lemma finish_untouched_writeJSON wr doc :
  untouched wr ->
  finish (writeJSON wr doc) =
  {| Status := 200; RespHeader := ∅; RespBody := [ChunkJSON doc] |}.
Proof.
  intros (Hh & Hs & Hb). unfold finish, writeJSON, json_MarshalIndent, Write, WriteHeader.
  rewrite Hs. simpl. rewrite Hh, Hb. reflexivity.
Qed.

(** The loop over the providers keeps the response untouched, collects the
    summaries of the providers that have one, and logs the failures. *)
Lemma listProviders_fold namespace name kvs wr mods :
  untouched wr ->
  exists wr',
    fold_left (listProviders_step OpenRepository namespace name) kvs (wr, mods) =
      (wr', mods ++ omap (providerSummary OpenRepository namespace name) kvs) /\
    untouched wr' /\
    logged wr' = logged wr ++ omap (providerLog OpenRepository) kvs.
Proof.
  revert wr mods. induction kvs as [|[provider cfg] kvs IH]; intros wr mods Hu.
  - exists wr. simpl. rewrite !app_nil_r. auto.
  - cbn [fold_left listProviders_step omap list_omap].
    unfold providerSummary at 1, providerLog at 1. cbn [fst snd].
    destruct (Load OpenRepository (GitDir cfg)) as [mdl|].
    + destruct (LatestVersion mdl) as [[latest|]|err].
      * destruct (IH wr (mods ++ [summary namespace name provider latest]) Hu)
          as (wr' & Hf & Hu' & Hl).
        exists wr'. rewrite Hf, <- app_assoc. auto.
      * exact (IH wr mods Hu).
      * destruct (IH _ mods (untouched_log wr (LogLatestFailed (DeclRange cfg) err) Hu))
          as (wr' & Hf & Hu' & Hl).
        exists wr'. split; [exact Hf |]. split; [exact Hu' |].
        rewrite Hl. cbn [logged log_Printf]. rewrite <- app_assoc. reflexivity.
    + destruct (IH _ mods (untouched_log wr (LogOpenFailed (GitDir cfg) (DeclRange cfg)) Hu))
        as (wr' & Hf & Hu' & Hl).
      exists wr'. split; [exact Hf |]. split; [exact Hu' |].
      rewrite Hl. cbn [logged log_Printf]. rewrite <- app_assoc. reflexivity.
Qed.

Lemma logged_writeJSON wr doc : logged (writeJSON wr doc) = logged wr.
Proof.
  unfold writeJSON, json_MarshalIndent, Write, WriteHeader.
  destruct (sent wr); reflexivity.
Qed.

(** X6: a request that one of the six routes takes and whose path names a
    coordinate that is not in the module map is answered with the bare 404,
    whatever the path goes on to say and whatever the repositories hold;
    nothing is logged. *)
Theorem unconfigured_coordinate_is_not_found (req : Request) (segs : list string) :
  routed req ->
  path_segments (URL_Path req) = Some segs ->
  unconfigured modules segs ->
  makeHandler OpenRepository hostname modules req = WriteHeader newResponseWriter 404.
Proof.
  intros Hr Hp Hu. unfold routed in Hr. unfold makeHandler. rewrite Hp in *.
  destruct segs as [|namespace [|name [|provider rest]]]; try (destruct Hr; fail).
  - (* two segments *)
    unfold handleListProviders. cbn [unconfigured] in Hu.
    destruct (modules !! namespace) as [byNamespace|]; [| reflexivity].
    rewrite Hu. reflexivity.
  - (* three segments or more *)
    cbn [unconfigured] in Hu. unfold Lookup in Hu.
    assert (H3 : handleLatest OpenRepository modules newResponseWriter
                   namespace name provider = WriteHeader newResponseWriter 404).
    { unfold handleLatest. destruct (modules !! namespace) as [byNamespace|]; [| reflexivity].
      destruct (byNamespace !! name) as [byName|]; [| reflexivity]. rewrite Hu. reflexivity. }
    assert (HV : handleVersions OpenRepository hostname modules newResponseWriter
                   namespace name provider = WriteHeader newResponseWriter 404).
    { unfold handleVersions. destruct (modules !! namespace) as [byNamespace|]; [| reflexivity].
      destruct (byNamespace !! name) as [byName|]; [| reflexivity]. rewrite Hu. reflexivity. }
    assert (HE : forall v, handleExactVersion OpenRepository modules newResponseWriter
                   namespace name provider v = WriteHeader newResponseWriter 404).
    { intros v. unfold handleExactVersion.
      destruct (modules !! namespace) as [byNamespace|]; [| reflexivity].
      destruct (byNamespace !! name) as [byName|]; [| reflexivity]. rewrite Hu. reflexivity. }
    assert (HD : forall v, handleDownload OpenRepository modules newResponseWriter
                   namespace name provider v = WriteHeader newResponseWriter 404).
    { intros v. unfold handleDownload.
      destruct (modules !! namespace) as [byNamespace|]; [| reflexivity].
      destruct (byNamespace !! name) as [byName|]; [| reflexivity]. rewrite Hu. reflexivity. }
    assert (HA : forall room v t, handleDownloadArchive OpenRepository modules
                   newResponseWriter room namespace name provider v t
                   = WriteHeader newResponseWriter 404).
    { intros room v t. unfold handleDownloadArchive.
      destruct (modules !! namespace) as [byNamespace|]; [| reflexivity].
      destruct (byNamespace !! name) as [byName|]; [| reflexivity]. rewrite Hu. reflexivity. }
    destruct rest as [|version [|download [|treeId [|]]]]; try (destruct Hr; fail).
    + exact H3.
    + destruct (String.eqb version "versions"); [exact HV | apply HE].
    + subst download. cbn [String.eqb Ascii.eqb Bool.eqb]. apply HD.
    + subst download. cbn [String.eqb Ascii.eqb Bool.eqb]. apply HA.
Qed.

(** Settle one outcome of a route: its status class, and its log when the
    status is 500. *)
Ltac outcome :=
  split;
  [ first [ left; reflexivity | right; left; reflexivity | right; right; reflexivity ]
  | first [ intros H; lazy in H; discriminate H | intros _; lazy; discriminate ] ].

Lemma handleListProviders_outcome namespace name :
  let wr := handleListProviders OpenRepository modules newResponseWriter namespace name in
  (Status (finish wr) = 200 \/ finish wr = NotFound \/ finish wr = ServerError) /\
  (Status (finish wr) = 500 -> logged wr <> []).
Proof.
  unfold handleListProviders.
  destruct (modules !! namespace) as [byNamespace|]; [| outcome].
  destruct (byNamespace !! name) as [byName|]; [| outcome].
  destruct (listProviders_fold namespace name (map_to_list byName) newResponseWriter []
              untouched_new) as (wr' & -> & Hu & _).
  cbv zeta. rewrite (finish_untouched_writeJSON _ _ Hu). cbn [Status].
  split; [left; reflexivity | discriminate].
Qed.

Lemma handleLatest_outcome namespace name provider :
  let wr := handleLatest OpenRepository modules newResponseWriter namespace name provider in
  (Status (finish wr) = 200 \/ finish wr = NotFound \/ finish wr = ServerError) /\
  (Status (finish wr) = 500 -> logged wr <> []).
Proof.
  unfold handleLatest.
  destruct (modules !! namespace) as [byNamespace|]; [| outcome].
  destruct (byNamespace !! name) as [byName|]; [| outcome].
  destruct (byName !! provider) as [cfg|]; [| outcome].
  destruct (Load OpenRepository (GitDir cfg)) as [mdl|]; [| outcome].
  destruct (LatestVersion mdl) as [[latest|]|err]; outcome.
Qed.

Lemma handleVersions_outcome namespace name provider :
  let wr := handleVersions OpenRepository hostname modules newResponseWriter
              namespace name provider in
  (Status (finish wr) = 200 \/ finish wr = NotFound \/ finish wr = ServerError) /\
  (Status (finish wr) = 500 -> logged wr <> []).
Proof.
  unfold handleVersions.
  destruct (modules !! namespace) as [byNamespace|]; [| outcome].
  destruct (byNamespace !! name) as [byName|]; [| outcome].
  destruct (byName !! provider) as [cfg|]; [| outcome].
  destruct (Load OpenRepository (GitDir cfg)) as [mdl|]; [| outcome].
  destruct (AllVersions mdl) as [versions|err]; outcome.
Qed.

Lemma handleExactVersion_status namespace name provider versionStr :
  let wr := handleExactVersion OpenRepository modules newResponseWriter
              namespace name provider versionStr in
  (Status (finish wr) = 200 \/ finish wr = NotFound \/ finish wr = ServerError) /\
  (Status (finish wr) = 500 -> logged wr <> []).
Proof.
  unfold handleExactVersion.
  destruct (modules !! namespace) as [byNamespace|]; [| outcome].
  destruct (byNamespace !! name) as [byName|]; [| outcome].
  destruct (byName !! provider) as [cfg|]; [| outcome].
  destruct (NewVersion versionStr) as [v|]; [| outcome].
  destruct (Load OpenRepository (GitDir cfg)) as [mdl|]; [| outcome].
  destruct (HasVersion mdl v) as [[|]|err]; outcome.
Qed.

Lemma handleDownload_outcome namespace name provider versionStr :
  let wr := handleDownload OpenRepository modules newResponseWriter
              namespace name provider versionStr in
  (Status (finish wr) = 200 \/ finish wr = NotFound \/ finish wr = ServerError) /\
  (Status (finish wr) = 500 -> logged wr <> []).
Proof.
  unfold handleDownload.
  destruct (modules !! namespace) as [byNamespace|]; [| outcome].
  destruct (byNamespace !! name) as [byName|]; [| outcome].
  destruct (byName !! provider) as [cfg|]; [| outcome].
  destruct (NewVersion versionStr) as [v|]; [| outcome].
  destruct (Load OpenRepository (GitDir cfg)) as [mdl|]; [| outcome].
  destruct (HasVersion mdl v) as [[|]|err]; [| outcome | outcome].
  cbn [negb]. destruct (GetVersionTreeId mdl v) as [treeId|err]; outcome.
Qed.

Lemma handleDownloadArchive_outcome room namespace name provider versionStr givenTreeId :
  let wr := handleDownloadArchive OpenRepository modules newResponseWriter room
              namespace name provider versionStr givenTreeId in
  (Status (finish wr) = 200 \/ finish wr = NotFound \/ finish wr = ServerError) /\
  (Status (finish wr) = 500 -> logged wr <> []).
Proof.
  unfold handleDownloadArchive.
  destruct (modules !! namespace) as [byNamespace|]; [| outcome].
  destruct (byNamespace !! name) as [byName|]; [| outcome].
  destruct (byName !! provider) as [cfg|]; [| outcome].
  destruct (NewVersion versionStr) as [v|]; [| outcome].
  destruct (Load OpenRepository (GitDir cfg)) as [mdl|]; [| outcome].
  destruct (HasVersion mdl v) as [[|]|err]; [| outcome | outcome].
  cbn [negb]. destruct (GetVersionTreeId mdl v) as [treeId|err]; [| outcome].
  fold (trimTgz givenTreeId).
  destruct (String.eqb (trimTgz givenTreeId) treeId); cbn [negb]; [| outcome].
  destruct (WriteVersionTar mdl v room) as [zw err]. outcome.
Qed.

(** X7: whatever request one of the six routes takes, the answer is a 200,
    the bare 404 or the bare 500: no route sends another status, and an
    answer other than 200 carries no header and no body.  A 500 is never
    sent without a log entry. *)
Theorem every_answer_is_200_or_bare_404_or_bare_500 (req : Request) :
  routed req ->
  let wr := makeHandler OpenRepository hostname modules req in
  (Status (finish wr) = 200 \/ finish wr = NotFound \/ finish wr = ServerError) /\
  (Status (finish wr) = 500 -> logged wr <> []).
Proof.
  unfold routed, makeHandler.
  destruct (path_segments (URL_Path req)) as [segs|]; [| intros []].
  destruct segs as [|namespace [|name [|provider [|version [|download [|treeId [|]]]]]]];
    intros Hr; try (destruct Hr; fail).
  - apply handleListProviders_outcome.
  - apply handleLatest_outcome.
  - destruct (String.eqb version "versions");
      [apply handleVersions_outcome | apply handleExactVersion_status].
  - subst download. cbn [String.eqb Ascii.eqb Bool.eqb]. apply handleDownload_outcome.
  - subst download. cbn [String.eqb Ascii.eqb Bool.eqb].
    apply handleDownloadArchive_outcome.
Qed.

Lemma handleLatest_resolved namespace name provider cfg m :
  Lookup modules namespace name provider = Some cfg ->
  Load OpenRepository (GitDir cfg) = Some m ->
  finish (handleLatest OpenRepository modules newResponseWriter namespace name provider) =
  match LatestVersion m with
  | Err _ => ServerError
  | Ok None => NotFound
  | Ok (Some latest) =>
      {| Status := 200; RespHeader := ∅;
         RespBody := [ChunkJSON (json_of_apiModule (summary namespace name provider latest))] |}
  end.
Proof.
  intros Hl Hload. apply Lookup_Some in Hl as (byNamespace & byName & H1 & H2 & H3).
  unfold handleLatest. rewrite H1, H2, H3, Hload.
  destruct (LatestVersion m) as [[latest|]|err]; reflexivity.
Qed.

Lemma handleVersions_resolved namespace name provider cfg m :
  Lookup modules namespace name provider = Some cfg ->
  Load OpenRepository (GitDir cfg) = Some m ->
  finish (handleVersions OpenRepository hostname modules newResponseWriter
            namespace name provider) =
  match AllVersions m with
  | Err _ => ServerError
  | Ok versions =>
      {| Status := 200; RespHeader := ∅;
         RespBody := [ChunkJSON (versionsDoc hostname namespace name provider versions)] |}
  end.
Proof.
  intros Hl Hload. apply Lookup_Some in Hl as (byNamespace & byName & H1 & H2 & H3).
  unfold handleVersions. rewrite H1, H2, H3, Hload.
  destruct (AllVersions m) as [versions|err]; reflexivity.
Qed.

Lemma makeHandler_versions req namespace name provider :
  path_segments (URL_Path req) = Some [namespace; name; provider; "versions"] ->
  makeHandler OpenRepository hostname modules req =
  handleVersions OpenRepository hostname modules newResponseWriter namespace name provider.
Proof. intros Hp. unfold makeHandler. rewrite Hp. reflexivity. Qed.

(** X8: for a configured module whose repository opens, the latest-version
    route and the versions route answer from the same catalogue.  When the
    catalogue cannot be read both answer the bare 500; when it is empty the
    versions route still answers 200, with an empty list, while the
    latest-version route answers the bare 404; otherwise the version the
    latest-version route reports is the first one the versions route
    lists. *)
Theorem latest_route_reports_head_of_versions_route (reqLatest reqVersions : Request)
    (namespace name provider : string) (cfg : ModuleConfig) (m : Module) :
  path_segments (URL_Path reqLatest) = Some [namespace; name; provider] ->
  path_segments (URL_Path reqVersions) = Some [namespace; name; provider; "versions"] ->
  Lookup modules namespace name provider = Some cfg ->
  Load OpenRepository (GitDir cfg) = Some m ->
  match AllVersions m with
  | Err _ =>
      ServeHTTP OpenRepository hostname modules reqLatest = ServerError /\
      ServeHTTP OpenRepository hostname modules reqVersions = ServerError
  | Ok versions =>
      ServeHTTP OpenRepository hostname modules reqVersions =
        {| Status := 200; RespHeader := ∅;
           RespBody := [ChunkJSON (versionsDoc hostname namespace name provider versions)] |} /\
      ServeHTTP OpenRepository hostname modules reqLatest =
        match versions with
        | [] => NotFound
        | latest :: _ =>
            {| Status := 200; RespHeader := ∅;
               RespBody := [ChunkJSON (json_of_apiModule
                                         (summary namespace name provider latest))] |}
        end
  end.
Proof.
  intros HpL HpV Hl Hload.
  assert (HL : ServeHTTP OpenRepository hostname modules reqLatest =
               finish (handleLatest OpenRepository modules newResponseWriter
                         namespace name provider)).
  { unfold ServeHTTP, makeHandler. rewrite HpL. reflexivity. }
  assert (HV : ServeHTTP OpenRepository hostname modules reqVersions =
               finish (handleVersions OpenRepository hostname modules newResponseWriter
                         namespace name provider)).
  { unfold ServeHTTP. rewrite (makeHandler_versions _ _ _ _ HpV). reflexivity. }
  rewrite HL, HV, (handleLatest_resolved _ _ _ _ _ Hl Hload),
    (handleVersions_resolved _ _ _ _ _ Hl Hload).
  unfold LatestVersion.
  destruct (AllVersions m) as [[|latest rest]|err]; auto.
Qed.

(** X9: the list of a configured module's providers is always answered 200,
    whatever happens to the repositories; it holds a summary for exactly the
    providers whose repository opens and has a latest version, and that
    summary carries the latest version.  The log holds an entry for exactly
    the providers whose repository cannot be opened or whose latest version
    cannot be read, naming the declaration; a provider without versions
    is passed over without one. *)
Theorem list_providers_route (req : Request) (namespace name : string)
    (byNamespace : gmap string (gmap string ModuleConfig))
    (byName : gmap string ModuleConfig) :
  path_segments (URL_Path req) = Some [namespace; name] ->
  modules !! namespace = Some byNamespace ->
  byNamespace !! name = Some byName ->
  exists mods,
    ServeHTTP OpenRepository hostname modules req =
      {| Status := 200; RespHeader := ∅;
         RespBody := [ChunkJSON (json_of_apiModuleListResponse mods)] |} /\
    (forall a, In a mods <->
      exists provider cfg m latest,
        byName !! provider = Some cfg /\
        Load OpenRepository (GitDir cfg) = Some m /\
        LatestVersion m = Ok (Some latest) /\
        a = summary namespace name provider latest) /\
    (forall e, In e (logged (makeHandler OpenRepository hostname modules req)) <->
      exists provider cfg,
        byName !! provider = Some cfg /\
        ((Load OpenRepository (GitDir cfg) = None /\
          e = LogOpenFailed (GitDir cfg) (DeclRange cfg)) \/
         (exists m err,
            Load OpenRepository (GitDir cfg) = Some m /\
            LatestVersion m = Err err /\
            e = LogLatestFailed (DeclRange cfg) err))).
Proof.
  intros Hp H1 H2.
  exists (omap (providerSummary OpenRepository namespace name) (map_to_list byName)).
  assert (Hm : makeHandler OpenRepository hostname modules req =
               handleListProviders OpenRepository modules newResponseWriter namespace name).
  { unfold makeHandler. rewrite Hp. reflexivity. }
  unfold ServeHTTP. rewrite Hm. unfold handleListProviders. rewrite H1, H2.
  destruct (listProviders_fold namespace name (map_to_list byName) newResponseWriter []
              untouched_new) as (wr' & -> & Hu & Hl).
  cbv zeta. cbn [app]. split; [exact (finish_untouched_writeJSON _ _ Hu) |]. split.
  - intros a. rewrite <- list_elem_of_In, list_elem_of_omap. split.
    + intros ([provider cfg] & Hin & Hs). apply elem_of_map_to_list in Hin.
      unfold providerSummary in Hs. cbn [fst snd] in Hs.
      destruct (Load OpenRepository (GitDir cfg)) as [m|] eqn:Hload; [| discriminate].
      destruct (LatestVersion m) as [[latest|]|err] eqn:Hlat; try discriminate.
      injection Hs as <-. exists provider, cfg, m, latest. auto.
    + intros (provider & cfg & m & latest & Hin & Hload & Hlat & ->).
      exists (provider, cfg). split; [apply elem_of_map_to_list; exact Hin |].
      unfold providerSummary. cbn [fst snd]. rewrite Hload, Hlat. reflexivity.
  - intros e. rewrite logged_writeJSON, Hl. cbn [logged newResponseWriter app].
    rewrite <- list_elem_of_In, list_elem_of_omap. split.
    + intros ([provider cfg] & Hin & Hs). apply elem_of_map_to_list in Hin.
      exists provider, cfg. split; [exact Hin |].
      unfold providerLog in Hs. cbn [fst snd] in Hs.
      destruct (Load OpenRepository (GitDir cfg)) as [m|] eqn:Hload.
      * destruct (LatestVersion m) as [latest|err] eqn:Hlat; [discriminate |].
        injection Hs as <-. right. exists m, err. auto.
      * injection Hs as <-. left. auto.
    + intros (provider & cfg & Hin & [[Hload ->] | (m & err & Hload & Hlat & ->)]);
        exists (provider, cfg); (split; [apply elem_of_map_to_list; exact Hin |]);
        unfold providerLog; cbn [fst snd]; rewrite Hload; [reflexivity |].
      rewrite Hlat. reflexivity.
Qed.

End RouteFacts.

Section RouteOrder.
Context `{VL : VersionLib} `{SL : SortLib} `{MX : MuxLib}.
Context {VLaws : VersionLaws} {SLaws : SortLaws}.
Variable OpenRepository : string -> Result Repository.
Variable hostname : string.
Variable modules : Modules.

(** X10: for a configured module whose repository opens and whose tags can
    be enumerated, the versions route answers 200 with one document: the
    module's source address and the canonical renderings of the parsed tags,
    each tag once, latest first.  A repository without version tags gives an
    empty list, not a 404. *)
Theorem versions_route_lists_every_tag_latest_first (req : Request)
    (namespace name provider : string) (cfg : ModuleConfig) (m : Module)
    (it : list (Result string)) (names : list string) :
  path_segments (URL_Path req) = Some [namespace; name; provider; "versions"] ->
  Lookup modules namespace name provider = Some cfg ->
  Load OpenRepository (GitDir cfg) = Some m ->
  NewReferenceNameIterator (repo m) = Ok it ->
  enumerate it = Ok names ->
  exists versions,
    Permutation (omap tagVersion names) versions /\
    Descending versions /\
    (omap tagVersion names = [] -> versions = []) /\
    ServeHTTP OpenRepository hostname modules req =
      {| Status := 200; RespHeader := ∅;
         RespBody := [ChunkJSON (JObject [ ("modules", JArray [ JObject
           [ ("source", JString (hostname +:+ "/" +:+ namespace +:+ "/" +:+ name
                                   +:+ "/" +:+ provider));
             ("versions", JArray (map (fun v =>
                JObject [ ("version", JString (Version_String v)) ]) versions)) ] ]) ])] |}.
Proof.
  intros Hp Hl Hload Hit Hen.
  exists (sort_Slice (fun vi vj => LessThan vj vi) (omap tagVersion names)).
  split; [apply sort_Slice_perm |]. split.
  { exact (sort_Slice_sorted Version _ (omap tagVersion names) reverse_LessThan_StrictWeak). }
  split.
  { intros E. rewrite E.
    apply Permutation_nil. apply sort_Slice_perm. }
  unfold ServeHTTP. rewrite (makeHandler_versions _ _ _ _ _ _ _ Hp).
  rewrite (handleVersions_resolved _ _ _ _ _ _ _ _ Hl Hload).
  rewrite AllVersions_spec, Hit, Hen. reflexivity.
Qed.

End RouteOrder.

(** ** Paths *)

Lemma Split_from_app cur a b :
  Split_from cur (a +:+ String "/" b) "/" = Split_from cur a "/" ++ Split_from "" b "/".
Proof.
  revert cur. induction a as [|c a IH]; intros cur; sapp.
  - change ("" +:+ String "/" b) with (String "/"%char b). reflexivity.
  - cbn [Split_from]. destruct (Ascii.eqb c "/"); [| apply IH].
    cbn [app]. f_equal. apply IH.
Qed.

Lemma Split_from_noSlash cur s :
  noSlash s = true -> Split_from cur s "/" = [cur +:+ s].
Proof.
  revert cur. induction s as [|c s IH]; intros cur Hs.
  - rewrite string_app_nil_r. reflexivity.
  - cbn [noSlash] in Hs. apply andb_prop in Hs as [Hc Hs].
    cbn [Split_from]. destruct (Ascii.eqb c "/"); [discriminate |].
    rewrite (IH _ Hs), string_app_assoc. reflexivity.
Qed.

Lemma noSlash_app a b : noSlash (a +:+ b) = noSlash a && noSlash b.
Proof.
  induction a as [|c a IH]; [reflexivity |]. sapp. cbn [noSlash].
  rewrite IH, andb_assoc. reflexivity.
Qed.

(** One more segment at the end of a path. *)
Lemma path_segments_snoc path segs seg :
  path_segments path = Some segs ->
  seg <> "" -> seg <> "." -> seg <> ".." -> noSlash seg = true ->
  path_segments (path +:+ "/" +:+ seg) = Some (segs ++ [seg]).
Proof.
  intros Hp Hne Hd Hdd Hs. destruct path as [|c rest]; [discriminate |].
  sapp. unfold path_segments in *.
  destruct (Ascii.eqb c "/"); [| discriminate].
  change ("/" +:+ seg) with (String "/"%char seg).
  unfold Split in *. rewrite Split_from_app, (Split_from_noSlash _ _ Hs).
  change ("" +:+ seg) with seg.
  rewrite forallb_app.
  destruct (forallb _ (Split_from "" rest "/")); [| discriminate].
  injection Hp as <-. cbn [forallb andb].
  destruct (String.eqb_spec seg ""); [contradiction |].
  destruct (String.eqb_spec seg "."); [contradiction |].
  destruct (String.eqb_spec seg ".."); [contradiction | reflexivity].
Qed.

(** ** Downloads *)

Section DownloadFacts.
Context `{VL : VersionLib} `{SL : SortLib} `{MX : MuxLib}.
Variable OpenRepository : string -> Result Repository.
Variable hostname : string.
Variable modules : Modules.

Lemma getVersionCommit_unresolved m v err :
  References_Lookup (repo m) ("refs/tags/v" +:+ Version_String v) = Err err ->
  getVersionCommit m v = Err err.
Proof. intros H. unfold getVersionCommit. rewrite H. reflexivity. Qed.

(** X11: a version exists as soon as some tag is equal to it in precedence,
    but it is resolved through the one tag named by its canonical rendering.
    When that tag is missing, the exact-version route still answers 200 for
    the version while both download routes answer the bare 404. *)
Theorem version_without_canonical_tag_is_listed_but_not_served
    (reqExact reqLocation reqArchive : Request)
    (namespace name provider versionStr givenTreeId : string)
    (cfg : ModuleConfig) (v : Version) (m : Module) (err : error) :
  path_segments (URL_Path reqExact) = Some [namespace; name; provider; versionStr] ->
  versionStr <> "versions" ->
  path_segments (URL_Path reqLocation) =
    Some [namespace; name; provider; versionStr; "download"] ->
  path_segments (URL_Path reqArchive) =
    Some [namespace; name; provider; versionStr; "download"; givenTreeId] ->
  Lookup modules namespace name provider = Some cfg ->
  NewVersion versionStr = Ok v ->
  Load OpenRepository (GitDir cfg) = Some m ->
  tagged m v ->
  References_Lookup (repo m) ("refs/tags/v" +:+ Version_String v) = Err err ->
  Status (ServeHTTP OpenRepository hostname modules reqExact) = 200 /\
  ServeHTTP OpenRepository hostname modules reqLocation = NotFound /\
  ServeHTTP OpenRepository hostname modules reqArchive = NotFound.
Proof.
  intros HpE Hne HpL HpA Hl Hv Hload Ht Href.
  apply HasVersion_of_tagged in Ht.
  assert (Hid : GetVersionTreeId m v = Err err).
  { unfold GetVersionTreeId. rewrite (getVersionCommit_unresolved _ _ _ Href). reflexivity. }
  apply Lookup_Some in Hl as (byNamespace & byName & H1 & H2 & H3).
  unfold ServeHTTP. split; [| split].
  - rewrite (makeHandler_exact _ _ _ _ _ _ _ _ HpE Hne).
    unfold handleExactVersion. rewrite H1, H2, H3, Hv, Hload, Ht. reflexivity.
  - unfold makeHandler. rewrite HpL. cbn [String.eqb Ascii.eqb Bool.eqb].
    unfold handleDownload. rewrite H1, H2, H3, Hv, Hload, Ht, Hid. reflexivity.
  - unfold makeHandler. rewrite HpA. cbn [String.eqb Ascii.eqb Bool.eqb].
    unfold handleDownloadArchive. rewrite H1, H2, H3, Hv, Hload, Ht, Hid. reflexivity.
Qed.

(** X12: the link the location route hands out leads to the archive.  For a
    version whose tree id is a path segment (not empty, no slash), the
    location route sets [X-Terraform-Get] to [./download/] followed by a
    file name, and a request for the location's path followed by a slash
    and that file name is answered 200 with the gzip-compressed archive of
    the version. *)
Theorem location_link_leads_to_archive (reqLocation : Request)
    (namespace name provider versionStr : string)
    (cfg : ModuleConfig) (v : Version) (m : Module) (treeId : string) :
  path_segments (URL_Path reqLocation) =
    Some [namespace; name; provider; versionStr; "download"] ->
  Lookup modules namespace name provider = Some cfg ->
  NewVersion versionStr = Ok v ->
  Load OpenRepository (GitDir cfg) = Some m ->
  tagged m v ->
  GetVersionTreeId m v = Ok treeId ->
  treeId <> "" -> noSlash treeId = true ->
  exists file,
    RespHeader (ServeHTTP OpenRepository hostname modules reqLocation)
      !! "X-Terraform-Get" = Some ("./download/" +:+ file) /\
    forall reqArchive,
      URL_Path reqArchive = URL_Path reqLocation +:+ "/" +:+ file ->
      ServeHTTP OpenRepository hostname modules reqArchive =
      {| Status := 200;
         RespHeader :=
           <["Content-Disposition" :=
               "attachment; filename=" +:+ namespace +:+ "_" +:+ name +:+ "_" +:+ provider
                 +:+ "_" +:+ Version_String v +:+ ".tgz"]>
             (<["Content-Type" := "application/x-gzip"]> ∅);
         RespBody :=
           [ChunkGzipTar (out (fst (WriteVersionTar m v (client_room reqArchive))))] |}.
Proof.
  intros Hp Hl Hv Hload Ht Hid Hne Hs.
  apply HasVersion_of_tagged in Ht.
  exists (treeId +:+ ".tgz"). split.
  - destruct (Lookup_Some _ _ _ _ _ Hl) as (byNamespace & byName & H1 & H2 & H3).
    unfold ServeHTTP, makeHandler. rewrite Hp. cbn [String.eqb Ascii.eqb Bool.eqb].
    unfold handleDownload. rewrite H1, H2, H3, Hv, Hload, Ht, Hid. cbn [negb].
    unfold finish, Header_Set. cbn [sent header RespHeader newResponseWriter].
    apply lookup_insert_eq.
  - intros reqArchive Hpath.
    assert (HpA : path_segments (URL_Path reqArchive) =
                  Some [namespace; name; provider; versionStr; "download";
                        treeId +:+ ".tgz"]).
    { rewrite Hpath.
      apply (path_segments_snoc _ _ (treeId +:+ ".tgz") Hp).
      - destruct treeId; [contradiction | sapp; discriminate].
      - intros E. apply (f_equal String.length) in E.
        rewrite string_length_app in E. cbn in E. clear - E. lia.
      - intros E. apply (f_equal String.length) in E.
        rewrite string_length_app in E. cbn in E. clear - E. lia.
      - rewrite noSlash_app, Hs. reflexivity. }
    unfold ServeHTTP, makeHandler. rewrite HpA. cbn [String.eqb Ascii.eqb Bool.eqb].
    rewrite (handleDownloadArchive_resolved _ _ _ _ _ _ _ _ _ _ _ _ Hl Hv Hload Ht Hid).
    rewrite trimTgz_app, String.eqb_refl. reflexivity.
Qed.

(** X13: the one-argument handler's download route commits to its answer
    before it reads the version.  For an existing version it answers 200
    with content type [application/x-tar] and whatever [WriteVersionTar]
    wrote, the returned error dropped; when the tag named by the canonical
    rendering does not resolve, that is a 200 whose archive is the trailer
    alone. *)
Theorem Legacy_download_route_answers_before_reading (req : Request)
    (namespace name provider versionStr : string)
    (cfg : ModuleConfig) (v : Version) (m : Module) :
  path_segments (URL_Path req) = Some [namespace; name; provider; versionStr; "download"] ->
  Lookup modules namespace name provider = Some cfg ->
  NewVersion versionStr = Ok v ->
  Load OpenRepository (GitDir cfg) = Some m ->
  tagged m v ->
  Legacy.ServeHTTP OpenRepository modules req =
    {| Status := 200;
       RespHeader := <["Content-Type" := "application/x-tar"]> ∅;
       RespBody := [ChunkTar (out (fst (WriteVersionTar m v (client_room req))))] |} /\
  (forall err,
     References_Lookup (repo m) ("refs/tags/v" +:+ Version_String v) = Err err ->
     client_room req = None ->
     RespBody (Legacy.ServeHTTP OpenRepository modules req) = [ChunkTar [TarTrailer]]).
Proof.
  intros Hp Hl Hv Hload Ht. apply HasVersion_of_tagged in Ht.
  apply Lookup_Some in Hl as (byNamespace & byName & H1 & H2 & H3).
  assert (E : Legacy.ServeHTTP OpenRepository modules req =
    {| Status := 200;
       RespHeader := <["Content-Type" := "application/x-tar"]> ∅;
       RespBody := [ChunkTar (out (fst (WriteVersionTar m v (client_room req))))] |}).
  { unfold Legacy.ServeHTTP, Legacy.makeHandler. rewrite Hp.
    cbn [String.eqb Ascii.eqb Bool.eqb].
    unfold Legacy.handleDownload. rewrite H1, H2, H3, Hv, Hload, Ht. cbn [negb].
    destruct (WriteVersionTar m v (client_room req)) as [tw e]. reflexivity. }
  split; [exact E |].
  intros err Href Hroom. rewrite E, Hroom. cbn [RespBody].
  unfold WriteVersionTar. rewrite (getVersionCommit_unresolved _ _ _ Href). reflexivity.
Qed.

End DownloadFacts.

(** ** Loading the configuration *)

Lemma HasErrors_app a b : HasErrors (a ++ b) = HasErrors a || HasErrors b.
Proof. apply existsb_app. Qed.

(** Reading the map after a namespace, a name or a module was put in. *)
Lemma Lookup_ensure_namespace (mods : Modules) namespace :
  let mods' := match mods !! namespace with
               | None => <[namespace := ∅]> mods
               | Some _ => mods
               end in
  (forall a b c, Lookup mods' a b c = Lookup mods a b c) /\
  mods' !! namespace = Some (default ∅ (mods !! namespace)).
Proof.
  cbv zeta. destruct (mods !! namespace) as [byNamespace|] eqn:E.
  - split; [reflexivity | exact E].
  - split; [| apply lookup_insert_eq].
    intros a b c. unfold Lookup. destruct (decide (a = namespace)) as [->|Ha].
    + rewrite lookup_insert_eq, E. reflexivity.
    + rewrite lookup_insert_ne by congruence. reflexivity.
Qed.

Lemma Lookup_ensure_name (mods : Modules) namespace name byNamespace :
  mods !! namespace = Some byNamespace ->
  let mods' := match byNamespace !! name with
               | None => <[namespace := <[name := ∅]> byNamespace]> mods
               | Some _ => mods
               end in
  (forall a b c, Lookup mods' a b c = Lookup mods a b c) /\
  exists byNamespace' byName,
    mods' !! namespace = Some byNamespace' /\ byNamespace' !! name = Some byName /\
    forall provider, byName !! provider = Lookup mods namespace name provider.
Proof.
  intros E. cbv zeta. destruct (byNamespace !! name) as [byName|] eqn:E2.
  - split; [reflexivity |]. exists byNamespace, byName.
    split; [exact E |]. split; [exact E2 |].
    intros provider. unfold Lookup. rewrite E, E2. reflexivity.
  - split.
    + intros a b c. unfold Lookup. destruct (decide (a = namespace)) as [->|Ha].
      * rewrite lookup_insert_eq, E. destruct (decide (b = name)) as [->|Hb].
        -- rewrite lookup_insert_eq, E2. reflexivity.
        -- rewrite lookup_insert_ne by congruence. reflexivity.
      * rewrite lookup_insert_ne by congruence. reflexivity.
    + exists (<[name := ∅]> byNamespace), ∅.
      split; [apply lookup_insert_eq |]. split; [apply lookup_insert_eq |].
      intros provider. unfold Lookup. rewrite E, E2. reflexivity.
Qed.

Lemma Lookup_store (mods : Modules) namespace name provider byNamespace byName x a b c :
  mods !! namespace = Some byNamespace ->
  byNamespace !! name = Some byName ->
  Lookup (<[namespace := <[name := <[provider := x]> byName]> byNamespace]> mods) a b c =
  if decide ((namespace, name, provider) = (a, b, c)) then Some x else Lookup mods a b c.
Proof.
  intros E E2. unfold Lookup.
  destruct (decide (a = namespace)) as [->|Ha].
  - rewrite lookup_insert_eq, E. destruct (decide (b = name)) as [->|Hb].
    + rewrite lookup_insert_eq, E2. destruct (decide (c = provider)) as [->|Hc].
      * rewrite lookup_insert_eq. rewrite decide_True by reflexivity. reflexivity.
      * rewrite lookup_insert_ne by congruence. rewrite decide_False by congruence.
        reflexivity.
    + rewrite lookup_insert_ne by congruence. rewrite decide_False by congruence.
      reflexivity.
  - rewrite lookup_insert_ne by congruence. rewrite decide_False by congruence.
    reflexivity.
Qed.

Section LoadModulesFacts.
Variable RangeBetween : string -> string -> string.

(** The body of the loop, once the namespace and the name are in the map. *)
Lemma loadModules_step_unfold mods diags block :
  exists mods2 byNamespace byName,
    (forall a b c, Lookup mods2 a b c = Lookup mods a b c) /\
    mods2 !! (Labels block).1.1 = Some byNamespace /\
    byNamespace !! (Labels block).1.2 = Some byName /\
    (forall provider,
       byName !! provider = Lookup mods (Labels block).1.1 (Labels block).1.2 provider) /\
    loadModules_step RangeBetween (mods, diags) block =
    match byName !! (Labels block).2 with
    | Some existing =>
        (mods2,
         diags ++ [ {| Severity := DiagError;
                       Summary := "Duplicate module declaration";
                       Detail := DetailAlreadyDeclared (Labels block).1.1 (Labels block).1.2
                                   (Labels block).2 (DeclRange existing);
                       Subject := Some (RangeBetween (TypeRange block)
                                          (LabelRanges block).2) |} ])
    | None =>
        if HasErrors (Body_diags block) then (mods2, diags ++ Body_diags block)
        else (<[(Labels block).1.1 :=
                  <[(Labels block).1.2 :=
                      <[(Labels block).2 := declares RangeBetween block]> byName]>
                    byNamespace]> mods2,
              diags ++ Body_diags block)
    end.
Proof.
  unfold loadModules_step, declares.
  destruct block as [[[namespace name] provider] tr lr gd bd].
  cbn [Labels TypeRange LabelRanges Body_GitDir Body_diags fst snd].
  destruct (Lookup_ensure_namespace mods namespace) as [L1 E1]. cbv zeta in L1, E1.
  set (mods1 := match mods !! namespace with
                | None => <[namespace := ∅]> mods
                | Some _ => mods
                end) in *.
  rewrite E1.
  change (default ∅ (Some (default ∅ (mods !! namespace))))
    with (default ∅ (mods !! namespace)).
  destruct (Lookup_ensure_name mods1 namespace name _ E1)
    as (L2 & byNamespace' & byName & E3 & E4 & E5). cbv zeta in L2, E3.
  set (mods2 := match default ∅ (mods !! namespace) !! name with
                | None => <[namespace := <[name := ∅]> (default ∅ (mods !! namespace))]> mods1
                | Some _ => mods1
                end) in *.
  rewrite E3. change (default ∅ (Some byNamespace')) with byNamespace'.
  rewrite E4. change (default ∅ (Some byName)) with byName.
  exists mods2, byNamespace', byName.
  split; [intros a b c; rewrite L2; apply L1 |].
  split; [exact E3 |]. split; [exact E4 |].
  split; [intros p; rewrite E5; apply L1 | reflexivity].
Qed.

(** What one block does to the map, read through [Lookup]. *)
Lemma loadModules_step_Lookup mods diags block a b c :
  Lookup (loadModules_step RangeBetween (mods, diags) block).1 a b c =
  match Lookup mods a b c with
  | Some x => Some x
  | None =>
      if decide (Labels block = (a, b, c)) then
        if HasErrors (Body_diags block) then None else Some (declares RangeBetween block)
      else None
  end.
Proof.
  destruct (loadModules_step_unfold mods diags block)
    as (mods2 & byNamespace & byName & L & E3 & E4 & E5 & ->).
  destruct (Labels block) as [[namespace name] provider]. cbn [fst snd] in *.
  rewrite E5.
  destruct (Lookup mods namespace name provider) as [existing|] eqn:Hex.
  - cbn [fst]. rewrite L.
    destruct (Lookup mods a b c) as [x|] eqn:Hx; [reflexivity |].
    destruct (decide ((namespace, name, provider) = (a, b, c))) as [[= -> -> ->]|];
      [congruence | reflexivity].
  - destruct (HasErrors (Body_diags block)).
    + cbn [fst]. rewrite L.
      destruct (Lookup mods a b c); [reflexivity |].
      destruct (decide _); reflexivity.
    + cbn [fst]. rewrite (Lookup_store _ _ _ _ _ _ _ _ _ _ E3 E4), L.
      destruct (decide ((namespace, name, provider) = (a, b, c))) as [[= <- <- <-]|].
      * rewrite Hex. reflexivity.
      * destruct (Lookup mods a b c); reflexivity.
Qed.

(** The diagnostics only grow, and what one block adds. *)
Lemma loadModules_step_diags mods diags block :
  exists added,
    (loadModules_step RangeBetween (mods, diags) block).2 = diags ++ added /\
    HasErrors added =
      match Lookup mods (Labels block).1.1 (Labels block).1.2 (Labels block).2 with
      | Some _ => true
      | None => HasErrors (Body_diags block)
      end.
Proof.
  destruct (loadModules_step_unfold mods diags block)
    as (mods2 & byNamespace & byName & L & E3 & E4 & E5 & ->).
  rewrite E5.
  destruct (Lookup mods _ _ _) as [existing|] eqn:Hex.
  - eexists. split; reflexivity.
  - exists (Body_diags block). destruct (HasErrors (Body_diags block)); split; reflexivity.
Qed.

Lemma loadModules_fold_Lookup blocks mods diags a b c :
  Lookup (fold_left (loadModules_step RangeBetween) blocks (mods, diags)).1 a b c =
  match Lookup mods a b c with
  | Some x => Some x
  | None => firstDeclared RangeBetween blocks a b c
  end.
Proof.
  revert mods diags. induction blocks as [|block blocks IH]; intros mods diags.
  - cbn. destruct (Lookup mods a b c); reflexivity.
  - cbn [fold_left firstDeclared].
    destruct (loadModules_step RangeBetween (mods, diags) block) as [mods' diags'] eqn:Hs.
    rewrite IH.
    pose proof (loadModules_step_Lookup mods diags block a b c) as H.
    rewrite Hs in H. cbn [fst] in H. rewrite H.
    destruct (Lookup mods a b c); [reflexivity |].
    destruct (decide (Labels block = (a, b, c))); [| reflexivity].
    destruct (HasErrors (Body_diags block)); reflexivity.
Qed.

Local Abbreviation at_ mods k := (Lookup mods k.1.1 k.1.2 k.2).

(** The loop adds no error exactly when every block decodes and declares a
    coordinate that is neither in the map already nor declared twice. *)
Lemma loadModules_fold_diags blocks mods diags :
  exists added,
    (fold_left (loadModules_step RangeBetween) blocks (mods, diags)).2 = diags ++ added /\
    (HasErrors added = false <->
     Forall (fun block => at_ mods (Labels block) = None /\
                          HasErrors (Body_diags block) = false) blocks /\
     NoDup (map Labels blocks)).
Proof.
  revert mods diags. induction blocks as [|block blocks IH]; intros mods diags.
  - exists []. cbn. rewrite app_nil_r. split; [reflexivity |].
    split; [intros _; split; constructor | reflexivity].
  - cbn [fold_left map].
    destruct (loadModules_step_diags mods diags block) as (added1 & Hd1 & He1).
    pose proof (loadModules_step_Lookup mods diags block) as HL.
    destruct (loadModules_step RangeBetween (mods, diags) block) as [mods' diags'].
    cbn [fst snd] in Hd1, HL. subst diags'.
    destruct (IH mods' (diags ++ added1)) as (added2 & Hd2 & He2).
    exists (added1 ++ added2). split; [rewrite Hd2, app_assoc; reflexivity |].
    rewrite HasErrors_app, orb_false_iff, He2, He1, Forall_cons, NoDup_cons. clear IH Hd2 He2.
    split.
    + intros (H1 & Hf & Hn).
      destruct (at_ mods (Labels block)) eqn:Hm; [discriminate |].
      assert (Hnew : forall b', In b' blocks -> Labels b' <> Labels block /\
                                 at_ mods (Labels b') = None).
      { intros b' Hin. rewrite List.Forall_forall in Hf.
        destruct (Hf b' Hin) as [Hb' _]. rewrite HL in Hb'.
        destruct (at_ mods (Labels b')); [discriminate |]. split; [| reflexivity].
        intros E. destruct (Labels b') as [[x y] z]. cbn [fst snd] in Hb'.
        rewrite decide_True in Hb' by (symmetry; exact E).
        rewrite H1 in Hb'. discriminate. }
      split; [split; [split; [reflexivity | exact H1] |] | split; [| exact Hn]].
      * rewrite List.Forall_forall in Hf |- *. intros b' Hin.
        split; [apply (Hnew b' Hin) | apply (Hf b' Hin)].
      * rewrite list_elem_of_In, in_map_iff. intros (b' & E & Hin).
        destruct (Hnew b' Hin) as [Hne _]. contradiction.
    + intros (((Hm & H1) & Hf) & Hnin & Hn). rewrite Hm.
      split; [exact H1 |]. split; [| exact Hn].
      rewrite List.Forall_forall in Hf |- *. intros b' Hin.
      destruct (Hf b' Hin) as [Hb' Hok]. split; [| exact Hok].
      rewrite HL, Hb'. destruct (Labels b') as [[x y] z] eqn:E. cbn [fst snd].
      destruct (decide (Labels block = (x, y, z))) as [E'|]; [| reflexivity].
      exfalso. apply Hnin. rewrite list_elem_of_In, in_map_iff.
      exists b'. split; [congruence | exact Hin].
Qed.

(** Among blocks with distinct labels that all decode, a block is the first
    one declared for its coordinate. *)
Lemma firstDeclared_NoDup blocks block :
  NoDup (map Labels blocks) ->
  Forall (fun b => HasErrors (Body_diags b) = false) blocks ->
  In block blocks ->
  firstDeclared RangeBetween blocks (Labels block).1.1 (Labels block).1.2 (Labels block).2
  = Some (declares RangeBetween block).
Proof.
  induction blocks as [|b blocks IH]; intros Hn Hf Hin; [destruct Hin |].
  cbn [map] in Hn. apply NoDup_cons in Hn as [Hnin Hn]. apply Forall_cons in Hf as [Hb Hf].
  cbn [firstDeclared]. destruct Hin as [->|Hin].
  - rewrite decide_True by (destruct (Labels block) as [[? ?] ?]; reflexivity).
    rewrite Hb. reflexivity.
  - rewrite decide_False; [exact (IH Hn Hf Hin) |].
    intros E. apply Hnin. rewrite list_elem_of_In, in_map_iff. exists block.
    split; [| exact Hin]. rewrite E. destruct (Labels block) as [[? ?] ?]. reflexivity.
Qed.

End LoadModulesFacts.

(** What [listenerConf] returns does not depend on the diagnostics so far,
    to which it adds one error unless the block sets exactly one of
    [address] and [socket_number]. *)
Lemma listenerConf_spec lc diags :
  exists added,
    listenerConf lc diags = ((listenerConf lc []).1, diags ++ added) /\
    List.length added = (if oneSocket lc then 0 else 1)%nat /\
    Forall (fun d => Severity d = DiagError /\ Subject d = None) added.
Proof.
  unfold listenerConf, oneSocket.
  destruct (Address lc) as [address|], (SocketNumber lc) as [n|].
  - eexists. split; [destruct (HasPrefix address "/"); reflexivity |].
    split; [reflexivity | repeat constructor].
  - exists []. rewrite app_nil_r.
    split; [destruct (HasPrefix address "/"); reflexivity |].
    split; [reflexivity | constructor].
  - exists []. rewrite app_nil_r. split; [reflexivity |].
    split; [reflexivity | constructor].
  - eexists. split; [reflexivity |]. split; [reflexivity | repeat constructor].
Qed.

Lemma listeners_loop_spec mk lcs ret diags :
  exists added,
    listeners_loop mk lcs ret diags =
      (ret ++ map (fun lc => mk (listenerConf lc []).1) lcs, diags ++ added) /\
    List.length added = List.length (List.filter (fun lc => negb (oneSocket lc)) lcs) /\
    Forall (fun d => Severity d = DiagError /\ Subject d = None) added.
Proof.
  revert ret diags. induction lcs as [|lc lcs IH]; intros ret diags.
  - exists []. cbn. rewrite !app_nil_r. split; [reflexivity |]. split; [reflexivity | constructor].
  - cbn [listeners_loop map].
    destruct (listenerConf_spec lc diags) as (added1 & -> & Hl1 & Hf1).
    destruct (IH (ret ++ [mk (listenerConf lc []).1]) (diags ++ added1))
      as (added2 & -> & Hl2 & Hf2).
    exists (added1 ++ added2). rewrite <- !app_assoc. split; [reflexivity |].
    split; [| apply Forall_app; split; assumption].
    rewrite length_app, Hl1, Hl2. cbn [List.filter].
    destruct (oneSocket lc); reflexivity.
Qed.

(** Errors only: a list of error diagnostics has errors unless it is empty. *)
Lemma HasErrors_all_errors added :
  Forall (fun d => Severity d = DiagError /\ Subject d = None) added ->
  HasErrors added = negb (Nat.eqb (List.length added) 0).
Proof.
  destruct 1 as [|d added [Hd _] _]; [reflexivity |].
  cbn. rewrite Hd. reflexivity.
Qed.

Lemma filter_negb_nil {A : Type} (f : A -> bool) (l : list A) :
  List.length (List.filter (fun x => negb (f x)) l) = 0%nat <-> forallb f l = true.
Proof.
  induction l as [|x l IH]; [split; reflexivity |].
  cbn [List.filter forallb]. destruct (f x); cbn [negb andb]; [exact IH |].
  split; discriminate.
Qed.

(** The listeners and diagnostics of [loadListenersConfig]. *)
Lemma loadListenersConfig_spec body :
  exists added,
    loadListenersConfig body =
      (map (fun lc => httpListener (listenerConf lc []).1) (HTTP (DecodeBody_raw body)) ++
       map (fun lc => fastCGIListener (listenerConf lc []).1) (FastCGI (DecodeBody_raw body)),
       Remain (DecodeBody_raw body),
       DecodeBody_diags body ++ added) /\
    List.length added =
      List.length (List.filter (fun lc => negb (oneSocket lc))
                     (HTTP (DecodeBody_raw body) ++ FastCGI (DecodeBody_raw body))) /\
    Forall (fun d => Severity d = DiagError /\ Subject d = None) added.
Proof.
  unfold loadListenersConfig.
  destruct (listeners_loop_spec httpListener (HTTP (DecodeBody_raw body)) []
              (DecodeBody_diags body)) as (added1 & -> & Hl1 & Hf1).
  destruct (listeners_loop_spec fastCGIListener (FastCGI (DecodeBody_raw body))
              ([] ++ map (fun lc => httpListener (listenerConf lc []).1)
                         (HTTP (DecodeBody_raw body)))
              (DecodeBody_diags body ++ added1)) as (added2 & -> & Hl2 & Hf2).
  exists (added1 ++ added2).
  rewrite <- (List.app_assoc (DecodeBody_diags body)). split; [reflexivity |].
  split; [| apply Forall_app; split; assumption].
  rewrite length_app, Hl1, Hl2, List.filter_app, length_app. reflexivity.
Qed.

(** X14: [loadListenersConfig] sets one key for every [http] block and
    then for every [fastcgi] block, whether or not the block is valid, hands
    on the remaining body, and adds to the decoder's diagnostics one error
    without a source range for each block that does not set exactly one of
    [address] and [socket_number].  So it reports no error exactly when the
    decoder reported none and every block sets exactly one of the two. *)
Theorem loadListenersConfig_one_error_per_invalid_block (body : Body) :
  let raw := DecodeBody_raw body in
  exists added,
    loadListenersConfig body =
      (map (fun lc => httpListener (listenerConf lc []).1) (HTTP raw) ++
       map (fun lc => fastCGIListener (listenerConf lc []).1) (FastCGI raw),
       Remain raw,
       DecodeBody_diags body ++ added) /\
    List.length added =
      List.length (List.filter (fun lc => negb (oneSocket lc)) (HTTP raw ++ FastCGI raw)) /\
    Forall (fun d => Severity d = DiagError /\ Subject d = None) added /\
    (HasErrors (loadListenersConfig body).2 = false <->
     HasErrors (DecodeBody_diags body) = false /\
     forallb oneSocket (HTTP raw ++ FastCGI raw) = true).
Proof.
  cbv zeta. destruct (loadListenersConfig_spec body) as (added & E & Hl & Hf).
  exists added. split; [exact E |]. split; [exact Hl |]. split; [exact Hf |].
  rewrite E. cbn [snd]. rewrite HasErrors_app, orb_false_iff, (HasErrors_all_errors _ Hf).
  rewrite <- filter_negb_nil, <- Hl.
  destruct (List.length added); cbn; intuition congruence.
Qed.

(** X15: a negative [socket_number] passes the loading of the configuration
    and fails only at listening time, by a panic: [listenerConf] takes the
    number as it is and adds no diagnostic, and [Listen] on that index
    panics whenever the supervisor passed its sockets, however many. *)
Theorem negative_socket_number_is_accepted_and_panics (lc : listener) (n : Z)
    (diags : list Diagnostic) (NetListener : Type)
    (listeners : list (option NetListener)) :
  Address lc = None ->
  SocketNumber lc = Some n ->
  n < 0 ->
  (listenerConf lc diags).2 = diags /\
  exists i,
    Socket (listenerConf lc diags).1 = socketActivationIndex i /\
    socketActivationIndex_Listen NetListener i (Ok listeners) = Panicked.
Proof.
  intros Ha Hn Hneg. unfold listenerConf. rewrite Ha, Hn.
  split; [reflexivity |]. exists n. split; [reflexivity |].
  unfold socketActivationIndex_Listen.
  destruct (Z.geb_spec n (Z.of_nat (List.length listeners))) as [Hge|_];
    [exfalso; clear - Hge Hneg; lia |].
  destruct (Z.ltb_spec n 0) as [_|Hpos]; [reflexivity | exfalso; clear - Hpos Hneg; lia].
Qed.

Section SocketActivationFacts.
Variable NetListener : Type.

(** X16: [socketActivationIndex.Listen] returns a socket exactly when the
    supervisor passed sockets, the index is within them and the socket at
    the index is stream-based; it panics exactly when the supervisor passed
    sockets and the index is negative. *)
Theorem socketActivationIndex_Listen_outcomes (i : Z)
    (supervisor : Result (list (option NetListener))) :
  (forall l, socketActivationIndex_Listen NetListener i supervisor = Returned (Ok l) <->
     exists listeners, supervisor = Ok listeners /\ 0 <= i /\
       nth_error listeners (Z.to_nat i) = Some (Some l)) /\
  (socketActivationIndex_Listen NetListener i supervisor = Panicked <->
     exists listeners, supervisor = Ok listeners /\ i < 0).
Proof.
  unfold socketActivationIndex_Listen. destruct supervisor as [listeners|err].
  2:{ split; [intros l |]; (split; [discriminate | intros (? & [=] & _)]). }
  destruct (Z.geb_spec i (Z.of_nat (List.length listeners))) as [Hge|Hlt].
  { split; [intros l |]; (split; [discriminate |]).
    - intros (ls & [= <-] & H0 & Hn). exfalso.
      assert (Hb : (Z.to_nat i < List.length listeners)%nat)
        by (apply nth_error_Some; congruence).
      clear - Hb Hge H0. lia.
    - intros (ls & [= <-] & Hneg). exfalso. clear - Hneg Hge. lia. }
  destruct (Z.ltb_spec i 0) as [Hneg|Hpos].
  { split; [intros l |].
    - split; [discriminate |]. intros (ls & _ & H0 & _). exfalso. clear - H0 Hneg. lia.
    - split; [intros _; exists listeners; auto | reflexivity]. }
  destruct (nth_error listeners (Z.to_nat i)) as [[ret|]|] eqn:Hn.
  - split; [intros l |].
    + split.
      * intros [= <-]. exists listeners. auto.
      * intros (ls & [= <-] & _ & Hn'). rewrite Hn in Hn'. injection Hn' as <-. reflexivity.
    + split; [discriminate |]. intros (ls & _ & Hneg). exfalso. clear - Hneg Hpos. lia.
  - split; [intros l |].
    + split; [discriminate |]. intros (ls & [= <-] & _ & Hn'). congruence.
    + split; [discriminate |]. intros (ls & _ & Hneg). exfalso. clear - Hneg Hpos. lia.
  - exfalso. apply nth_error_None in Hn. clear - Hn Hlt Hpos. lia.
Qed.

End SocketActivationFacts.

Section LoadModulesConfigFacts.
Variable RangeBetween : string -> string -> string.

(** X17: the module [LoadModulesConfig] stores for a coordinate is the one
    declared by the first block for that coordinate whose body decodes
    without error, with that block's [git_dir] and declaration range; blocks
    before it that do not decode leave no module, blocks after it change
    nothing; a coordinate without such a block stays unconfigured. *)
Theorem LoadModulesConfig_stores_first_decodable_block (body : Body)
    (namespace name provider : string) :
  Lookup (cfg_Modules (LoadModulesConfig RangeBetween body).1) namespace name provider =
  firstDeclared RangeBetween (Content_Blocks (Remain (DecodeBody_raw body)))
    namespace name provider.
Proof.
  unfold LoadModulesConfig.
  destruct (loadListenersConfig_spec body) as (added & -> & _).
  pose proof (loadModules_fold_Lookup RangeBetween
                (Content_Blocks (Remain (DecodeBody_raw body))) ∅
                ([] ++ (DecodeBody_diags body ++ added) ++
                 Content_diags (Remain (DecodeBody_raw body)))
                namespace name provider) as H.
  destruct (fold_left _ _ _) as [modules diags]. exact H.
Qed.

(** X18: [LoadModulesConfig] reports no error exactly when the decoder and
    the schema check reported none, every listener block sets exactly one of
    [address] and [socket_number], every module block decodes, and no two
    module blocks have the same labels. *)
Theorem LoadModulesConfig_reports_no_error_iff (body : Body) :
  let raw := DecodeBody_raw body in
  HasErrors (LoadModulesConfig RangeBetween body).2 = false <->
  HasErrors (DecodeBody_diags body) = false /\
  forallb oneSocket (HTTP raw ++ FastCGI raw) = true /\
  HasErrors (Content_diags (Remain raw)) = false /\
  Forall (fun block => HasErrors (Body_diags block) = false) (Content_Blocks (Remain raw)) /\
  NoDup (map Labels (Content_Blocks (Remain raw))).
Proof.
  cbv zeta. unfold LoadModulesConfig.
  destruct (loadListenersConfig_spec body) as (added & -> & Hl & Hf).
  destruct (loadModules_fold_diags RangeBetween
              (Content_Blocks (Remain (DecodeBody_raw body))) ∅
              ([] ++ (DecodeBody_diags body ++ added) ++
               Content_diags (Remain (DecodeBody_raw body))))
    as (added' & Hd & He).
  destruct (fold_left _ _ _) as [modules diags]. cbn [snd] in Hd |- *. subst diags.
  cbn [app]. rewrite !HasErrors_app, !orb_false_iff, He, (HasErrors_all_errors _ Hf).
  rewrite <- filter_negb_nil, <- Hl.
  assert (Hfa : Forall (fun block : Block =>
                   Lookup ∅ (Labels block).1.1 (Labels block).1.2 (Labels block).2 = None /\
                   HasErrors (Body_diags block) = false)
                  (Content_Blocks (Remain (DecodeBody_raw body))) <->
                Forall (fun block => HasErrors (Body_diags block) = false)
                  (Content_Blocks (Remain (DecodeBody_raw body)))).
  { rewrite !List.Forall_forall. split; intros H b Hin; [apply (H b Hin) |].
    split; [reflexivity | apply (H b Hin)]. }
  rewrite Hfa. destruct (List.length added); cbn; intuition congruence.
Qed.

(** X19: when [LoadModulesConfig] reports no error the configuration is
    complete: every module block of the body is stored under its labels, with
    its own [git_dir] and declaration range. *)
Theorem LoadModulesConfig_complete_when_no_error (body : Body) (block : Block) :
  HasErrors (LoadModulesConfig RangeBetween body).2 = false ->
  In block (Content_Blocks (Remain (DecodeBody_raw body))) ->
  Lookup (cfg_Modules (LoadModulesConfig RangeBetween body).1)
    (Labels block).1.1 (Labels block).1.2 (Labels block).2 =
  Some {| GitDir := Body_GitDir block;
          DeclRange := RangeBetween (TypeRange block) (LabelRanges block).2 |}.
Proof.
  intros Hclean Hin.
  assert (Hs : NoDup (map Labels (Content_Blocks (Remain (DecodeBody_raw body)))) /\
               Forall (fun b => HasErrors (Body_diags b) = false)
                 (Content_Blocks (Remain (DecodeBody_raw body)))).
  { revert Hclean. unfold LoadModulesConfig.
    destruct (loadListenersConfig_spec body) as (added & -> & Hl & Hf).
    destruct (loadModules_fold_diags RangeBetween
                (Content_Blocks (Remain (DecodeBody_raw body))) ∅
                ([] ++ (DecodeBody_diags body ++ added) ++
                 Content_diags (Remain (DecodeBody_raw body))))
      as (added' & Hd & He).
    destruct (fold_left _ _ _) as [modules diags]. cbn [snd] in Hd |- *. subst diags.
    rewrite HasErrors_app, orb_false_iff. intros [_ Hc]. apply He in Hc as [Hfa Hn].
    split; [exact Hn |]. rewrite List.Forall_forall in Hfa |- *.
    intros b Hb. apply (Hfa b Hb). }
  destruct Hs as [Hn Hf].
  unfold LoadModulesConfig.
  destruct (loadListenersConfig_spec body) as (added & -> & _).
  pose proof (loadModules_fold_Lookup RangeBetween
                (Content_Blocks (Remain (DecodeBody_raw body))) ∅
                ([] ++ (DecodeBody_diags body ++ added) ++
                 Content_diags (Remain (DecodeBody_raw body)))
                (Labels block).1.1 (Labels block).1.2 (Labels block).2) as H.
  destruct (fold_left _ _ _) as [modules diags]. cbn [fst cfg_Modules] in H |- *.
  rewrite H. cbn. exact (firstDeclared_NoDup RangeBetween _ _ Hn Hf Hin).
Qed.

End LoadModulesConfigFacts.

(** ** A writer that starts failing *)

Lemma tracks_put k oL oU item :
  tracks k oL oU (tar_put {| out := oU; room := None |} item)
                 (tar_put {| out := oL; room := Some k |} item) [item].
Proof.
  unfold tracks, tar_put. cbn [room out]. destruct k as [|k]; cbn [fst snd out room firstn].
  - rewrite app_nil_r. repeat split. intros H. exfalso. cbn in H. lia.
  - split; [reflexivity |]. split; [rewrite firstn_nil; reflexivity |].
    split; [f_equal; cbn; lia | reflexivity].
Qed.

Lemma tracks_nil k oL oU e :
  tracks k oL oU ({| out := oU; room := None |}, e) ({| out := oL; room := Some k |}, e) [].
Proof.
  unfold tracks. cbn [fst snd out room List.length].
  rewrite firstn_nil, !app_nil_r, Nat.sub_0_r. repeat split.
Qed.

Lemma tracks_cons k oL oU rU rL x items :
  tracks (k - 1) (oL ++ firstn k [x]) (oU ++ [x]) rU rL items ->
  tracks k oL oU rU rL (x :: items).
Proof.
  unfold tracks. intros (HU & Ho & Hr & He).
  split; [rewrite HU, <- app_assoc; reflexivity |].
  split; [| split].
  - rewrite Ho, <- app_assoc. f_equal.
    destruct k as [|k]; cbn [firstn app]; [reflexivity |].
    rewrite Nat.sub_succ, Nat.sub_0_r. destruct k; reflexivity.
  - rewrite Hr. f_equal. cbn [List.length]. lia.
  - intros Hl. apply He. cbn [List.length] in Hl. lia.
Qed.

(** One write whose error is checked, followed by [f]. *)
Lemma tracks_then k oL oU rU rL items1 (f : TarWriter -> TarWriter * option error) :
  tracks k oL oU rU rL items1 ->
  (forall k' oL' oU', exists items2,
     tracks k' oL' oU' (f {| out := oU'; room := None |})
                       (f {| out := oL'; room := Some k' |}) items2) ->
  exists items,
    tracks k oL oU
      (match rU with (tw, Some err) => (tw, Some err) | (tw, None) => f tw end)
      (match rL with (tw, Some err) => (tw, Some err) | (tw, None) => f tw end)
      items.
Proof.
  intros (HU & Ho & Hr & He) Hf.
  destruct rU as [twU eU], rL as [[oL1 rL1] eL]. cbn [fst snd out room] in *. subst.
  destruct eU as [errU|].
  - exists items1. destruct eL as [errL|].
    + repeat split; assumption.
    + assert (Hlt : (k < List.length items1)%nat).
      { destruct (Nat.le_gt_cases (List.length items1) k) as [Hle|Hlt]; [| exact Hlt].
        specialize (He Hle). discriminate. }
      unfold tracks. cbn [fst snd out room].
      replace (k - List.length items1)%nat with 0%nat by lia.
      destruct (Hf 0%nat (oL ++ firstn k items1) []) as (items2 & _ & Ho2 & Hr2 & _).
      cbn [firstn] in Ho2. rewrite app_nil_r in Ho2. cbn [Nat.sub] in Hr2.
      split; [reflexivity |]. split; [exact Ho2 |]. split; [exact Hr2 |].
      intros Hle. exfalso. lia.
  - destruct eL as [errL|].
    + assert (Hlt : (k < List.length items1)%nat).
      { destruct (Nat.le_gt_cases (List.length items1) k) as [Hle|Hlt]; [| exact Hlt].
        specialize (He Hle). discriminate. }
      destruct (Hf 0%nat [] (oU ++ items1)) as (items2 & HU2 & _).
      exists (items1 ++ items2). unfold tracks. cbn [fst snd out room].
      split; [rewrite HU2, <- app_assoc; reflexivity |].
      split; [| split].
      * rewrite firstn_app. replace (k - List.length items1)%nat with 0%nat by lia.
        cbn [firstn]. rewrite app_nil_r. reflexivity.
      * f_equal. rewrite length_app. lia.
      * rewrite length_app. intros Hle. exfalso. lia.
    + destruct (Hf (k - List.length items1)%nat (oL ++ firstn k items1) (oU ++ items1))
        as (items2 & HU2 & Ho2 & Hr2 & He2).
      exists (items1 ++ items2).
      split; [rewrite HU2, <- app_assoc; reflexivity |].
      split; [| split].
      * rewrite Ho2, firstn_app, <- app_assoc. reflexivity.
      * rewrite Hr2. f_equal. rewrite length_app. lia.
      * rewrite length_app. intros Hle. apply He2. lia.
Qed.

Lemma tar_WriteHeader_fst_unlimited o hdr :
  fst (tar_WriteHeader {| out := o; room := None |} hdr) =
  {| out := o ++ [TarHeader hdr]; room := None |}.
Proof. reflexivity. Qed.

Lemma tar_WriteHeader_fst_limited o k hdr :
  fst (tar_WriteHeader {| out := o; room := Some k |} hdr) =
  {| out := o ++ firstn k [TarHeader hdr]; room := Some (k - 1)%nat |}.
Proof.
  unfold tar_WriteHeader, tar_put. cbn [room out]. destruct k as [|k]; cbn [fst firstn].
  - rewrite app_nil_r. reflexivity.
  - rewrite Nat.sub_succ, Nat.sub_0_r. destruct k; reflexivity.
Qed.

Section FailingWriter.
Context `{VL : VersionLib}.

(** The run of [writeGitTreeTar] on a writer that accepts [k] more items
    follows the run on a writer that never fails. *)
Lemma writeGitTreeTar_tracks m tree :
  forall prefix modTime k oL oU,
  exists items,
    tracks k oL oU
      (writeGitTreeTar m tree prefix modTime {| out := oU; room := None |})
      (writeGitTreeTar m tree prefix modTime {| out := oL; room := Some k |})
      items.
Proof.
  induction tree as [es0 IH] using Tree_nested_ind. intros prefix modTime.
  cbn [writeGitTreeTar].
  induction es0 as [|e es0 IHes]; intros k oL oU.
  - exists []. apply tracks_nil.
  - apply Forall_cons in IH as [IHe IH]. specialize (IHes IH).
    destruct e as [name id ty fm sub blb]. destruct ty; try apply IHes.
    + (* a directory *)
      rewrite tar_WriteHeader_fst_unlimited, tar_WriteHeader_fst_limited.
      match goal with |- context [TarHeader ?h] => set (hdr := h) end.
      destruct sub as [newTree|err].
      * destruct (IHe newTree eq_refl (prefix +:+ name +:+ "/") modTime (k - 1)%nat
                    (oL ++ firstn k [TarHeader hdr]) (oU ++ [TarHeader hdr]))
          as (items1 & Ht1).
        destruct (tracks_then _ _ _ _ _ _ _ Ht1 IHes) as (items & Ht).
        exists (TarHeader hdr :: items). apply tracks_cons. exact Ht.
      * destruct (IHes (k - 1)%nat (oL ++ firstn k [TarHeader hdr])
                    (oU ++ [TarHeader hdr])) as (items & Ht).
        exists (TarHeader hdr :: items). apply tracks_cons. exact Ht.
    + (* a file *)
      destruct blb as [blob|err].
      * rewrite tar_WriteHeader_fst_unlimited, tar_WriteHeader_fst_limited.
        match goal with |- context [TarHeader ?h] => set (hdr := h) end.
        pose proof (tracks_put (k - 1) (oL ++ firstn k [TarHeader hdr])
                      (oU ++ [TarHeader hdr]) (TarData (Contents blob))) as Ht1.
        destruct (tracks_then _ _ _ _ _ _ _ Ht1 IHes) as (items & Ht).
        exists (TarHeader hdr :: items). apply tracks_cons. exact Ht.
      * exists []. apply tracks_nil.
Qed.

(** [WriteVersionTar] on a writer that accepts [n] items, against the run on
    a writer that never fails: what is written before the trailer, and the
    trailer. *)
Lemma WriteVersionTar_tracks (m : Module) (v : Version) (n : nat) :
  exists items,
    out (fst (WriteVersionTar m v None)) = items ++ [TarTrailer] /\
    out (fst (WriteVersionTar m v (Some n))) = firstn n (items ++ [TarTrailer]) /\
    ((List.length items <= n)%nat ->
     snd (WriteVersionTar m v (Some n)) = snd (WriteVersionTar m v None)).
Proof.
  unfold WriteVersionTar, NewWriter, tar_Close.
  destruct (getVersionCommit m v) as [commit|e].
  2:{ exists []. cbn [fst snd].
      destruct (tracks_put n [] [] TarTrailer) as (HU & Ho & _).
      rewrite Ho, HU. repeat split. }
  destruct (commit_Tree commit) as [rootTree|e].
  2:{ exists []. cbn [fst snd].
      destruct (tracks_put n [] [] TarTrailer) as (HU & Ho & _).
      rewrite Ho, HU. repeat split. }
  destruct (writeGitTreeTar_tracks m rootTree "" (When (Committer commit)) n [] [])
    as (items & HU & Ho & Hr & He).
  destruct (writeGitTreeTar m rootTree "" (When (Committer commit))
              {| out := []; room := None |}) as [twU eU].
  destruct (writeGitTreeTar m rootTree "" (When (Committer commit))
              {| out := []; room := Some n |}) as [[oL rL] eL].
  cbn [fst snd out room] in *. subst.
  destruct (tracks_put (n - List.length items) ([] ++ firstn n items) ([] ++ items)
              TarTrailer) as (HU2 & Ho2 & _).
  exists items. rewrite Ho2, HU2. cbn [out app].
  split; [reflexivity |]. split; [rewrite firstn_app; reflexivity | exact He].
Qed.

(** X20: a writer that starts failing after [n] items cuts the archive and
    changes nothing else: [WriteVersionTar] leaves the first [n] items of
    the archive it writes on a writer that never fails.  The error it returns
    is the one of that run whenever at most the trailer is cut off, so an
    archive that lacks its trailer is not reported. *)
Theorem WriteVersionTar_failing_writer_cuts_archive (m : Module) (v : Version) (n : nat) :
  out (fst (WriteVersionTar m v (Some n))) =
    firstn n (out (fst (WriteVersionTar m v None))) /\
  ((List.length (out (fst (WriteVersionTar m v None))) <= S n)%nat ->
   snd (WriteVersionTar m v (Some n)) = snd (WriteVersionTar m v None)).
Proof.
  destruct (WriteVersionTar_tracks m v n) as (items & HU & HL & He).
  rewrite HU, HL. split; [reflexivity |].
  rewrite length_app. cbn [List.length]. intros Hle.
  apply He. clear - Hle. lia.
Qed.

End FailingWriter.

Section ArchiveRouteFailures.
Context `{VL : VersionLib} `{SL : SortLib} `{MX : MuxLib}.
Variable OpenRepository : string -> Result Repository.
Variable hostname : string.
Variable modules : Modules.

(** X21: once its checks have passed, the archive route answers 200 and
    never reports a failed archive.  Whether [WriteVersionTar] returns an
    error or the client stops accepting data, the status stays 200, nothing
    is logged, and the body is the archive as far as it got: the archive
    that a client accepting everything receives, cut where this client
    stopped. *)
Theorem archive_route_drops_archive_errors (req : Request)
    (namespace name provider versionStr givenTreeId : string)
    (cfg : ModuleConfig) (v : Version) (m : Module) :
  path_segments (URL_Path req) =
    Some [namespace; name; provider; versionStr; "download"; givenTreeId] ->
  Lookup modules namespace name provider = Some cfg ->
  NewVersion versionStr = Ok v ->
  Load OpenRepository (GitDir cfg) = Some m ->
  tagged m v ->
  GetVersionTreeId m v = Ok (trimTgz givenTreeId) ->
  Status (ServeHTTP OpenRepository hostname modules req) = 200 /\
  logged (makeHandler OpenRepository hostname modules req) = [] /\
  RespBody (ServeHTTP OpenRepository hostname modules req) =
    [ChunkGzipTar
       match client_room req with
       | None => out (fst (WriteVersionTar m v None))
       | Some n => firstn n (out (fst (WriteVersionTar m v None)))
       end].
Proof.
  intros Hp Hl Hv Hload Ht Hid. apply HasVersion_of_tagged in Ht.
  assert (Hb : [ChunkGzipTar (out (fst (WriteVersionTar m v (client_room req))))] =
               [ChunkGzipTar
                  match client_room req with
                  | None => out (fst (WriteVersionTar m v None))
                  | Some n => firstn n (out (fst (WriteVersionTar m v None)))
                  end]).
  { destruct (client_room req) as [n|]; [| reflexivity].
    destruct (WriteVersionTar_tracks m v n) as (items & HU & HL & _).
    rewrite HU, HL. reflexivity. }
  rewrite <- Hb.
  unfold ServeHTTP, makeHandler. rewrite Hp. cbn [String.eqb Ascii.eqb Bool.eqb].
  split; [| split].
  - rewrite (handleDownloadArchive_resolved _ _ _ _ _ _ _ _ _ _ _ _ Hl Hv Hload Ht Hid).
    rewrite String.eqb_refl. reflexivity.
  - apply Lookup_Some in Hl as (byNamespace & byName & H1 & H2 & H3).
    unfold handleDownloadArchive. rewrite H1, H2, H3, Hv, Hload, Ht, Hid. cbn [negb].
    fold (trimTgz givenTreeId). rewrite String.eqb_refl. cbn [negb].
    destruct (WriteVersionTar m v (client_room req)) as [zw err]. reflexivity.
  - rewrite (handleDownloadArchive_resolved _ _ _ _ _ _ _ _ _ _ _ _ Hl Hv Hload Ht Hid).
    rewrite String.eqb_refl. reflexivity.
Qed.

End ArchiveRouteFailures.

(** ** The properties at the sample registry *)

Section AtTheSampleRegistry.
#[local] Existing Instance GoVersion.lib.
#[local] Existing Instance insertionSort.
#[local] Existing Instance Samples.mux.
Import Samples.

Lemma tagged_widget_100 : tagged {| repo := widget |} (v "1.0.0").
Proof.
  exists [ Ok "refs/heads/master"; Ok "refs/tags/v1.0.0"; Ok "refs/tags/v1.2.0";
           Ok "refs/tags/vnext" ], "refs/tags/v1.0.0", (v "1.0.0").
  split; [reflexivity |]. split; [simpl; auto |]. split; reflexivity.
Qed.

Lemma tagged_short_10 : tagged {| repo := short |} (v "1.0").
Proof.
  exists [ Ok "refs/tags/v1.0" ], "refs/tags/v1.0", (v "1.0").
  split; [reflexivity |]. split; [simpl; auto |]. split; reflexivity.
Qed.

(** C1, the claim as stated, fails: with the tags [v1.0] and [v1.0.0] the
    result of [AllVersions] holds two entries that are equal in precedence,
    so it is not strictly descending. *)
Lemma AllVersions_keeps_equal_tags :
  exists a b,
    AllVersions {| repo := twice |} = Ok [a; b] /\
    Equal a b = true /\
    ~ StrictlyDescending [a; b].
Proof.
  exists (v "1.0"), (v "1.0.0"). split; [reflexivity |]. split; [reflexivity |].
  intros H. apply StronglySorted_inv in H as [_ H]. apply Forall_inv in H.
  vm_compute in H. discriminate.
Qed.

(** With the tags [v1.0] and [v1.0.0] both entries are kept, latest first. *)
Lemma AllVersions_descending_permutation_witness :
  AllVersions {| repo := twice |} = Ok [v "1.0"; v "1.0.0"] /\
  exists it names,
    NewReferenceNameIterator (repo {| repo := twice |}) = Ok it /\
    enumerate it = Ok names /\
    Permutation (omap tagVersion names) [v "1.0"; v "1.0.0"] /\
    Descending [v "1.0"; v "1.0.0"].
Proof.
  split; [reflexivity |].
  apply (AllVersions_descending_permutation
           (VLaws := GoVersionFacts.laws) (SLaws := insertionSort_laws)
           {| repo := twice |}).
  reflexivity.
Defined.

(** C9, the claim as stated, fails: the iterator of this store is created,
    its second step fails, and [AllVersions] returns that error. *)
Lemma AllVersions_fails_after_enumeration_began :
  exists it err,
    NewReferenceNameIterator (repo {| repo := flaky |}) = Ok it /\
    AllVersions {| repo := flaky |} = Err err.
Proof.
  eexists; eexists. split; reflexivity.
Qed.

(** A store without tags gives the empty sequence; the store whose second
    enumeration step fails gives that step's error. *)
Lemma AllVersions_failure_modes_witness :
  AllVersions {| repo := bare |} = Ok [] /\
  AllVersions {| repo := flaky |} =
    Err (git_error {| Code := -1; Message := "failed to read packed-refs" |}).
Proof.
  split.
  - destruct (AllVersions_failure_modes (SLaws := insertionSort_laws) {| repo := bare |})
      as [H _].
    apply (H [Ok "refs/heads/master"] ["refs/heads/master"]); reflexivity.
  - destruct (AllVersions_failure_modes (SLaws := insertionSort_laws) {| repo := flaky |})
      as [_ H].
    apply H. right. exists ["refs/heads/master"], []. split; reflexivity.
Defined.

(** Only [v1.0] is tagged, and [HasVersion] finds the version 1.0.0. *)
Lemma HasVersion_iff_precedence_equal_tag_witness :
  HasVersion {| repo := short |} (v "1.0.0") = Ok true /\
  NewReferenceNameIterator short = Ok [Ok "refs/tags/v1.0"].
Proof.
  split; [| reflexivity].
  apply (proj1 (HasVersion_iff_precedence_equal_tag {| repo := short |} (v "1.0.0"))).
  exists [ Ok "refs/tags/v1.0" ], "refs/tags/v1.0", (v "1.0").
  split; [reflexivity |]. split; [simpl; auto |]. repeat split; reflexivity.
Defined.

(** C2: the tree of this tag has a directory whose tree object cannot be
    read, followed by a file.  [WriteVersionTar] writes the directory's
    header, goes on to the file, and returns [nil]. *)
Lemma WriteVersionTar_passes_over_unreadable_subtree :
  LookupTree damaged (lostDir "modules") = Err notFound /\
  WriteVersionTar {| repo := damaged |} (v "1.0.0") None =
  ({| out := [ TarHeader {| hdr_Name := "modules/"; hdr_Mode := 493;
                            hdr_Typeflag := TypeDir; hdr_Size := 0;
                            hdr_ChangeTime := 1509494400;
                            hdr_AccessTime := 1509494400;
                            hdr_ModTime := 1509494400 |};
               TarHeader {| hdr_Name := "main.tf"; hdr_Mode := 33188;
                            hdr_Typeflag := TypeReg; hdr_Size := 6;
                            hdr_ChangeTime := 1509494400;
                            hdr_AccessTime := 1509494400;
                            hdr_ModTime := 1509494400 |};
               TarData (list_byte_of_string "module");
               TarTrailer ];
      room := None |}, None).
Proof. split; reflexivity. Qed.

(** The four entries of the archive of [v1.0.0] carry the committer time. *)
Lemma WriteVersionTar_uniform_timestamp_witness :
  Forall (fun h => hdr_ModTime h = 1509494400 /\
                   hdr_AccessTime h = 1509494400 /\
                   hdr_ChangeTime h = 1509494400)
         (headers (out (fst (WriteVersionTar {| repo := widget |} (v "1.0.0") None)))) /\
  map hdr_Name (headers (out (fst (WriteVersionTar {| repo := widget |} (v "1.0.0") None))))
  = ["modules/"; "modules/net.tf"; "main.tf"; "run.sh"].
Proof.
  split; [| reflexivity].
  apply (WriteVersionTar_uniform_timestamp {| repo := widget |} (v "1.0.0") None commit100).
  reflexivity.
Defined.

(** The archive of [v1.0.0] with and without its [vendor] link. *)
Example archive_without_vendor_link :
  hasLink tree100 = true /\
  writeGitTreeTar {| repo := widget |} tree100 "" 0 (NewWriter None) =
  writeGitTreeTar {| repo := widget |}
    (mkTree [ dir "modules" [ file "net.tf" 33188 "resource" ];
              file "main.tf" 33188 "module";
              file "run.sh" 33261 "#!/bin/sh" ]) "" 0 (NewWriter None).
Proof. split; reflexivity. Qed.

(** C3, the claim as stated, fails: the tree id of [v1.0.0] is [1f0e], and
    the header holds [./download/1f0e.tgz], not [./download/1f0e].  (The
    one-argument handler has no such header at all: it answers with the tar
    stream itself.) *)
Lemma download_location_payload_has_suffix :
  GetVersionTreeId {| repo := widget |} (v "1.0.0") = Ok "1f0e" /\
  RespHeader (ServeHTTP fs "example.com" modules getLocation) !! "X-Terraform-Get"
    = Some "./download/1f0e.tgz" /\
  RespHeader (ServeHTTP fs "example.com" modules getLocation) !! "X-Terraform-Get"
    <> Some "./download/1f0e" /\
  RespHeader (Legacy.ServeHTTP fs modules getLocation) !! "X-Terraform-Get" = None /\
  RespHeader (Legacy.ServeHTTP fs modules getLocation) !! "Content-Type"
    = Some "application/x-tar" /\
  RespBody (Legacy.ServeHTTP fs modules getLocation)
    = [ChunkTar (out (fst (WriteVersionTar {| repo := widget |} (v "1.0.0") None)))].
Proof.
  split; [reflexivity |]. split; [vm_compute; reflexivity |].
  split; [vm_compute; discriminate |].
  split; [vm_compute; reflexivity |]. split; vm_compute; reflexivity.
Qed.

(** The download location of version 1.0.0 of acme/widget/aws. *)
Lemma download_location_route_witness :
  ServeHTTP fs "example.com" modules getLocation =
  {| Status := 200;
     RespHeader := <["X-Terraform-Get" := "./download/1f0e.tgz"]>
                     (<["Content-Type" := "text/plain"]> ∅);
     RespBody := [] |}.
Proof.
  exact (download_location_route fs "example.com" modules getLocation
           "acme" "widget" "aws" "1.0.0" cfgWidget (v "1.0.0") {| repo := widget |}
           eq_refl eq_refl eq_refl eq_refl tagged_widget_100).
Defined.

(** Asked for version 1.0.0 with the tree id of [v1.2.0], the archive route
    answers 404; asked with its own tree id and the archive suffix, it
    serves the archive. *)
Lemma download_archive_route_witness :
  ServeHTTP fs "example.com" modules (getArchive "9c4b") = NotFound /\
  GetVersionTreeId {| repo := widget |} (v "1.2.0") = Ok "9c4b" /\
  RespBody (ServeHTTP fs "example.com" modules (getArchive "1f0e.tgz")) =
    [ChunkGzipTar (out (fst (WriteVersionTar {| repo := widget |} (v "1.0.0") None)))].
Proof.
  split; [| split; [reflexivity |]].
  - destruct (download_archive_route fs "example.com" modules (getArchive "9c4b"))
      as [H _].
    destruct (H "acme" "widget" "aws" "1.0.0" "9c4b" cfgWidget (v "1.0.0")
                {| repo := widget |} "1f0e" eq_refl eq_refl eq_refl eq_refl
                tagged_widget_100 eq_refl) as [Hne _].
    apply Hne. discriminate.
  - destruct (download_archive_route fs "example.com" modules (getArchive "1f0e.tgz"))
      as [H _].
    destruct (H "acme" "widget" "aws" "1.0.0" "1f0e.tgz" cfgWidget (v "1.0.0")
                {| repo := widget |} "1f0e" eq_refl eq_refl eq_refl eq_refl
                tagged_widget_100 eq_refl) as [_ Heq].
    rewrite (Heq eq_refl). reflexivity.
Defined.

(** Asked for version [1.0], the summary says [1.0.0]. *)
Lemma exact_version_route_witness :
  ServeHTTP fs "example.com" modules getExact =
  {| Status := 200; RespHeader := ∅;
     RespBody := [ChunkJSON (JObject
       [ ("id", JString "acme/short/aws/1.0.0");
         ("namespace", JString "acme");
         ("name", JString "short");
         ("provider", JString "aws");
         ("version", JString "1.0.0") ])] |}.
Proof.
  destruct (exact_version_route fs "example.com" modules getExact
              "acme" "short" "aws" "1.0" eq_refl ltac:(discriminate)) as [H _].
  exact (H cfgShort (v "1.0") {| repo := short |} eq_refl eq_refl eq_refl tagged_short_10).
Defined.

(** The two versions of acme/widget/aws, and [HasVersion] asked for 1.0.0. *)
Lemma HasVersion_agrees_with_AllVersions_witness :
  AllVersions {| repo := widget |} = Ok [v "1.2.0"; v "1.0.0"] /\
  HasVersion {| repo := widget |} (v "1.0.0") =
    Ok (existsb (fun g => Equal g (v "1.0.0")) [v "1.2.0"; v "1.0.0"]).
Proof.
  split; [reflexivity |].
  apply (HasVersion_agrees_with_AllVersions (SLaws := insertionSort_laws)
           {| repo := widget |} (v "1.0.0") [v "1.2.0"; v "1.0.0"]).
  reflexivity.
Defined.

(** The latest version of acme/widget/aws is 1.2.0. *)
Lemma LatestVersion_is_greatest_tag_witness :
  LatestVersion {| repo := widget |} = Ok (Some (v "1.2.0")) /\
  HasVersion {| repo := widget |} (v "1.2.0") = Ok true.
Proof.
  split; [reflexivity |].
  apply (LatestVersion_is_greatest_tag (VLaws := GoVersionFacts.laws)
           (SLaws := insertionSort_laws) {| repo := widget |} (v "1.2.0")).
  reflexivity.
Defined.

(** The archive of version 1.0.0 unpacks to the tree of its commit. *)
Lemma WriteVersionTar_round_trip_witness :
  exists commit rootTree items,
    getVersionCommit {| repo := widget |} (v "1.0.0") = Ok commit /\
    commit_Tree commit = Ok rootTree /\
    out (fst (WriteVersionTar {| repo := widget |} (v "1.0.0") None))
      = items ++ [TarTrailer] /\
    unpack items = Some (snapshot rootTree "").
Proof.
  exact (WriteVersionTar_round_trip {| repo := widget |} (v "1.0.0")
           (fst (WriteVersionTar {| repo := widget |} (v "1.0.0") None)) eq_refl).
Defined.

(** No module acme/gadget is configured. *)
Lemma unconfigured_coordinate_is_not_found_witness :
  makeHandler fs "example.com" modules
    {| URL_Path := "/acme/gadget/aws/1.0.0/download"; client_room := None |}
  = WriteHeader newResponseWriter 404.
Proof.
  apply (unconfigured_coordinate_is_not_found fs "example.com" modules
           {| URL_Path := "/acme/gadget/aws/1.0.0/download"; client_room := None |}
           ["acme"; "gadget"; "aws"; "1.0.0"; "download"]).
  - reflexivity.
  - reflexivity.
  - vm_compute. reflexivity.
Defined.

(** The answer to a request for the latest version of the unconfigured
    acme/gadget/aws. *)
Lemma every_answer_is_200_or_bare_404_or_bare_500_witness :
  (Status (finish (makeHandler fs "example.com" modules
                     {| URL_Path := "/acme/gadget/aws"; client_room := None |})) = 200 \/
   finish (makeHandler fs "example.com" modules
             {| URL_Path := "/acme/gadget/aws"; client_room := None |}) = NotFound \/
   finish (makeHandler fs "example.com" modules
             {| URL_Path := "/acme/gadget/aws"; client_room := None |}) = ServerError) /\
  (Status (finish (makeHandler fs "example.com" modules
                     {| URL_Path := "/acme/gadget/aws"; client_room := None |})) = 500 ->
   logged (makeHandler fs "example.com" modules
             {| URL_Path := "/acme/gadget/aws"; client_room := None |}) <> []).
Proof.
  exact (every_answer_is_200_or_bare_404_or_bare_500 fs "example.com" modules
           {| URL_Path := "/acme/gadget/aws"; client_room := None |} I).
Defined.

(** The latest version of acme/widget/aws and the list of its versions. *)
Lemma latest_route_reports_head_of_versions_route_witness :
  ServeHTTP fs "example.com" modules
    {| URL_Path := "/acme/widget/aws/versions"; client_room := None |} =
    {| Status := 200; RespHeader := ∅;
       RespBody := [ChunkJSON (versionsDoc "example.com" "acme" "widget" "aws"
                                 [v "1.2.0"; v "1.0.0"])] |} /\
  ServeHTTP fs "example.com" modules
    {| URL_Path := "/acme/widget/aws"; client_room := None |} =
    {| Status := 200; RespHeader := ∅;
       RespBody := [ChunkJSON (json_of_apiModule
                                 (summary "acme" "widget" "aws" (v "1.2.0")))] |}.
Proof.
  exact (latest_route_reports_head_of_versions_route fs "example.com" modules
           {| URL_Path := "/acme/widget/aws"; client_room := None |}
           {| URL_Path := "/acme/widget/aws/versions"; client_room := None |}
           "acme" "widget" "aws" cfgWidget {| repo := widget |}
           eq_refl eq_refl eq_refl eq_refl).
Defined.

(** The providers of acme/widget. *)
Lemma list_providers_route_witness :
  exists mods,
    ServeHTTP fs "example.com" modules
      {| URL_Path := "/acme/widget"; client_room := None |} =
      {| Status := 200; RespHeader := ∅;
         RespBody := [ChunkJSON (json_of_apiModuleListResponse mods)] |} /\
    (forall a, In a mods <->
      exists provider cfg m latest,
        ({[ "aws" := cfgWidget ]} : gmap string ModuleConfig) !! provider = Some cfg /\
        Load fs (GitDir cfg) = Some m /\
        LatestVersion m = Ok (Some latest) /\
        a = summary "acme" "widget" provider latest) /\
    (forall e, In e (logged (makeHandler fs "example.com" modules
                               {| URL_Path := "/acme/widget"; client_room := None |})) <->
      exists provider cfg,
        ({[ "aws" := cfgWidget ]} : gmap string ModuleConfig) !! provider = Some cfg /\
        ((Load fs (GitDir cfg) = None /\
          e = LogOpenFailed (GitDir cfg) (DeclRange cfg)) \/
         (exists m err,
            Load fs (GitDir cfg) = Some m /\
            LatestVersion m = Err err /\
            e = LogLatestFailed (DeclRange cfg) err))).
Proof.
  apply (list_providers_route fs "example.com" modules
           {| URL_Path := "/acme/widget"; client_room := None |} "acme" "widget"
           {[ "widget" := {[ "aws" := cfgWidget ]}; "short" := {[ "aws" := cfgShort ]} ]}
           {[ "aws" := cfgWidget ]}).
  - reflexivity.
  - vm_compute. reflexivity.
  - vm_compute. reflexivity.
Defined.

(** The versions of acme/widget/aws, latest first. *)
Lemma versions_route_lists_every_tag_latest_first_witness :
  exists versions,
    Permutation [v "1.0.0"; v "1.2.0"] versions /\
    Descending versions /\
    ServeHTTP fs "example.com" modules
      {| URL_Path := "/acme/widget/aws/versions"; client_room := None |} =
      {| Status := 200; RespHeader := ∅;
         RespBody := [ChunkJSON (versionsDoc "example.com" "acme" "widget" "aws"
                                   versions)] |}.
Proof.
  destruct (versions_route_lists_every_tag_latest_first
              (VLaws := GoVersionFacts.laws) (SLaws := insertionSort_laws)
              fs "example.com" modules
              {| URL_Path := "/acme/widget/aws/versions"; client_room := None |}
              "acme" "widget" "aws" cfgWidget {| repo := widget |}
              [ Ok "refs/heads/master"; Ok "refs/tags/v1.0.0"; Ok "refs/tags/v1.2.0";
                Ok "refs/tags/vnext" ]
              [ "refs/heads/master"; "refs/tags/v1.0.0"; "refs/tags/v1.2.0";
                "refs/tags/vnext" ]
              eq_refl eq_refl eq_refl eq_refl eq_refl)
    as (versions & Hp & Hd & _ & Hr).
  exists versions. split; [exact Hp |]. split; [exact Hd | exact Hr].
Defined.

(** Only [v1.0] is tagged in acme/short/aws: version 1.0 exists, and neither
    download route serves it. *)
Lemma version_without_canonical_tag_is_listed_but_not_served_witness :
  NewReferenceNameIterator short = Ok [Ok "refs/tags/v1.0"] /\
  Status (ServeHTTP fs "example.com" modules getExact) = 200 /\
  ServeHTTP fs "example.com" modules
    {| URL_Path := "/acme/short/aws/1.0/download"; client_room := None |} = NotFound /\
  ServeHTTP fs "example.com" modules
    {| URL_Path := "/acme/short/aws/1.0/download/1f0e.tgz"; client_room := None |}
    = NotFound.
Proof.
  split; [reflexivity |].
  apply (version_without_canonical_tag_is_listed_but_not_served fs "example.com" modules
           getExact
           {| URL_Path := "/acme/short/aws/1.0/download"; client_room := None |}
           {| URL_Path := "/acme/short/aws/1.0/download/1f0e.tgz"; client_room := None |}
           "acme" "short" "aws" "1.0" "1f0e.tgz" cfgShort (v "1.0") {| repo := short |}
           notFound).
  - reflexivity.
  - discriminate.
  - reflexivity.
  - reflexivity.
  - vm_compute. reflexivity.
  - reflexivity.
  - reflexivity.
  - exact tagged_short_10.
  - reflexivity.
Defined.

(** The link handed out for version 1.0.0 of acme/widget/aws. *)
Lemma location_link_leads_to_archive_witness :
  exists file,
    RespHeader (ServeHTTP fs "example.com" modules getLocation) !! "X-Terraform-Get"
      = Some ("./download/" +:+ file) /\
    forall reqArchive,
      URL_Path reqArchive = URL_Path getLocation +:+ "/" +:+ file ->
      ServeHTTP fs "example.com" modules reqArchive =
      {| Status := 200;
         RespHeader :=
           <["Content-Disposition" :=
               "attachment; filename=" +:+ "acme" +:+ "_" +:+ "widget" +:+ "_" +:+ "aws"
                 +:+ "_" +:+ Version_String (v "1.0.0") +:+ ".tgz"]>
             (<["Content-Type" := "application/x-gzip"]> ∅);
         RespBody :=
           [ChunkGzipTar (out (fst (WriteVersionTar {| repo := widget |} (v "1.0.0")
                                      (client_room reqArchive))))] |}.
Proof.
  apply (location_link_leads_to_archive fs "example.com" modules getLocation
           "acme" "widget" "aws" "1.0.0" cfgWidget (v "1.0.0") {| repo := widget |} "1f0e").
  - reflexivity.
  - vm_compute. reflexivity.
  - reflexivity.
  - reflexivity.
  - exact tagged_widget_100.
  - reflexivity.
  - discriminate.
  - reflexivity.
Defined.

(** The one-argument handler asked for version 1.0.0 of acme/widget/aws. *)
Lemma Legacy_download_route_answers_before_reading_witness :
  Legacy.ServeHTTP fs modules getLocation =
    {| Status := 200;
       RespHeader := <["Content-Type" := "application/x-tar"]> ∅;
       RespBody := [ChunkTar (out (fst (WriteVersionTar {| repo := widget |} (v "1.0.0")
                                          None)))] |}.
Proof.
  destruct (Legacy_download_route_answers_before_reading fs modules getLocation
              "acme" "widget" "aws" "1.0.0" cfgWidget (v "1.0.0") {| repo := widget |}
              eq_refl ltac:(vm_compute; reflexivity) eq_refl eq_refl tagged_widget_100)
    as [H _].
  exact H.
Defined.

(** A client that accepts three items of the archive of version 1.0.0. *)
Lemma archive_route_drops_archive_errors_witness :
  Status (ServeHTTP fs "example.com" modules
            {| URL_Path := "/acme/widget/aws/1.0.0/download/1f0e.tgz";
               client_room := Some 3%nat |}) = 200 /\
  logged (makeHandler fs "example.com" modules
            {| URL_Path := "/acme/widget/aws/1.0.0/download/1f0e.tgz";
               client_room := Some 3%nat |}) = [] /\
  RespBody (ServeHTTP fs "example.com" modules
              {| URL_Path := "/acme/widget/aws/1.0.0/download/1f0e.tgz";
                 client_room := Some 3%nat |}) =
    [ChunkGzipTar (firstn 3 (out (fst (WriteVersionTar {| repo := widget |} (v "1.0.0")
                                         None))))].
Proof.
  exact (archive_route_drops_archive_errors fs "example.com" modules
           {| URL_Path := "/acme/widget/aws/1.0.0/download/1f0e.tgz";
              client_room := Some 3%nat |}
           "acme" "widget" "aws" "1.0.0" "1f0e.tgz" cfgWidget (v "1.0.0")
           {| repo := widget |}
           eq_refl ltac:(vm_compute; reflexivity) eq_refl eq_refl tagged_widget_100
           eq_refl).
Defined.

End AtTheSampleRegistry.

(** ** The properties at the sample configuration *)

Section AtTheSampleConfiguration.
Import ConfigSamples.

(** A listener on socket number -1. *)
Lemma negative_socket_number_is_accepted_and_panics_witness :
  (listenerConf minusOne []).2 = [] /\
  exists i,
    Socket (listenerConf minusOne []).1 = socketActivationIndex i /\
    socketActivationIndex_Listen unit i (Ok [Some tt]) = Panicked.
Proof.
  apply (negative_socket_number_is_accepted_and_panics minusOne (-1) [] unit [Some tt]).
  - reflexivity.
  - reflexivity.
  - reflexivity.
Defined.

(** The sample configuration loads without error, and acme/widget/aws is
    stored as declared. *)
Lemma LoadModulesConfig_complete_when_no_error_witness :
  Lookup (cfg_Modules (LoadModulesConfig rangeBetween registryConf).1)
    "acme" "widget" "aws" =
  Some {| GitDir := "/srv/git/widget";
          DeclRange := "registry.conf:3,1-7 to registry.conf:3,24-29" |}.
Proof.
  apply (LoadModulesConfig_complete_when_no_error rangeBetween registryConf widgetBlock).
  - vm_compute. reflexivity.
  - left. reflexivity.
Defined.

End AtTheSampleConfiguration.
